(** * dwigradcheck: the gradient-orientation search driver

    A shallow embedding of [bin/dwigradcheck] (a Python script) and the
    properties of its enumerate / evaluate / rank loop.

    Conventions of the embedding.
    - The floats of a gradient table are only ever negated or multiplied
      by [1.0] / [-1.0] in this script; those operations are exact, so
      such a float is modelled by an integer of [Z], [1.0] by [1] and
      [-1.0] by [-1].
    - The mean length that [float()] makes of the output of [tckstats] is
      only ever compared: it is a [Py.float], a number or NaN.
    - A run starts from texts that [int()] and [float()] accept; what
      the script does with the text of a table is the subject of
      [Reader].
    - Python list objects live in a heap of mutable objects; [copy.copy]
      is a shallow copy, item assignment is an in-place update.
    - The script runs under whichever interpreter [python] resolves to;
      the two languages differ in how a [str] is ordered against an
      [int], so the interpreter is a parameter of the run. *)

From Stdlib Require OrderedTypeEx.
From stdpp Require Import gmap strings list pretty sorting.

#[local] Set Warnings "-clear-no-such-hyp".

Local Open Scope Z_scope.

(** ** Python run-time model *)

Module Py.

Inductive python := Py2 | Py3.

(** The two kinds of value that occur in [axis_flips]. *)
Inductive value :=
  | Str (s : string)
  | Int (n : Z).

Definition str (v : value) : string :=
  match v with Str s => s | Int n => pretty n end.

(** [isinstance(v, numbers.Number)] *)
Definition is_number (v : value) : bool :=
  match v with Int _ => true | Str _ => false end.

(** [a == b]; never raises, a [str] never equals an [int]. *)
Definition value_eqb (a b : value) : bool :=
  match a, b with
  | Str s, Str t => String.eqb s t
  | Int n, Int m => n =? m
  | _, _ => false
  end.

(** [a < b] on strings: code-point lexicographic. *)
Definition str_lt (s t : string) : option bool := Some (String.ltb s t).

Definition int_lt (n m : Z) : option bool := Some (n <? m).

(** A float that is compared.  Only the order of the numbers matters
    (an infinity is ordered like any other number), so an integer of [Z]
    stands for a number; NaN is apart. *)
Inductive float :=
  | Num (x : Z)
  | NaN.

(** [a == b] on two float objects: NaN equals nothing, not even another
    NaN.  (Sequence comparison takes an object to equal itself, but no
    two entries of [lengths] share their float: each comes from a call
    of [float()] of its own.) *)
Definition float_eqb (a b : float) : bool :=
  match a, b with
  | Num x, Num y => x =? y
  | _, _ => false
  end.

(** [a < b]: never raises, and is [False] as soon as one side is NaN. *)
Definition float_lt (a b : float) : option bool :=
  match a, b with
  | Num x, Num y => int_lt x y
  | _, _ => Some false
  end.

(** [a <= b] *)
Definition float_le (a b : float) : Prop :=
  match a, b with
  | Num x, Num y => x ≤ y
  | _, _ => False
  end.

(** [a < b].  Python 2 orders every number before every string; Python 3
    raises [TypeError] ([None]). *)
Definition value_lt (py : python) (a b : value) : option bool :=
  match a, b with
  | Str s, Str t => str_lt s t
  | Int n, Int m => int_lt n m
  | Int _, Str _ => match py with Py2 => Some true | Py3 => None end
  | Str _, Int _ => match py with Py2 => Some false | Py3 => None end
  end.

(** Sequence comparison [x < y] for sequences of equal length: the first
    position where the items differ under [==] decides, with [<] applied
    to that pair only. *)
Definition lex {A B} (eqA : A → A → bool) (ltA : A → A → option bool)
    (ltB : B → B → option bool) (x y : A * B) : option bool :=
  if eqA x.1 y.1 then ltB x.2 y.2 else ltA x.1 y.1.

Definition pair_eqb {A B} (eqA : A → A → bool) (eqB : B → B → bool)
    (x y : A * B) : bool :=
  eqA x.1 y.1 && eqB x.2 y.2.

(** A pair [==], [<] that never raises and is a strict total order. *)
Class StrictTotal {A} (eqb : A → A → bool) (lt : A → A → option bool) : Prop := {
  st_eqb a b : eqb a b = true ↔ a = b;
  st_defined a b : is_Some (lt a b);
  st_irrefl a : lt a a = Some false;
  st_asym a b : lt a b = Some true → lt b a = Some false;
  st_trans a b c : lt a b = Some true → lt b c = Some true → lt a c = Some true;
  st_connex a b : lt a b = Some false → lt b a = Some false → a = b;
}.

(** Tuples of three ints, [(a, b, c)]. *)
Definition tuple := (Z * Z * Z)%type.

Definition tuple_eqb : tuple → tuple → bool :=
  pair_eqb (pair_eqb Z.eqb Z.eqb) Z.eqb.

Definition tuple_lt : tuple → tuple → option bool :=
  lex (pair_eqb Z.eqb Z.eqb) (lex Z.eqb int_lt int_lt) int_lt.

(** [seq[i]]: a negative index counts from the end, anything outside
    [-len .. len-1] raises [IndexError] ([None]). *)
Definition index (len : nat) (i : Z) : option nat :=
  if bool_decide (0 ≤ i < Z.of_nat len) then Some (Z.to_nat i)
  else if bool_decide (- Z.of_nat len ≤ i < 0) then Some (Z.to_nat (i + Z.of_nat len))
  else None.

(** [list.sort()]: a stable comparison sort that only ever asks [<].
    Elements are taken left to right and each is placed after every
    element of the sorted prefix that is not greater than it.  A
    comparison that raises aborts the sort.  CPython inserts by
    bisection and so asks other questions than this sort does; the
    answers fix the result only where they are those of a strict total
    order.  What is proved below of this sort is therefore what holds of
    any stable comparison sort: the result is a rearrangement of the
    input, it is determined by the comparison on elements that the
    comparison orders strictly and totally, and two neighbours of such
    a result have been compared with one another.  Nothing is concluded
    from the position this sort gives to a NaN. *)
Fixpoint insort {A} (lt : A → A → option bool) (x : A) (sorted : list A)
    : option (list A) :=
  match sorted with
  | [] => Some [x]
  | y :: rest =>
      match lt x y with
      | None => None
      | Some true => Some (x :: y :: rest)
      | Some false =>
          match insort lt x rest with
          | None => None
          | Some rest' => Some (y :: rest')
          end
      end
  end.

Fixpoint sort_from {A} (lt : A → A → option bool) (sorted todo : list A)
    : option (list A) :=
  match todo with
  | [] => Some sorted
  | x :: todo' =>
      match insort lt x sorted with
      | None => None
      | Some sorted' => sort_from lt sorted' todo'
      end
  end.

Definition sort {A} (lt : A → A → option bool) (l : list A) : option (list A) :=
  sort_from lt [] l.

(** What a completed sort has learnt about two neighbours of its
    result: one of the two comparisons was made, did not raise, and put
    [a] no later than [b]. *)
Definition settled {A} (lt : A → A → option bool) (a b : A) : Prop :=
  lt a b = Some true ∨ lt b a = Some false.

End Py.

(** ** The search space *)

Definition axis_flips : list Py.value :=
  [Py.Str "none"; Py.Int 0; Py.Int 1; Py.Int 2].

Definition axis_permutations : list Py.tuple :=
  [(0, 1, 2); (0, 2, 1); (1, 0, 2); (1, 2, 0); (2, 0, 1); (2, 1, 0)].

Definition grad_basis : list string := ["scanner"; "image"].

(** A candidate is what the three nested loop variables hold in one
    iteration. *)
Record candidate := Candidate {
  flip : Py.value;
  permutation : Py.tuple;
  basis : string;
}.

(** The iterations of
    [for flip in axis_flips: for permutation in axis_permutations:
       for basis in grad_basis:], in execution order. *)
Definition candidates : list candidate :=
  f ← axis_flips; p ← axis_permutations; b ← grad_basis; [Candidate f p b].

(** An entry [[meanlength, flip, permutation, basis]] of [lengths]. *)
Record result := Result {
  meanlength : Py.float;
  descriptor : candidate;
}.

Definition descriptor_key (c : candidate) : Py.value * (Py.tuple * string) :=
  (flip c, (permutation c, basis c)).

Definition result_key (r : result) : Py.float * (Py.value * (Py.tuple * string)) :=
  (meanlength r, descriptor_key (descriptor r)).

(** [<] on the descriptor part of two entries. *)
Definition descriptor_lt (py : Py.python)
    : Py.value * (Py.tuple * string) → Py.value * (Py.tuple * string) → option bool :=
  Py.lex Py.value_eqb (Py.value_lt py)
    (Py.lex Py.tuple_eqb Py.tuple_lt Py.str_lt).

(** [a < b] on two entries of [lengths] (four-item lists). *)
Definition result_lt (py : Py.python) (a b : result) : option bool :=
  Py.lex Py.float_eqb Py.float_lt (descriptor_lt py) (result_key a) (result_key b).

(** [lengths.sort(); lengths.reverse()] *)
Definition rank (py : Py.python) (lengths : list result) : option (list result) :=
  match Py.sort (result_lt py) lengths with
  | None => None
  | Some sorted => Some (reverse sorted)
  end.

(** ** The world the script runs in *)

(** An item of a Python list: a float, or a reference to another list. *)
Inductive cell :=
  | Float (x : Z)
  | Ref (l : nat).

(** A file of the scratch directory.  Files produced by external tools
    or copied from the user are opaque; a gradient table written by the
    script is kept as its rows together with the separator used. *)
Inductive artifact :=
  | External
  | Table (sep : string) (rows : list (list Z)).

(** The errors of a run.  The [ValueError] of [int()] and [float()] is
    not among them: a run starts from texts that convert. *)
Inductive error :=
  | InvalidInputError (message : string)
  | GradientTableMismatchError (message : string)
  | MutuallyExclusiveOptionError (options : list string)
  | ExternalToolError (cmd : string)
  | IOError (path : string)
  | IndexError
  | TypeError
  | NameError.

Record world := World {
  heap : gmap nat (list cell);     (* Python list objects *)
  scratch : bool;                  (* the scratch directory exists *)
  files : gmap string artifact;    (* files of the scratch directory *)
  invoked : list string;           (* external commands run so far *)
  lengths : list result;           (* the global list [lengths] *)
  printed : list result;           (* rows of the printed table *)
}.

Definition initial : world := World ∅ false ∅ [] [] [].

Definition set_heap (f : gmap nat (list cell) → gmap nat (list cell)) (w : world) : world :=
  World (f (heap w)) (scratch w) (files w) (invoked w) (lengths w) (printed w).
Definition set_scratch (b : bool) (w : world) : world :=
  World (heap w) b (files w) (invoked w) (lengths w) (printed w).
Definition set_files (f : gmap string artifact → gmap string artifact) (w : world) : world :=
  World (heap w) (scratch w) (f (files w)) (invoked w) (lengths w) (printed w).
Definition set_invoked (f : list string → list string) (w : world) : world :=
  World (heap w) (scratch w) (files w) (f (invoked w)) (lengths w) (printed w).
Definition set_lengths (f : list result → list result) (w : world) : world :=
  World (heap w) (scratch w) (files w) (invoked w) (f (lengths w)) (printed w).
Definition set_printed (f : list result → list result) (w : world) : world :=
  World (heap w) (scratch w) (files w) (invoked w) (lengths w) (f (printed w)).

(** How a run, or a part of it, ends: normally with a value, or with an
    error that terminates the script.  Either way the world reached is
    kept. *)
Inductive outcome (A : Type) :=
  | Done (a : A) (w : world)
  | Raise (e : error) (w : world).
Arguments Done {A} a w.
Arguments Raise {A} e w.

Definition world_of {A} (o : outcome A) : world :=
  match o with Done _ w => w | Raise _ w => w end.

Definition error_of {A} (o : outcome A) : option error :=
  match o with Done _ _ => None | Raise e _ => Some e end.

Definition M (A : Type) : Type := world → outcome A.

Definition raise {A} (e : error) : M A := λ w, Raise e w.

#[global] Instance M_ret : MRet M := λ A a w, Done a w.

#[global] Instance M_bind : MBind M := λ A B k m w,
  match m w with
  | Done a w' => k a w'
  | Raise e w' => Raise e w'
  end.

(** [for x in l: body(x)], collecting the values of the body. *)
Fixpoint for_list {A B} (body : A → M B) (l : list A) : M (list B) :=
  match l with
  | [] => mret []
  | x :: l' => y ← body x; ys ← for_list body l'; mret (y :: ys)
  end.

(** [for x in l: body(x)] *)
Fixpoint for_each {A} (body : A → M unit) (l : list A) : M unit :=
  match l with
  | [] => mret tt
  | x :: l' => body x;; for_each body l'
  end.

Definition when (b : bool) (m : M unit) : M unit := if b then m else mret tt.

(** *** List objects *)

(** A new list object. *)
Definition new (vs : list cell) : M nat := λ w,
  let l := fresh (dom (heap w)) in Done l (set_heap <[l := vs]> w).

(** The items of the list object [l]. *)
Definition items (l : nat) : M (list cell) := λ w,
  match heap w !! l with
  | Some vs => Done vs w
  | None => Raise TypeError w
  end.

Definition as_float (c : cell) : M Z :=
  match c with Float x => mret x | Ref _ => raise TypeError end.

Definition as_ref (c : cell) : M nat :=
  match c with Ref l => mret l | Float _ => raise TypeError end.

(** [vs[i]] *)
Definition getitem (vs : list cell) (i : Z) : M cell :=
  match Py.index (length vs) i with
  | Some k => match vs !! k with Some c => mret c | None => raise IndexError end
  | None => raise IndexError
  end.

(** Overwrites the items of the list object [l]. *)
Definition store (l : nat) (vs : list cell) : M unit := λ w,
  Done tt (set_heap <[l := vs]> w).

(** [l[i] = v], in place. *)
Definition setitem (l : nat) (i : Z) (v : cell) : M unit :=
  vs ← items l;
  match Py.index (length vs) i with
  | Some k => store l (<[k := v]> vs)
  | None => raise IndexError
  end.

(** [copy.copy(l)]: a new list with the same items (shallow). *)
Definition copy_copy (l : nat) : M nat := vs ← items l; new vs.

(** [[ f(row) for row in grad ]]: a new list of new rows. *)
Definition comprehension (f : list cell → M (list cell)) (grad : nat) : M nat :=
  rows ← items grad;
  rows' ← for_list (λ row, r ← as_ref row; vs ← items r;
                            vs' ← f vs; r' ← new vs'; mret (Ref r')) rows;
  new rows'.

(** The float rows reachable from a table object, as the script sees
    them when it iterates [for line in grad: ... for v in line]. *)
Definition read_row (h : gmap nat (list cell)) (c : cell) : option (list Z) :=
  match c with
  | Ref r =>
      match h !! r with
      | Some vs => mapM (λ v, match v with Float x => Some x | Ref _ => None end) vs
      | None => None
      end
  | Float _ => None
  end.

Definition read_table (h : gmap nat (list cell)) (l : nat) : option (list (list Z)) :=
  match h !! l with
  | Some rows => mapM (read_row h) rows
  | None => None
  end.

(** Builds the list-of-lists object for a float matrix. *)
Definition load (m : list (list Z)) : M nat :=
  rows ← for_list (λ r, l ← new (Float <$> r); mret (Ref l)) m;
  new rows.

(** ** The driver *)

(** The parsed command line, [app.args]. *)
Record args := Args {
  input : string;
  export_grad_mrtrix : option string;
  export_grad_fsl : option (string * string);
  grad : option string;
  fslgrad : option (string * string);
  mask : option string;
  number : Z;
}.

(** Everything outside the script: the interpreter, the external
    MRtrix3 commands, the user's files and the path helpers of the
    [mrtrix3] Python library.  The header size, the tables [grad_b] and
    [bvecs] and the mean lengths are what the script holds once it has
    split the text of the header field and of the files [grad.b] and
    [bvecs] and converted every field, and every output of [tckstats],
    with [int()] or [float()]: a run starts from texts that do convert.
    What the script makes of the text of a table, [ValueError] included,
    is the subject of [Reader] below. *)
Record env := Env {
  interpreter : Py.python;
  succeeds : string → bool;        (* exit status of an external command *)
  header_size : string → list Z;   (* the integers of the header field [size] *)
  readable : string → bool;        (* a user file that can be copied *)
  grad_b : list (list Z);
  bvecs : list (list Z);
  tckstats_mean : string → Py.float;
                                   (* [float()] of the output of a [tckstats] command *)
  fromUser : string → bool → string;
  toTemp : string → bool → string;
}.

(** Truth value of an optional string argument: [None] and the empty
    string are false. *)
Definition truthy (o : option string) : bool :=
  match o with
  | Some s => negb (String.eqb s "")
  | None => false
  end.

Definition given {A} (o : option A) : bool :=
  match o with Some _ => true | None => false end.

(** [min(l)] *)
Definition py_min (l : list Z) : option Z :=
  match l with
  | [] => None
  | x :: l' => Some (foldl Z.min x l')
  end.

(** ['_flip' + str(flip) + '_perm' + ''.join(str(item) for item in permutation) + '_' + basis] *)
Definition suffix (c : candidate) : string :=
  "_flip" +:+ Py.str (flip c) +:+ "_perm"
  +:+ (pretty (permutation c).1.1 +:+ pretty (permutation c).1.2 +:+ pretty (permutation c).2)
  +:+ "_" +:+ basis c.

Definition scanner_path (c : candidate) : string := "grad" +:+ suffix c +:+ ".b".
Definition image_path (c : candidate) : string := "bvecs" +:+ suffix c.

Definition tracks (c : candidate) : string := "tracks" +:+ suffix c +:+ ".tck".

Definition tckgen (grad_option number_option : string) (c : candidate) : string :=
  "tckgen -algorithm tensor_det data.mif" +:+ grad_option
  +:+ " -seed_image mask.mif -mask mask.mif" +:+ number_option
  +:+ " -minlength 0 -downsample 5 " +:+ tracks c.

Definition tckstats (c : candidate) : string :=
  "tckstats " +:+ tracks c +:+ " -output mean -ignorezero".

(** [' -select ' + str(app.args.number)] *)
Definition select (n : Z) : string := " -select " +:+ pretty n.

Section Driver.

Variable E : env.

(** Modelled from the spec: [app.error] of the [mrtrix3] library, which
    is not part of the sources at hand.  It reports the message and
    terminates the run; the error kind is the one the specification
    assigns to the call site. *)
Definition app_error (kind : string → error) (message : string) : M unit :=
  raise (kind message).

(** Modelled from the spec: [app.parse] after the two calls of
    [app.cmdline.flagMutuallyExclusiveOptions]; the option parser is
    not part of the sources at hand.  The run fails when both options
    of a flagged group are given. *)
Definition parse (a : args) : M unit :=
  if given (grad a) && given (fslgrad a)
  then raise (MutuallyExclusiveOptionError ["grad"; "fslgrad"])
  else if given (export_grad_mrtrix a) && given (export_grad_fsl a)
  then raise (MutuallyExclusiveOptionError ["export_grad_mrtrix"; "export_grad_fsl"])
  else mret tt.

(** Modelled from the spec: [run.command] of the [mrtrix3] library.
    The command is invoked; if it fails the run is aborted, otherwise
    the files it was asked to produce exist in the scratch directory. *)
Definition run_command (cmd : string) (outputs : list string) : M unit := λ w,
  let w' := set_invoked (λ l, l ++ [cmd]) w in
  if succeeds E cmd
  then Done tt (set_files (λ fs, foldr (λ f, <[f := External]>) fs outputs) w')
  else Raise (ExternalToolError cmd) w'.

(** Modelled from the spec: [image.headerField(path, 'size')], which
    queries the image header through [mrinfo], followed by
    [[ int(i) for i in ... .split() ]]. *)
Definition header_field_size (path : string) : M (list Z) := λ w,
  Done (header_size E path) (set_invoked (λ l, l ++ ["mrinfo " +:+ path +:+ " -size"]) w).

(** [app.makeTempDir()] *)
Definition makeTempDir : M unit := λ w, Done tt (set_scratch true w).

(** [shutil.copy(src, path.toTemp(dst, False))] *)
Definition shutil_copy (src dst : string) : M unit := λ w,
  if readable E src then Done tt (set_files <[dst := External]> w)
  else Raise (IOError src) w.

(** [if os.path.isfile(name): yes else: no], inside the scratch
    directory. *)
Definition if_isfile (name : string) (yes no : M unit) : M unit := λ w,
  if given (files w !! name) then yes w else no w.

(** [open(name, 'r')] followed by reading and converting the matrix:
    [content] is what the conversion of the text of the file gives. *)
Definition read_matrix (name : string) (content : list (list Z)) : M nat := λ w,
  match files w !! name with
  | Some _ => load content w
  | None => Raise (IOError name) w
  end.

(** [with open(path, 'w') as f: for line in grad: f.write(sep.join(...))] *)
Definition write_table (path sep : string) (grad : nat) : M unit := λ w,
  match read_table (heap w) grad with
  | Some rows => Done tt (set_files <[path := Table sep rows]> w)
  | None => Raise TypeError w
  end.

(** [[ r*m for r,m in zip(row, multiplier) ]] *)
Definition scale (multiplier : nat) (row : list cell) : M (list cell) :=
  ms ← items multiplier;
  for_list (λ rm, r ← as_float rm.1; m ← as_float rm.2; mret (Float (r * m)))
           (zip row ms).

(** [[ row[permutation[0]], row[permutation[1]], row[permutation[2]], row[3] ]] *)
Definition pick (p : Py.tuple) (row : list cell) : M (list cell) :=
  a ← getitem row p.1.1; b ← getitem row p.1.2; c ← getitem row p.2;
  d ← getitem row 3; mret [a; b; c; d].

(** The table built in the branch [basis == 'scanner']. *)
Definition scanner_table (c : candidate) (grad_mrtrix : nat) : M nat :=
  grad ← copy_copy grad_mrtrix;
  grad ← match flip c with
          | Py.Int f =>
              multiplier ← new [Float 1; Float 1; Float 1; Float 1];
              setitem multiplier f (Float (-1));;
              comprehension (scale multiplier) grad
          | Py.Str _ => mret grad
          end;
  comprehension (pick (permutation c)) grad.

(** The table built in the branch [basis == 'image']. *)
Definition image_table (c : candidate) (grad_fsl : nat) : M nat :=
  grad ← copy_copy grad_fsl;
  match flip c with
  | Py.Int f =>
      rows ← items grad; row ← getitem rows f; r ← as_ref row; vs ← items r;
      vs' ← for_list (λ v, x ← as_float v; mret (Float (- x))) vs;
      r' ← new vs';
      setitem grad f (Ref r')
  | Py.Str _ => mret tt
  end;;
  rows ← items grad;
  a ← getitem rows (permutation c).1.1;
  b ← getitem rows (permutation c).1.2;
  c ← getitem rows (permutation c).2;
  new [a; b; c].

(** [lengths.append(r)] *)
Definition append_lengths (r : result) : M unit := λ w,
  Done tt (set_lengths (λ l, l ++ [r]) w).

(** One iteration of the innermost loop.  The loop only ever binds
    [basis] to ['scanner'] or ['image']; for any other value no branch
    would define [grad_option]. *)
Definition evaluate (number_option : string) (grad_mrtrix grad_fsl : nat)
    (c : candidate) : M unit :=
  grad_option ←
    (if String.eqb (basis c) "scanner" then
       grad ← scanner_table c grad_mrtrix;
       write_table (scanner_path c) "," grad;;
       mret (" -grad " +:+ scanner_path c)
     else if String.eqb (basis c) "image" then
       grad ← image_table c grad_fsl;
       write_table (image_path c) " " grad;;
       mret (" -fslgrad " +:+ image_path c +:+ " bvals")
     else raise NameError);
  run_command (tckgen grad_option number_option c) [tracks c];;
  run_command (tckstats c) [];;
  let meanlength := tckstats_mean E (tckstats c) in
  append_lengths (Result meanlength c).

(** The three nested loops. *)
Definition search (number_option : string) (grad_mrtrix grad_fsl : nat) : M unit :=
  for_each (λ flip,
    for_each (λ permutation,
      for_each (λ basis,
        evaluate number_option grad_mrtrix grad_fsl (Candidate flip permutation basis))
      grad_basis)
    axis_permutations)
  axis_flips.

(** [lengths.sort(); lengths.reverse()], then the printout. *)
Definition report : M unit := λ w,
  match rank (interpreter E) (lengths w) with
  | Some ranked => Done tt (set_printed (λ _, ranked) (set_lengths (λ _, ranked) w))
  | None => Raise TypeError w
  end.

(** [lengths[0]] *)
Definition best_length : M result := λ w,
  match lengths w with
  | [] => Raise IndexError w
  | best :: _ => Done best w
  end.

(** The optional export of the best table. *)
Definition export (a : args) : M unit :=
  let grad_export_option :=
    if truthy (export_grad_mrtrix a)
    then " -export_grad_mrtrix " +:+ fromUser E (default "" (export_grad_mrtrix a)) true
    else match export_grad_fsl a with
         | Some (bvecs, bvals) =>
             " -export_grad_fsl " +:+ fromUser E bvecs true +:+ " " +:+ fromUser E bvals true
         | None => ""
         end in
  if String.eqb grad_export_option "" then mret tt
  else
    best ← best_length;
    let c := descriptor best in
    if String.eqb (basis c) "scanner"
    then run_command ("mrinfo data.mif" +:+ (" -grad " +:+ scanner_path c)
                      +:+ grad_export_option) []
    else if String.eqb (basis c) "image"
    then run_command ("mrinfo data.mif" +:+ (" -fslgrad " +:+ image_path c +:+ " bvals")
                      +:+ grad_export_option) []
    else raise NameError.

(** Lines 32 to 85: option parsing, the image check, the scratch
    directory and both gradient-table representations, loaded into
    memory as [grad_mrtrix] and [grad_fsl]. *)
Definition prepare (a : args) : M (Z * (nat * nat)) :=
  parse a;;
  image_dimensions ← header_field_size (input a);
  when (negb (length image_dimensions =? 4)%nat)
       (app_error InvalidInputError "Input image must be a 4D image");;
  when (bool_decide (py_min image_dimensions = Some 1))
       (app_error InvalidInputError
          "Cannot perform tractography on an image with a unity spatial dimension");;
  let num_volumes := default 0 (image_dimensions !! 3%nat) in
  makeTempDir;;
  run_command ("mrconvert " +:+ input a +:+ " " +:+ toTemp E "data.mif" true
               +:+ " -stride 0,0,0,1 -datatype float32") ["data.mif"];;
  (if truthy (grad a)
   then shutil_copy (fromUser E (default "" (grad a)) false) "grad.b"
   else match fslgrad a with
        | Some (vecs, vals) =>
            shutil_copy (fromUser E vecs false) "bvecs";;
            shutil_copy (fromUser E vals false) "bvals"
        | None => mret tt
        end);;
  when (truthy (mask a))
       (run_command ("mrconvert " +:+ fromUser E (default "" (mask a)) true +:+ " "
                     +:+ toTemp E "mask.mif" true +:+ " -datatype bit") ["mask.mif"]);;
  if_isfile "grad.b" (mret tt)
    (if_isfile "bvecs"
       (run_command "mrinfo data.mif -fslgrad bvecs bvals -export_grad_mrtrix grad.b" ["grad.b"])
       (run_command "mrinfo data.mif -export_grad_mrtrix grad.b" ["grad.b"]));;
  if_isfile "bvecs" (mret tt)
    (if_isfile "grad.b"
       (run_command "mrinfo data.mif -grad grad.b -export_grad_fsl bvecs bvals" ["bvecs"; "bvals"])
       (run_command "mrinfo data.mif -export_grad_fsl bvecs bvals" ["bvecs"; "bvals"]));;
  grad_mrtrix ← read_matrix "grad.b" (grad_b E);
  grad_fsl ← read_matrix "bvecs" (bvecs E);
  mret (num_volumes, (grad_mrtrix, grad_fsl)).

(** Lines 86 to 90: is the gradient table of the correct length? *)
Definition check_tables (num_volumes : Z) (grad_mrtrix grad_fsl : nat) : M unit :=
  rows ← items grad_mrtrix;
  when (negb (bool_decide (Z.of_nat (length rows) = num_volumes)))
       (app_error GradientTableMismatchError
          "Number of entries in gradient table does not match number of DWI volumes");;
  rows ← items grad_fsl;
  first_len ← (if negb (length rows =? 3)%nat then mret None
               else row ← getitem rows 0; r ← as_ref row; vs ← items r;
                    mret (Some (length vs)));
  when (match first_len with
        | None => true
        | Some n => negb (bool_decide (Z.of_nat n = num_volumes))
        end)
       (app_error GradientTableMismatchError
          "Internal error (inconsistent gradient table storage)").

(** The script, top to bottom. *)
Definition main (a : args) : M unit :=
  loaded ← prepare a;
  check_tables loaded.1 loaded.2.1 loaded.2.2;;
  if_isfile "mask.mif" (mret tt) (run_command "dwi2mask data.mif mask.mif" ["mask.mif"]);;
  search (select (number a)) loaded.2.1 loaded.2.2;;
  report;;
  export a.

End Driver.

(** ** The transformation of a candidate, in the specification's words *)

(** Negate one column of a row of the combined table. *)
Definition negate_column (axis : nat) (row : list Z) : list Z :=
  alter Z.opp axis row.

(** Reorder the three direction columns, keep the b-value column last. *)
Definition permute_columns (p : Py.tuple) (row : list Z) : list Z :=
  ((λ i : Z, default 0 (take 3 row !! Z.to_nat i)) <$> [p.1.1; p.1.2; p.2]) ++ drop 3 row.

(** Negate one row of the split table. *)
Definition negate_row (axis : nat) (rows : list (list Z)) : list (list Z) :=
  alter (fmap Z.opp) axis rows.

(** Reorder the three rows of the split table. *)
Definition permute_rows (p : Py.tuple) (rows : list (list Z)) : list (list Z) :=
  (λ i : Z, default [] (rows !! Z.to_nat i)) <$> [p.1.1; p.1.2; p.2].

Definition transformed_scanner (c : candidate) (table : list (list Z)) : list (list Z) :=
  (λ row, permute_columns (permutation c)
            (match flip c with
             | Py.Int axis => negate_column (Z.to_nat axis) row
             | Py.Str _ => row
             end)) <$> table.

Definition transformed_image (c : candidate) (rows : list (list Z)) : list (list Z) :=
  permute_rows (permutation c)
    (match flip c with
     | Py.Int axis => negate_row (Z.to_nat axis) rows
     | Py.Str _ => rows
     end).

(** ** What one iteration and the whole loop leave behind *)

(** The gradient file of a candidate and the option that names it. *)
Definition grad_path (c : candidate) : string :=
  if String.eqb (basis c) "scanner" then scanner_path c else image_path c.

Definition grad_option (c : candidate) : string :=
  if String.eqb (basis c) "scanner" then " -grad " +:+ scanner_path c
  else " -fslgrad " +:+ image_path c +:+ " bvals".

(** The table of a candidate, as the specification describes it, from
    the combined table [T] and the split rows [F]. *)
Definition transformed (T F : list (list Z)) (c : candidate) : artifact :=
  if String.eqb (basis c) "scanner" then Table "," (transformed_scanner c T)
  else Table " " (transformed_image c F).

Definition commands (number_option : string) (cs : list candidate) : list string :=
  c ← cs; [tckgen (grad_option c) number_option c; tckstats c].

Definition results (E : env) (cs : list candidate) : list result :=
  (λ c, Result (tckstats_mean E (tckstats c)) c) <$> cs.

Definition artifacts (T F : list (list Z)) (cs : list candidate)
    : list (string * artifact) :=
  c ← cs; [(grad_path c, transformed T F c); (tracks c, External)].

Definition write_all (l : list (string * artifact)) (fs : gmap string artifact)
    : gmap string artifact :=
  foldl (λ fs kv, <[kv.1 := kv.2]> fs) fs l.

(** ** Frame condition

    [keeps h0 m Q]: run from any heap that extends [h0], the computation
    [m] ends, normally or not, in a heap that still extends [h0]: no
    object of [h0] has been updated.  [Q] holds of a normal result. *)
Definition keeps (h0 : gmap nat (list cell)) {A} (m : M A) (Q : A → Prop) : Prop :=
  ∀ w, h0 ⊆ heap w →
    match m w with
    | Done a w' => h0 ⊆ heap w' ∧ Q a
    | Raise _ w' => h0 ⊆ heap w'
    end.

(** ** Assertions about a run *)

(** [runs m w Q]: from [w] the computation ends normally, in a result
    and world that satisfy [Q]. *)
Definition runs {A} (m : M A) (w : world) (Q : A → world → Prop) : Prop :=
  ∃ a w', m w = Done a w' ∧ Q a w'.

(** A command of the tractography evaluator. *)
Definition is_tckgen (cmd : string) : bool := String.prefix "tckgen" cmd.

(** [quiet w w']: between [w] and [w'] no candidate has been evaluated:
    [lengths] and the printout are untouched, no file has disappeared
    and no tractography command has been invoked. *)
Definition quiet (w w' : world) : Prop :=
  lengths w' = lengths w ∧ printed w' = printed w ∧
  (∀ name, is_Some (files w !! name) → is_Some (files w' !! name)) ∧
  ∃ cmds, invoked w' = invoked w ++ cmds ∧ Forall (λ cmd, is_tckgen cmd = false) cmds.

(** ** Conditions on a run *)

(** What the check of lines 86 to 90 reports for the loaded tables: the
    message of the error raised, if any. *)
Definition table_error (num_volumes : Z) (T F : list (list Z)) : option string :=
  if negb (bool_decide (Z.of_nat (length T) = num_volumes))
  then Some "Number of entries in gradient table does not match number of DWI volumes"
  else if negb (length F =? 3)%nat
  then Some "Internal error (inconsistent gradient table storage)"
  else match F !! 0%nat with
       | Some row =>
           if negb (bool_decide (Z.of_nat (length row) = num_volumes))
           then Some "Internal error (inconsistent gradient table storage)"
           else None
       | None => Some "Internal error (inconsistent gradient table storage)"
       end.

(** The split representation as the specification describes it: three
    rows of one value per volume. *)
Definition split_shape (num_volumes : Z) (F : list (list Z)) : Prop :=
  length F = 3%nat ∧ Forall (λ row, Z.of_nat (length row) = num_volumes) F.

(** The rows of a table all have the same number of values: the table
    has a number of columns.  The split table is one that [mrinfo] has
    written, or has read as the [-fslgrad] of a further command. *)
Definition rectangular (F : list (list Z)) : Prop :=
  ∃ columns, Forall (λ row, length row = columns) F.

(** Every external command succeeds and every user file can be read. *)
Definition cooperative (E : env) : Prop :=
  (∀ cmd, succeeds E cmd = true) ∧ (∀ path, readable E path = true).

(** No two options of a flagged group are given together. *)
Definition compatible (a : args) : Prop :=
  given (grad a) && given (fslgrad a) = false ∧
  given (export_grad_mrtrix a) && given (export_grad_fsl a) = false.

(** The image is 4-D with no dimension equal to one, and the fourth
    dimension is [num_volumes]. *)
Definition image_ok (E : env) (a : args) (num_volumes : Z) : Prop :=
  ∃ x y z, header_size E (input a) = [x; y; z; num_volumes] ∧
           py_min [x; y; z; num_volumes] ≠ Some 1.

#[global] Instance value_eq_dec : EqDecision Py.value.
Proof. solve_decision. Defined.

#[global] Instance float_eq_dec : EqDecision Py.float.
Proof. solve_decision. Defined.

#[global] Instance candidate_eq_dec : EqDecision candidate.
Proof. solve_decision. Defined.

#[global] Instance result_eq_dec : EqDecision result.
Proof. solve_decision. Defined.

(** ** The ranking the specification asks for *)

(** Index of the first occurrence of an entry. *)
Definition position (r : result) (l : list result) : option nat :=
  fst <$> list_find (λ x, x = r) l.

(** [a] occurs in [l], and before [b]. *)
Definition precedes (a b : result) (l : list result) : bool :=
  match position a l, position b l with
  | Some i, Some j => bool_decide (i < j)%nat
  | _, _ => false
  end.

(** Ties in mean length are listed in generation order. *)
Definition generation_order_on_ties (generated ranked : list result) : Prop :=
  ∀ a b, Py.float_eqb (meanlength a) (meanlength b) = true →
         precedes a b generated = true → precedes a b ranked = true.

(** Two entries that tie in mean length while one has the flip ['none']
    and the other a numbered axis. *)
Definition mixed_tie (a b : result) : Prop :=
  Py.float_eqb (meanlength a) (meanlength b) = true ∧
  Py.is_number (flip (descriptor a)) ≠ Py.is_number (flip (descriptor b)).

(** No mean length of the list is NaN. *)
Definition no_nan (l : list result) : Prop :=
  Forall (λ r, meanlength r ≠ Py.NaN) l.

(** ** Sample runs *)

Definition with_number (n : Z) (a : args) : args :=
  Args (input a) (export_grad_mrtrix a) (export_grad_fsl a) (grad a) (fslgrad a)
       (mask a) n.

(** Outputs of [tckstats] that are all numbers. *)
Definition measured (mean : string → Z) (cmd : string) : Py.float :=
  Py.Num (mean cmd).

(** Two volumes, every tool succeeds; the mean lengths are given by
    [mean]. *)
Definition sample_env (py : Py.python) (mean : string → Z) : env :=
  Env py (λ _, true) (λ _, [4; 4; 4; 2]) (λ _, true)
      [[1; 0; 0; 1000]; [0; 1; 0; 1000]] [[1; 0]; [0; 1]; [0; 0]]
      (measured mean) (λ path _, path) (λ name _, "/tmp/" +:+ name).

Definition sample_args : args := Args "dwi.mif" None None None None None 10000.

(** Mean length 1 for the twelve candidates without a flip, 2 for the
    others. *)
Definition tied_means (cmd : string) : Z :=
  if String.prefix "tckstats tracks_flipnone" cmd then 1 else 2.

(** Every candidate gets a different mean length. *)
Definition distinct_means (cmd : string) : Z :=
  match list_find (λ c, tckstats c = cmd) candidates with
  | Some (i, _) => Z.of_nat i
  | None => 0
  end.

(** A split table of three values per row for an image of two volumes. *)
Definition long_rows_env : env :=
  Env Py.Py2 (λ _, true) (λ _, [4; 4; 4; 2]) (λ _, true)
      [[1; 0; 0; 1000]; [0; 1; 0; 1000]] [[1; 0; 0]; [0; 1; 0]; [0; 0; 1]]
      (measured distinct_means) (λ path _, path) (λ name _, "/tmp/" +:+ name).

(** An image with a single slice along the first axis. *)
Definition flat_env : env :=
  Env Py.Py2 (λ _, true) (λ _, [1; 64; 64; 30]) (λ _, true)
      [] [] (measured (λ _, 0)) (λ path _, path) (λ name _, "/tmp/" +:+ name).

(** A world in which the two sample tables have just been loaded. *)
Definition sample_loaded : outcome (nat * nat) :=
  (grad_mrtrix ← load [[1; 0; 0; 1000]; [0; 1; 0; 1000]];
   grad_fsl ← load [[1; 0]; [0; 1]; [0; 0]];
   mret (grad_mrtrix, grad_fsl)) initial.

Definition both_exports : args :=
  Args "dwi.mif" (Some "out.b") (Some ("bvecs.out", "bvals.out")) None None None 10000.

(** [==] on the descriptor part of two entries. *)
Definition descriptor_eqb :=
  Py.pair_eqb Py.value_eqb (Py.pair_eqb Py.tuple_eqb String.eqb).

(** ** The external commands of a run *)

(** [grad_export_option], lines 192 to 196. *)
Definition export_option (E : env) (a : args) : string :=
  if truthy (export_grad_mrtrix a)
  then " -export_grad_mrtrix " +:+ fromUser E (default "" (export_grad_mrtrix a)) true
  else match export_grad_fsl a with
       | Some (bvecs, bvals) =>
           " -export_grad_fsl " +:+ fromUser E bvecs true +:+ " " +:+ fromUser E bvals true
       | None => ""
       end.

(** The command of lines 197 to 204, if any, for a best entry. *)
Definition export_commands (E : env) (a : args) (best : result) : list string :=
  if String.eqb (export_option E a) "" then []
  else ["mrinfo data.mif" +:+ grad_option (descriptor best) +:+ export_option E a].

(** The conversions of lines 60 to 71 that bring about whichever of
    [grad.b] and [bvecs] the user has not supplied. *)
Definition conversions (a : args) : list string :=
  if truthy (grad a)
  then ["mrinfo data.mif -grad grad.b -export_grad_fsl bvecs bvals"]
  else if given (fslgrad a)
  then ["mrinfo data.mif -fslgrad bvecs bvals -export_grad_mrtrix grad.b"]
  else ["mrinfo data.mif -export_grad_mrtrix grad.b";
        "mrinfo data.mif -grad grad.b -export_grad_fsl bvecs bvals"].

(** The commands of lines 36 to 71. *)
Definition prepare_commands (E : env) (a : args) : list string :=
  ["mrinfo " +:+ input a +:+ " -size";
   "mrconvert " +:+ input a +:+ " " +:+ toTemp E "data.mif" true
   +:+ " -stride 0,0,0,1 -datatype float32"]
  ++ (if truthy (mask a)
      then ["mrconvert " +:+ fromUser E (default "" (mask a)) true +:+ " "
            +:+ toTemp E "mask.mif" true +:+ " -datatype bit"]
      else [])
  ++ conversions a.

(** The commands that precede the search loop. *)
Definition setup_commands (E : env) (a : args) : list string :=
  prepare_commands E a
  ++ (if truthy (mask a) then [] else ["dwi2mask data.mif mask.mif"]).

(** ** Every way a run can end *)

(** [wp m w Q X]: run from [w], the computation [m] ends normally, in a
    value and world that satisfy [Q], or with an error, in a world that
    satisfies [X]. *)
Definition wp {A} (m : M A) (w : world) (Q : A → world → Prop)
    (X : error → world → Prop) : Prop :=
  match m w with Done a w' => Q a w' | Raise e w' => X e w' end.

(** The query of the image header, line 36. *)
Definition header_query (a : args) : string := "mrinfo " +:+ input a +:+ " -size".

(** [image_dimensions[3]] *)
Definition volumes (E : env) (a : args) : Z :=
  default 0 (header_size E (input a) !! 3%nat).

(** Every row of the combined table has at least four values. *)
Definition wide (T : list (list Z)) : bool :=
  forallb (λ row, 4 <=? length row)%nat T.

(** The first four values of every row. *)
Definition columns4 (T : list (list Z)) : list (list Z) := take 4 <$> T.

(** The external commands that ran to completion: all but the header
    query, which does not go through [run.command]. *)
Definition all_succeeded (E : env) (cmds : list string) : Prop :=
  Forall (λ cmd, succeeds E cmd = true) (tail cmds).

(** Every external command of a run that meets no obstacle, in order. *)
Definition script_commands (E : env) (a : args) : list string :=
  setup_commands E a ++ commands (select (number a)) candidates
  ++ match rank (interpreter E) (results E candidates) with
     | Some (best :: _) => export_commands E a best
     | _ => []
     end.

(** The checks of the script in the order in which it makes them, and
    the error of the first that fails; [None] when all pass.  The
    outcome of external commands and of file copies is left aside. *)
Definition verdict (E : env) (a : args) : option error :=
  if given (grad a) && given (fslgrad a)
  then Some (MutuallyExclusiveOptionError ["grad"; "fslgrad"])
  else if given (export_grad_mrtrix a) && given (export_grad_fsl a)
  then Some (MutuallyExclusiveOptionError ["export_grad_mrtrix"; "export_grad_fsl"])
  else if negb (length (header_size E (input a)) =? 4)%nat
  then Some (InvalidInputError "Input image must be a 4D image")
  else if bool_decide (py_min (header_size E (input a)) = Some 1)
  then Some (InvalidInputError
               "Cannot perform tractography on an image with a unity spatial dimension")
  else match table_error (volumes E a) (grad_b E) (bvecs E) with
       | Some message => Some (GradientTableMismatchError message)
       | None =>
           if negb (wide (grad_b E)) then Some IndexError
           else match rank (interpreter E) (results E candidates) with
                | Some _ => None
                | None => Some TypeError
                end
       end.

(** The commands that have run when a check fails. *)
Definition reached (E : env) (a : args) (e : error) : list string :=
  match e with
  | MutuallyExclusiveOptionError _ => []
  | InvalidInputError _ => [header_query a]
  | GradientTableMismatchError _ => prepare_commands E a
  | IndexError => setup_commands E a
  | _ => setup_commands E a ++ commands (select (number a)) candidates
  end.

(** What an error tells about the input, and how far the script got. *)
Definition explains (E : env) (a : args) (e : error) (w : world) : Prop :=
  match e with
  | ExternalToolError cmd =>
      succeeds E cmd = false ∧
      invoked w `prefix_of` script_commands E a ∧
      ∃ before, invoked w = before ++ [cmd] ∧ all_succeeded E before
  | IOError path =>
      readable E path = false ∧ invoked w = take 2 (prepare_commands E a)
  | NameError => False
  | _ => verdict E a = Some e ∧ invoked w = reached E a e
  end.

(** A run that ends with an error: the printout is empty or complete,
    the error is explained, and unless a command has failed, all have
    succeeded and nothing is printed. *)
Definition failed (E : env) (a : args) (e : error) (w : world) : Prop :=
  (printed w = [] ∨ rank (interpreter E) (results E candidates) = Some (printed w)) ∧
  explains E a e w ∧
  match e with
  | ExternalToolError _ => True
  | _ => all_succeeded E (invoked w) ∧ printed w = []
  end.

(** A run that ends normally. *)
Definition completed (E : env) (a : args) (w : world) : Prop :=
  ∃ best rest,
    rank (interpreter E) (results E candidates) = Some (best :: rest) ∧
    printed w = best :: rest ∧
    invoked w = setup_commands E a ++ commands (select (number a)) candidates
                ++ export_commands E a best ∧
    all_succeeded E (invoked w) ∧
    verdict E a = None ∧
    ∀ c, c ∈ candidates →
      files w !! grad_path c = Some (transformed (columns4 (grad_b E)) (bvecs E) c).

(** ** Further sample runs *)

(** A split table and a mask are supplied, and the best table is to be
    exported in MRtrix format. *)
Definition full_args : args :=
  Args "dwi.mif" (Some "best.b") None None (Some ("bvecs", "bvals")) (Some "mask.mif") 500.

Definition table_env (succeeds : string → bool) (T : list (list Z)) : env :=
  Env Py.Py2 succeeds (λ _, [4; 4; 4; 2]) (λ _, true)
      T [[1; 0]; [0; 1]; [0; 0]]
      (measured distinct_means) (λ path _, path) (λ name _, "/tmp/" +:+ name).

(** The brain mask cannot be computed. *)
Definition no_mask_env : env :=
  table_env (λ cmd, negb (String.eqb cmd "dwi2mask data.mif mask.mif"))
            [[1; 0; 0; 1000]; [0; 1; 0; 1000]].


(** Rows of five values in the combined table. *)
Definition wide_env : env :=
  table_env (λ _, true) [[1; 0; 0; 1000; 7]; [0; 1; 0; 1000; 8]].

(** ** Reading and writing the table files

    Lines 74 to 85 read [grad.b] and [bvecs] into float matrices; lines
    142 to 146 and 158 to 161 write a candidate's table.  Texts are
    lists of characters; [float] and [str] are the conversions of the
    interpreter, [float] giving [None] where Python raises
    [ValueError]. *)
Module Reader.

Inductive failure := ValueError | IndexError.

(** Splitting at every separator character: one more piece than there
    are separators, empty pieces included. *)
Fixpoint split_when (sep : Ascii.ascii → bool) (s : list Ascii.ascii) : list (list Ascii.ascii) :=
  match s with
  | [] => [[]]
  | c :: s' =>
      if sep c then [] :: split_when sep s'
      else match split_when sep s' with
           | w :: ws => (c :: w) :: ws
           | [] => [[c]]
           end
  end.

Definition newline : Ascii.ascii := Ascii.ascii_of_nat 10.
Definition space : Ascii.ascii := Ascii.ascii_of_nat 32.
Definition comma : Ascii.ascii := Ascii.ascii_of_nat 44.

(** [s.split(c)] for a separator of one character. *)
Definition split_on (c : Ascii.ascii) (s : list Ascii.ascii) : list (list Ascii.ascii) :=
  split_when (Ascii.eqb c) s.

(** The characters [s.split()] takes for whitespace: tab to carriage
    return and the space, and for a Python 3 string also the
    separators 28 to 31, next line and the no-break space. *)
Definition is_space (py : Py.python) (c : Ascii.ascii) : bool :=
  let n := Ascii.nat_of_ascii c in
  ((9 <=? n) && (n <=? 13) || (n =? 32))%nat
  || match py with
     | Py.Py2 => false
     | Py.Py3 => ((28 <=? n) && (n <=? 31) || (n =? 133) || (n =? 160))%nat
     end.

(** [s.split()]: the pieces between runs of whitespace, none empty. *)
Definition split (py : Py.python) (s : list Ascii.ascii) : list (list Ascii.ascii) :=
  filter (λ w, w ≠ []) (split_when (is_space py) s).

(** [x = f.read().split('\n')], then [if len(x[-1]) <= 1: x.pop()]. *)
Definition read_lines (s : list Ascii.ascii) : failure + list (list Ascii.ascii) :=
  let x := split_on newline s in
  match last x with
  | Some l => inr (if (length l <=? 1)%nat then removelast x else x)
  | None => inl IndexError
  end.

(** [[ float(f) for f in fields ]] *)
Fixpoint floats (float : list Ascii.ascii → option Z) (fields : list (list Ascii.ascii))
    : failure + list Z :=
  match fields with
  | [] => inr []
  | f :: fs =>
      match float f with
      | None => inl ValueError
      | Some x =>
          match floats float fs with
          | inl e => inl e
          | inr xs => inr (x :: xs)
          end
      end
  end.

(** [[ [ float(f) for f in fields(line) ] for line in lines ]] *)
Fixpoint matrix (float : list Ascii.ascii → option Z)
    (fields : list Ascii.ascii → list (list Ascii.ascii)) (lines : list (list Ascii.ascii))
    : failure + list (list Z) :=
  match lines with
  | [] => inr []
  | l :: ls =>
      match floats float (fields l) with
      | inl e => inl e
      | inr row =>
          match matrix float fields ls with
          | inl e => inl e
          | inr rows => inr (row :: rows)
          end
      end
  end.

(** Lines 74 to 85: the two matrices, from the texts of [grad.b] and
    [bvecs]. *)
Definition read_tables (py : Py.python) (float : list Ascii.ascii → option Z)
    (grad_b bvecs : list Ascii.ascii) : failure + (list (list Z) * list (list Z)) :=
  match read_lines grad_b with
  | inl e => inl e
  | inr grad_mrtrix =>
      match read_lines bvecs with
      | inl e => inl e
      | inr grad_fsl =>
          match matrix float (split_on space) grad_mrtrix with
          | inl e => inl e
          | inr T =>
              match matrix float (split py) grad_fsl with
              | inl e => inl e
              | inr F => inr (T, F)
              end
          end
      end
  end.

(** [sep.join(pieces)] *)
Fixpoint join (sep : list Ascii.ascii) (pieces : list (list Ascii.ascii)) : list Ascii.ascii :=
  match pieces with
  | [] => []
  | [p] => p
  | p :: ps => p ++ sep ++ join sep ps
  end.

(** [for line in grad: f.write(sep.join([str(v) for v in line]) + '\n')] *)
Definition write_lines (str : Z → list Ascii.ascii) (sep : list Ascii.ascii) (rows : list (list Z))
    : list Ascii.ascii :=
  row ← rows; join sep (str <$> row) ++ [newline].

(** Sample conversions: a few integers in decimal notation. *)
Definition sample_str (v : Z) : list Ascii.ascii :=
  String.list_ascii_of_string (pretty v).

Definition sample_float (s : list Ascii.ascii) : option Z :=
  snd <$> list_find (λ v, sample_str v = s) [0; 1; -1; 1000].

End Reader.

(** * Properties *)

(** ** Running a computation *)

Lemma bind_unfold {A B} (m : M A) (k : A → M B) w :
  (m ≫= k) w = match m w with Done a w' => k a w' | Raise e w' => Raise e w' end.
Proof. reflexivity. Qed.

(** Stepping through a computation: unfold the first bind, then reduce
    the steps that neither read nor write the world. *)
Ltac msimpl := cbn [as_ref as_float mret M_ret raise when app_error].
Ltac mstep := rewrite bind_unfold; msimpl.

Lemma bind_done {A B} (m : M A) (k : A → M B) w a w' :
  m w = Done a w' → (m ≫= k) w = k a w'.
Proof. intros H. unfold mbind, M_bind. by rewrite H. Qed.

Lemma bind_raise {A B} (m : M A) (k : A → M B) w e w' :
  m w = Raise e w' → (m ≫= k) w = Raise e w'.
Proof. intros H. unfold mbind, M_bind. by rewrite H. Qed.

Lemma for_each_app {A} (body : A → M unit) (l1 l2 : list A) w :
  for_each body (l1 ++ l2) w = (for_each body l1;; for_each body l2) w.
Proof.
  revert w. induction l1 as [|x l1 IH]; intros w; simpl.
  - reflexivity.
  - unfold mbind, M_bind. destruct (body x w) as [[] w'|e w']; [|done].
    rewrite IH. reflexivity.
Qed.

Lemma for_each_ext {A} (f g : A → M unit) (l : list A) w :
  (∀ x w', f x w' = g x w') → for_each f l w = for_each g l w.
Proof.
  intros Hfg. revert w. induction l as [|x l IH]; intros w; simpl; [done|].
  unfold mbind, M_bind. rewrite Hfg. destruct (g x w); [apply IH|done].
Qed.

(** ** The candidate enumeration *)

(** Nested loops run the iterations of the flattened list, in order. *)
Lemma for_each_nested {A B} (inner : A → list B) (body : B → M unit) (l : list A) w :
  for_each (λ x, for_each body (inner x)) l w = for_each body (l ≫= inner) w.
Proof.
  revert w. induction l as [|x l IH]; intros w; simpl; [done|].
  rewrite for_each_app.
  destruct (for_each body (inner x) w) as [[] w'|e w'] eqn:Hx.
  - rewrite !(bind_done _ _ _ _ _ Hx). apply IH.
  - by rewrite !(bind_raise _ _ _ _ _ Hx).
Qed.

Lemma search_candidates E number_option grad_mrtrix grad_fsl w :
  search E number_option grad_mrtrix grad_fsl w
  = for_each (evaluate E number_option grad_mrtrix grad_fsl) candidates w.
Proof.
  unfold search, candidates.
  rewrite <- (for_each_nested
    (λ f, p ← axis_permutations; b ← grad_basis; [Candidate f p b])).
  apply for_each_ext; intros f w1.
  rewrite <- (for_each_nested (λ p, b ← grad_basis; [Candidate f p b])).
  apply for_each_ext; intros p w2.
  rewrite <- (for_each_nested (λ b, [Candidate f p b])).
  apply for_each_ext; intros b w3. simpl.
  unfold mbind, M_bind. by destruct (evaluate _ _ _ _ _ w3) as [[]|].
Qed.

Lemma candidates_length : length candidates = 48%nat.
Proof. reflexivity. Qed.

Lemma candidates_NoDup : NoDup candidates.
Proof. apply (bool_decide_unpack _). vm_compute. exact I. Qed.

(** The six tuples of [axis_permutations] are the arrangements of 0, 1, 2. *)
Lemma axis_permutations_spec (a b c : Z) :
  (a, b, c) ∈ axis_permutations ↔ [a; b; c] ≡ₚ [0; 1; 2].
Proof.
  split.
  - intros H. unfold axis_permutations in H.
    repeat (apply elem_of_cons in H as [H|H]; [inversion H; subst; clear H|]);
      [..|by apply elem_of_nil in H].
    + reflexivity.
    + apply perm_skip, perm_swap.
    + apply perm_swap.
    + change ([1; 2; 0] ≡ₚ [0] ++ 1 :: [2]). apply Permutation_cons_app, perm_swap.
    + change ([2; 0; 1] ≡ₚ [0; 1] ++ 2 :: []). by apply Permutation_cons_app.
    + rewrite <- (reverse_Permutation [0; 1; 2]). reflexivity.
  - intros H.
    assert (Ha : a ∈ [a; b; c]) by (rewrite !elem_of_cons; auto).
    assert (Hb : b ∈ [a; b; c]) by (rewrite !elem_of_cons; auto).
    assert (Hc : c ∈ [a; b; c]) by (rewrite !elem_of_cons; auto).
    assert (Hnd : NoDup [0; 1; 2]) by (by apply (bool_decide_unpack _)).
    rewrite H in Ha, Hb, Hc. rewrite <- H in Hnd.
    apply NoDup_cons in Hnd as [Hab Hnd]. apply NoDup_cons in Hnd as [Hbc _].
    assert (Hcase : ∀ x : Z, x ∈ [0; 1; 2] → x = 0 ∨ x = 1 ∨ x = 2).
    { intros x Hx. rewrite !elem_of_cons, elem_of_nil in Hx. tauto. }
    unfold axis_permutations.
    apply Hcase in Ha, Hb, Hc. clear Hcase H.
    rewrite !elem_of_cons in Hab, Hbc. rewrite !elem_of_cons.
    destruct Ha as [?|[?|?]]; destruct Hb as [?|[?|?]]; destruct Hc as [?|[?|?]];
      subst;
      first [by exfalso; apply Hab; rewrite ?elem_of_cons; auto
            |by exfalso; apply Hbc; rewrite ?elem_of_cons; auto
            |auto 10].
Qed.

Lemma candidates_elem_of (c : candidate) :
  c ∈ candidates ↔
  flip c ∈ axis_flips ∧ permutation c ∈ axis_permutations ∧ basis c ∈ grad_basis.
Proof.
  unfold candidates. destruct c as [f p b]; cbn [flip permutation basis]. split.
  - intros H. apply list_elem_of_bind in H as (f' & H & Hf).
    apply list_elem_of_bind in H as (p' & H & Hp).
    apply list_elem_of_bind in H as (b' & H & Hb).
    apply list_elem_of_singleton in H. by simplify_eq.
  - intros (Hf & Hp & Hb).
    apply list_elem_of_bind; exists f; split; [|done].
    apply list_elem_of_bind; exists p; split; [|done].
    apply list_elem_of_bind; exists b; split; [|done].
    by apply list_elem_of_singleton.
Qed.

(** ** Ordering of Python values *)

Section lex.
Context {A B : Type} (eqA : A → A → bool) (ltA : A → A → option bool).
Context (eqB : B → B → bool) (ltB : B → B → option bool).
Context `{!Py.StrictTotal eqA ltA, !Py.StrictTotal eqB ltB}.

Lemma st_eqb_false (a a' : A) : eqA a a' = false ↔ a ≠ a'.
Proof.
  rewrite <- (Py.st_eqb (eqb:=eqA) a a'). by destruct (eqA a a').
Qed.

Lemma st_eqb_refl (a : A) : eqA a a = true.
Proof. by apply Py.st_eqb. Qed.

#[global] Instance lex_strict_total :
  Py.StrictTotal (Py.pair_eqb eqA eqB) (Py.lex eqA ltA ltB).
Proof.
  split.
  - intros [a b] [a' b']. unfold Py.pair_eqb; simpl.
    rewrite andb_true_iff, !Py.st_eqb.
    split; [by intros [-> ->]|by intros [= -> ->]].
  - intros [a b] [a' b']. unfold Py.lex; simpl.
    destruct (eqA a a'); apply Py.st_defined.
  - intros [a b]. unfold Py.lex; simpl.
    rewrite st_eqb_refl. apply Py.st_irrefl.
  - intros [a b] [a' b']. unfold Py.lex; simpl.
    destruct (eqA a a') eqn:Heq.
    + apply Py.st_eqb in Heq as ->. rewrite st_eqb_refl. apply Py.st_asym.
    + apply st_eqb_false in Heq.
      assert (eqA a' a = false) as -> by (apply st_eqb_false; congruence).
      apply Py.st_asym.
  - intros [a1 b1] [a2 b2] [a3 b3]. unfold Py.lex; simpl.
    destruct (eqA a1 a2) eqn:H12, (eqA a2 a3) eqn:H23.
    + apply Py.st_eqb in H12 as ->. rewrite H23. apply Py.st_trans.
    + apply Py.st_eqb in H12 as ->. rewrite H23. auto.
    + apply Py.st_eqb in H23 as <-. rewrite H12. auto.
    + intros Hlt1 Hlt2.
      assert (eqA a1 a3 = false) as ->; [|by eapply Py.st_trans].
      apply st_eqb_false. intros ->.
      apply Py.st_asym in Hlt1. congruence.
  - intros [a b] [a' b']. unfold Py.lex; simpl.
    destruct (eqA a a') eqn:Heq.
    + apply Py.st_eqb in Heq as ->. rewrite st_eqb_refl.
      intros H1 H2. f_equal. by apply (Py.st_connex (lt:=ltB)).
    + apply st_eqb_false in Heq.
      assert (eqA a' a = false) as -> by (apply st_eqb_false; congruence).
      intros H1 H2. destruct Heq. by apply (Py.st_connex (lt:=ltA)).
Qed.
End lex.

#[global] Instance int_strict_total : Py.StrictTotal Z.eqb Py.int_lt.
Proof.
  unfold Py.int_lt. split; intros.
  - apply Z.eqb_eq.
  - by eexists.
  - by rewrite Z.ltb_irrefl.
  - simplify_eq. f_equal. lia.
  - simplify_eq. f_equal. lia.
  - simplify_eq. lia.
Qed.

Lemma string_ltb_lt (s t : string) :
  String.ltb s t = true ↔ OrderedTypeEx.String_as_OT.lt s t.
Proof.
  rewrite <- OrderedTypeEx.String_as_OT.cmp_lt.
  unfold String.ltb, OrderedTypeEx.String_as_OT.cmp.
  destruct (String.compare s t); naive_solver.
Qed.

#[global] Instance str_strict_total : Py.StrictTotal String.eqb Py.str_lt.
Proof.
  unfold Py.str_lt. split.
  - intros s t. apply String.eqb_eq.
  - by eexists.
  - intros s. f_equal. unfold String.ltb.
    destruct (String.compare s s) eqn:H; try done.
    pose proof (String.compare_antisym s s) as Ha. by rewrite H in Ha.
  - intros s t H. f_equal. unfold String.ltb in *.
    rewrite String.compare_antisym. by destruct (String.compare s t).
  - intros s t u H1 H2. simplify_eq. f_equal.
    apply string_ltb_lt in H1, H2. apply string_ltb_lt.
    by eapply OrderedTypeEx.String_as_OT.lt_trans.
  - intros s t H1 H2. simplify_eq. unfold String.ltb in *.
    rewrite String.compare_antisym in H2.
    destruct (String.compare s t) eqn:H; try done.
    by apply String.compare_eq_iff.
Qed.

(** Under Python 2 a [str] and an [int] are always comparable. *)
#[global] Instance value_strict_total : Py.StrictTotal Py.value_eqb (Py.value_lt Py.Py2).
Proof.
  split.
  - intros [s|n] [t|m]; simpl; try (split; congruence).
    + rewrite String.eqb_eq. split; congruence.
    + rewrite Z.eqb_eq. split; congruence.
  - intros [s|n] [t|m]; simpl; by eexists.
  - intros [s|n]; simpl; apply Py.st_irrefl.
  - intros [s|n] [t|m]; simpl; try done; apply Py.st_asym.
  - intros [s|n] [t|m] [u|k]; simpl; try done; apply Py.st_trans.
  - intros [s|n] [t|m]; simpl; try done; intros H1 H2; f_equal.
    + by apply (Py.st_connex (lt:=Py.str_lt)).
    + by apply (Py.st_connex (lt:=Py.int_lt)).
Qed.

#[global] Instance tuple_strict_total : Py.StrictTotal Py.tuple_eqb Py.tuple_lt.
Proof. unfold Py.tuple_eqb, Py.tuple_lt. apply _. Qed.

#[global] Instance descriptor_strict_total :
  Py.StrictTotal descriptor_eqb (descriptor_lt Py.Py2).
Proof. unfold descriptor_eqb, descriptor_lt. apply _. Qed.

Lemma result_key_inj (a b : result) : result_key a = result_key b → a = b.
Proof.
  destruct a as [m [f p s]], b as [m' [f' p' s']]. unfold result_key, descriptor_key.
  simpl. congruence.
Qed.

(** Whatever Python 3 answers, Python 2 answers the same. *)
Lemma value_lt_py2 py a b c :
  Py.value_lt py a b = Some c → Py.value_lt Py.Py2 a b = Some c.
Proof. destruct py, a, b; simpl; congruence. Qed.

Lemma result_lt_py2 py a b c :
  result_lt py a b = Some c → result_lt Py.Py2 a b = Some c.
Proof.
  unfold result_lt, descriptor_lt, Py.lex; simpl.
  destruct (Py.float_eqb (meanlength a) (meanlength b)); [|done].
  destruct (Py.value_eqb _ _); [done|]. apply value_lt_py2.
Qed.

(** Two entries whose means are numbers compare as the numbers followed
    by the descriptors do. *)
Lemma result_lt_num py a b x y :
  meanlength a = Py.Num x → meanlength b = Py.Num y →
  result_lt py a b
  = Py.lex Z.eqb Py.int_lt (descriptor_lt py)
      (x, descriptor_key (descriptor a)) (y, descriptor_key (descriptor b)).
Proof.
  intros Ha Hb. unfold result_lt, result_key, Py.lex. cbn [fst snd].
  by rewrite Ha, Hb.
Qed.

(** An entry whose mean is NaN is less than nothing, and nothing is less
    than it. *)
Lemma result_lt_nan py a b :
  meanlength a = Py.NaN ∨ meanlength b = Py.NaN → result_lt py a b = Some false.
Proof.
  unfold result_lt, result_key, Py.lex at 1. cbn [fst snd].
  intros [->| ->]; [done|]. by destruct (meanlength a).
Qed.

Lemma result_lt_true py a b :
  result_lt py a b = Some true →
  ∃ x y, meanlength a = Py.Num x ∧ meanlength b = Py.Num y.
Proof.
  intros H. destruct (meanlength a) as [x|] eqn:Ha.
  - destruct (meanlength b) as [y|] eqn:Hb; [by eauto|].
    rewrite (result_lt_nan py a b) in H by (by right). done.
  - rewrite (result_lt_nan py a b) in H by (by left). done.
Qed.

Lemma not_nan (x : Py.float) : x ≠ Py.NaN → ∃ n, x = Py.Num n.
Proof. destruct x; [by eauto|done]. Qed.

Lemma result_lt_defined a b : is_Some (result_lt Py.Py2 a b).
Proof.
  destruct (meanlength a) as [x|] eqn:Ha.
  - destruct (meanlength b) as [y|] eqn:Hb.
    + rewrite (result_lt_num _ a b x y) by done. apply Py.st_defined.
    + rewrite result_lt_nan by (by right). by eexists.
  - rewrite result_lt_nan by (by left). by eexists.
Qed.

Lemma result_lt_asym a b :
  result_lt Py.Py2 a b = Some true → result_lt Py.Py2 b a = Some false.
Proof.
  intros H. destruct (result_lt_true _ _ _ H) as (x & y & Ha & Hb).
  rewrite (result_lt_num _ a b x y) in H by done.
  rewrite (result_lt_num _ b a y x) by done. revert H. apply Py.st_asym.
Qed.

Lemma result_lt_trans a b c :
  result_lt Py.Py2 a b = Some true → result_lt Py.Py2 b c = Some true →
  result_lt Py.Py2 a c = Some true.
Proof.
  intros H1 H2. destruct (result_lt_true _ _ _ H1) as (x & y & Ha & Hb).
  destruct (result_lt_true _ _ _ H2) as (y' & z & Hb' & Hc).
  rewrite (result_lt_num _ a b x y) in H1 by done.
  rewrite (result_lt_num _ b c y z) in H2 by congruence.
  rewrite (result_lt_num _ a c x z) by done. revert H1 H2. apply Py.st_trans.
Qed.

(** Among entries whose means are numbers, two entries that are not
    ordered are one entry. *)
Lemma result_lt_connex a b :
  meanlength a ≠ Py.NaN → meanlength b ≠ Py.NaN →
  result_lt Py.Py2 a b = Some false → result_lt Py.Py2 b a = Some false → a = b.
Proof.
  intros [x Ha]%not_nan [y Hb]%not_nan H1 H2.
  rewrite (result_lt_num _ a b x y) in H1 by done.
  rewrite (result_lt_num _ b a y x) in H2 by done.
  apply result_key_inj. unfold result_key. rewrite Ha, Hb.
  pose proof (Py.st_connex (eqb:=Py.pair_eqb Z.eqb descriptor_eqb)
                (lt:=Py.lex Z.eqb Py.int_lt (descriptor_lt Py.Py2)) _ _ H1 H2) as Heq.
  congruence.
Qed.

(** ** [list.sort()] *)

Section sort.
Context {A : Type} (lt : A → A → option bool).

Lemma insort_perm x s s' : Py.insort lt x s = Some s' → s' ≡ₚ x :: s.
Proof.
  revert s'. induction s as [|y s IH]; intros s' H; simpl in H.
  - by simplify_eq.
  - destruct (lt x y) as [[]|]; simplify_eq; [done|].
    destruct (Py.insort lt x s) as [r|] eqn:Hr; simplify_eq.
    rewrite (IH r eq_refl). apply perm_swap.
Qed.

Lemma sort_from_perm s l out :
  Py.sort_from lt s l = Some out → out ≡ₚ s ++ l.
Proof.
  revert s. induction l as [|x l IH]; intros s H; simpl in H.
  - simplify_eq. by rewrite app_nil_r.
  - destruct (Py.insort lt x s) as [s'|] eqn:Hs; [|done].
    rewrite (IH _ H), (insort_perm _ _ _ Hs). apply Permutation_middle.
Qed.

Lemma sort_perm l out : Py.sort lt l = Some out → out ≡ₚ l.
Proof. apply sort_from_perm. Qed.

(** A sort whose comparisons all succeed runs to completion. *)
Lemma insort_defined x s :
  (∀ y, y ∈ s → is_Some (lt x y)) → is_Some (Py.insort lt x s).
Proof.
  induction s as [|y s IH]; intros H; simpl; [by eexists|].
  destruct (H y) as [[] ->]; [by left|by eexists|].
  destruct IH as [r ->]; [|by eexists].
  intros z Hz. apply H. by right.
Qed.

Lemma sort_from_defined s l :
  (∀ x y, x ∈ s ++ l → y ∈ s ++ l → is_Some (lt x y)) →
  is_Some (Py.sort_from lt s l).
Proof.
  revert s. induction l as [|x l IH]; intros s H; simpl; [by eexists|].
  destruct (insort_defined x s) as [s' Hs].
  { intros y Hy. apply H; rewrite elem_of_app, elem_of_cons; auto. }
  rewrite Hs. apply IH. intros a b Ha Hb.
  assert (Hp : s' ++ l ≡ₚ s ++ x :: l).
  { rewrite (insort_perm _ _ _ Hs). apply Permutation_middle. }
  apply H; by rewrite <- Hp.
Qed.

Lemma sort_defined l :
  (∀ x y, x ∈ l → y ∈ l → is_Some (lt x y)) → is_Some (Py.sort lt l).
Proof. intros H. by apply sort_from_defined. Qed.

(** A sort only depends on the answers it gets. *)
Lemma insort_refine (lt' : A → A → option bool) x s s' :
  (∀ a b c, lt a b = Some c → lt' a b = Some c) →
  Py.insort lt x s = Some s' → Py.insort lt' x s = Some s'.
Proof.
  intros Hlt. revert s'. induction s as [|y s IH]; intros s' H; simpl in *; [done|].
  destruct (lt x y) as [c|] eqn:Hc; [|done]. rewrite (Hlt _ _ _ Hc).
  destruct c; [done|].
  destruct (Py.insort lt x s) as [r|]; [|done]. by rewrite (IH r eq_refl).
Qed.

Lemma sort_refine (lt' : A → A → option bool) l out :
  (∀ a b c, lt a b = Some c → lt' a b = Some c) →
  Py.sort lt l = Some out → Py.sort lt' l = Some out.
Proof.
  intros Hlt. unfold Py.sort. generalize (@nil A) as s.
  induction l as [|x l IH]; intros s H; simpl in *; [done|].
  destruct (Py.insort lt x s) as [s'|] eqn:Hs; [|done].
  rewrite (insort_refine lt' _ _ _ Hlt Hs). by apply IH.
Qed.

(** With a comparison that never raises and is asymmetric and
    transitive, the result is in non-decreasing order. *)
Context (lt_defined : ∀ a b, is_Some (lt a b)).
Context (lt_asym : ∀ a b, lt a b = Some true → lt b a = Some false).
Context (lt_trans : ∀ a b c, lt a b = Some true → lt b c = Some true → lt a c = Some true).

Lemma insort_sorted x s s' :
  StronglySorted (λ a b, lt b a = Some false) s →
  Py.insort lt x s = Some s' →
  StronglySorted (λ a b, lt b a = Some false) s'.
Proof.
  revert s'. induction s as [|y s IH]; intros s' Hs H; simpl in H.
  - simplify_eq. by repeat constructor.
  - apply StronglySorted_cons in Hs as [Hy Hs].
    destruct (lt x y) as [[]|] eqn:Hxy; simplify_eq.
    + constructor; [by constructor|]. constructor; [by apply lt_asym|].
      eapply Forall_impl; [exact Hy|]. intros z Hz; simpl in Hz.
      destruct (lt_defined z x) as [[] Hzx]; [|done].
      rewrite (lt_trans _ _ _ Hzx Hxy) in Hz. done.
    + destruct (Py.insort lt x s) as [r|] eqn:Hr; simplify_eq.
      constructor; [by apply IH|].
      rewrite (insort_perm _ _ _ Hr). by constructor.
Qed.

Lemma sort_sorted l out :
  Py.sort lt l = Some out → StronglySorted (λ a b, lt b a = Some false) out.
Proof.
  unfold Py.sort. assert (Hnil : StronglySorted (λ a b, lt b a = Some false) [])
    by constructor.
  revert Hnil. generalize (@nil A) as s.
  induction l as [|x l IH]; intros s Hs H; simpl in H; [by simplify_eq|].
  destruct (Py.insort lt x s) as [s'|] eqn:Hs'; [|done].
  eapply IH; [|done]. by eapply insort_sorted.
Qed.
End sort.

(** Neighbours in the result of a completed sort have been compared
    with one another, whatever the comparison is. *)
Lemma insort_settled {A} (lt : A → A → option bool) x s s' :
  Sorted (Py.settled lt) s → Py.insort lt x s = Some s' → Sorted (Py.settled lt) s'.
Proof.
  revert s'. induction s as [|y s IH]; intros s' Hs H; simpl in H.
  - simplify_eq. by repeat constructor.
  - apply Sorted_inv in Hs as [Hs Hy].
    destruct (lt x y) as [[]|] eqn:Hxy; simplify_eq.
    + constructor; [by constructor|]. constructor. by left.
    + destruct (Py.insort lt x s) as [r|] eqn:Hr; simplify_eq.
      constructor; [by apply IH|].
      destruct s as [|z s]; simpl in Hr.
      * simplify_eq. constructor. by right.
      * apply HdRel_inv in Hy.
        destruct (lt x z) as [[]|]; simplify_eq.
        -- constructor. by right.
        -- destruct (Py.insort lt x s); simplify_eq. by constructor.
Qed.

Lemma sort_settled {A} (lt : A → A → option bool) l out :
  Py.sort lt l = Some out → Sorted (Py.settled lt) out.
Proof.
  unfold Py.sort. assert (Hnil : Sorted (Py.settled lt) (@nil A)) by constructor.
  revert Hnil. generalize (@nil A) as s.
  induction l as [|x l IH]; intros s Hs H; simpl in H; [by simplify_eq|].
  destruct (Py.insort lt x s) as [s'|] eqn:Hs'; [|done].
  eapply IH; [|done]. by eapply insort_settled.
Qed.

Lemma StronglySorted_reverse {A} (R : relation A) l :
  StronglySorted R l → StronglySorted (λ a b, R b a) (reverse l).
Proof.
  induction 1 as [|x l Hl IH Hx]; [constructor|].
  rewrite reverse_cons. apply StronglySorted_app_2; [|done|by repeat constructor].
  intros a b Ha Hb. apply list_elem_of_singleton in Hb as ->.
  rewrite elem_of_reverse in Ha. rewrite Forall_forall in Hx. by apply Hx.
Qed.

(** Strictness: distinct entries in non-decreasing order are increasing,
    where no mean is NaN. *)
Lemma StronglySorted_strict (l : list result) :
  NoDup l → no_nan l →
  StronglySorted (λ a b, result_lt Py.Py2 b a = Some false) l →
  StronglySorted (λ a b, result_lt Py.Py2 a b = Some true) l.
Proof.
  intros Hnd Hnum Hl. induction Hl as [|x l Hl IH Hx]; [constructor|].
  apply NoDup_cons in Hnd as [Hx' Hnd].
  apply Forall_cons in Hnum as [Hnx Hnum]. constructor; [auto|].
  apply Forall_forall. intros y Hy.
  eapply Forall_forall in Hx; [|done].
  eapply Forall_forall in Hnum; [|done].
  destruct (result_lt_defined x y) as [[] Hxy]; [done|].
  destruct Hx'. by rewrite (result_lt_connex x y Hnx Hnum Hxy Hx).
Qed.

(** Under Python 2, ranking always succeeds. *)
Lemma rank_py2_defined (l : list result) :
  ∃ ranked, rank Py.Py2 l = Some ranked ∧ ranked ≡ₚ l.
Proof.
  unfold rank. destruct (sort_defined (result_lt Py.Py2) l) as [s Hs].
  { intros. apply result_lt_defined. }
  rewrite Hs. exists (reverse s). split; [done|].
  rewrite reverse_Permutation. by eapply sort_perm.
Qed.

(** Where no mean is NaN it lists the entries in strictly decreasing
    order of [[meanlength, flip, permutation, basis]]. *)
Lemma rank_py2 (l : list result) :
  NoDup l → no_nan l →
  ∃ ranked, rank Py.Py2 l = Some ranked ∧ ranked ≡ₚ l ∧
    StronglySorted (λ a b, result_lt Py.Py2 b a = Some true) ranked.
Proof.
  intros Hnd Hnum. unfold rank.
  destruct (sort_defined (result_lt Py.Py2) l) as [s Hs].
  { intros. apply result_lt_defined. }
  rewrite Hs. exists (reverse s). split; [done|].
  pose proof (sort_perm _ _ _ Hs) as Hp. split.
  - by rewrite reverse_Permutation.
  - apply (StronglySorted_reverse (λ a b, result_lt Py.Py2 a b = Some true)).
    apply StronglySorted_strict; [by rewrite Hp|unfold no_nan; by rewrite Hp|].
    eapply sort_sorted; [apply result_lt_defined|apply result_lt_asym
                        |apply result_lt_trans|done].
Qed.

(** Whenever ranking succeeds, under either interpreter, it yields the
    Python 2 ranking. *)
Lemma rank_agrees py (l ranked : list result) :
  rank py l = Some ranked → rank Py.Py2 l = Some ranked.
Proof.
  unfold rank. destruct (Py.sort (result_lt py) l) as [s|] eqn:Hs; [|done].
  intros [= <-].
  by rewrite (sort_refine _ (result_lt Py.Py2) _ _ (result_lt_py2 py) Hs).
Qed.

(** ** Python 3: a tie between flip 'none' and a numbered flip *)

Lemma Sorted_mono_Forall {A} (P : A → Prop) (R R' : relation A) l :
  (∀ a b, P a → P b → R a b → R' a b) → Forall P l → Sorted R l → Sorted R' l.
Proof.
  intros HR HP. induction 1 as [|x l Hl IH Hx]; constructor.
  - apply IH. by apply Forall_cons in HP as [_ ?].
  - destruct Hx as [|y l Hxy]; constructor.
    apply Forall_cons in HP as [Hx HP]. apply Forall_cons in HP as [Hy _]. auto.
Qed.

Lemma float_le_trans a b c : Py.float_le a b → Py.float_le b c → Py.float_le a c.
Proof. destruct a, b, c; simpl; try done. lia. Qed.

Lemma float_le_antisym a b :
  Py.float_le a b → Py.float_le b a → Py.float_eqb a b = true.
Proof. destruct a, b; simpl; try done. lia. Qed.

Lemma float_eqb_le a b : Py.float_eqb a b = true → Py.float_le a b.
Proof. destruct a, b; simpl; try done. lia. Qed.

Lemma float_eqb_sym a b : Py.float_eqb a b = Py.float_eqb b a.
Proof. destruct a, b; simpl; try done. apply Z.eqb_sym. Qed.

Lemma float_eqb_trans a b c :
  Py.float_eqb a b = true → Py.float_eqb b c = true → Py.float_eqb a c = true.
Proof. destruct a, b, c; simpl; try done. lia. Qed.

(** Between entries whose means are numbers, the answer of [<] bounds
    the means. *)
Lemma result_lt_meanlength py a b c :
  meanlength a ≠ Py.NaN → meanlength b ≠ Py.NaN →
  result_lt py a b = Some c →
  if c then Py.float_le (meanlength a) (meanlength b)
  else Py.float_le (meanlength b) (meanlength a).
Proof.
  intros [x Ha]%not_nan [y Hb]%not_nan.
  rewrite (result_lt_num py a b x y) by done. rewrite Ha, Hb.
  unfold Py.lex, Py.int_lt. cbn [fst snd Py.float_le].
  destruct (x =? y) eqn:Hm.
  - apply Z.eqb_eq in Hm. intros _. destruct c; lia.
  - intros [= <-]. destruct (x <? y) eqn:Hlt; lia.
Qed.

Lemma settled_meanlength a b :
  meanlength a ≠ Py.NaN → meanlength b ≠ Py.NaN →
  Py.settled (result_lt Py.Py3) a b → Py.float_le (meanlength a) (meanlength b).
Proof.
  intros Ha Hb [H|H]; [by apply result_lt_meanlength in H|].
  by apply result_lt_meanlength in H.
Qed.

Lemma result_lt_py3_mixed a b : mixed_tie a b → result_lt Py.Py3 a b = None.
Proof.
  unfold mixed_tie, result_lt, descriptor_lt, result_key, descriptor_key.
  unfold Py.lex at 1. cbn [fst snd]. intros [-> Hkind].
  unfold Py.lex at 1. cbn [fst snd].
  by destruct (flip (descriptor a)), (flip (descriptor b)).
Qed.

Lemma settled_not_mixed a b : Py.settled (result_lt Py.Py3) a b → ¬ mixed_tie a b.
Proof.
  intros H Hmixed.
  assert (Hmixed' : mixed_tie b a).
  { destruct Hmixed. split; [by rewrite float_eqb_sym|congruence]. }
  apply result_lt_py3_mixed in Hmixed, Hmixed'. destruct H; congruence.
Qed.

(** In the result of a completed Python 3 sort of entries whose means
    are numbers, entries of equal mean length have flips of the same
    kind. *)
Lemma sorted_py3_same_kind x l :
  no_nan (x :: l) →
  Sorted (Py.settled (result_lt Py.Py3)) (x :: l) →
  ∀ y, y ∈ l → Py.float_eqb (meanlength y) (meanlength x) = true →
       Py.is_number (flip (descriptor y)) = Py.is_number (flip (descriptor x)).
Proof.
  revert x. induction l as [|z l IH]; intros x Hnum Hs y Hy Hm.
  - by apply elem_of_nil in Hy.
  - apply Sorted_inv in Hs as [Hs Hxz]. apply HdRel_inv in Hxz.
    apply Forall_cons in Hnum as [Hnx Hnum].
    pose proof Hnum as [Hnz Hnl]%Forall_cons.
    assert (Hmono : ∀ v, v ∈ l → Py.float_le (meanlength z) (meanlength v)).
    { assert (Hss : StronglySorted (λ a b, Py.float_le (meanlength a) (meanlength b))
                      (z :: l)).
      { apply Sorted_StronglySorted; [intros ???; apply float_le_trans|].
        eapply Sorted_mono_Forall; [|exact Hnum|exact Hs].
        intros a b. apply settled_meanlength. }
      apply StronglySorted_cons in Hss as [Hall _]. by rewrite Forall_forall in Hall. }
    pose proof (settled_meanlength _ _ Hnx Hnz Hxz) as Hxz'.
    assert (Hz : Py.float_eqb (meanlength z) (meanlength x) = true).
    { apply elem_of_cons in Hy as [->|Hy]; [done|]. specialize (Hmono y Hy).
      apply float_le_antisym; [|done].
      eapply float_le_trans; [done|]. by apply float_eqb_le. }
    assert (Hkind : Py.is_number (flip (descriptor z)) = Py.is_number (flip (descriptor x))).
    { destruct (decide (Py.is_number (flip (descriptor z))
                        = Py.is_number (flip (descriptor x)))) as [|Hne]; [done|].
      destruct (settled_not_mixed _ _ Hxz).
      split; [by rewrite float_eqb_sym|congruence]. }
    apply elem_of_cons in Hy as [->|Hy]; [done|].
    rewrite <- Hkind. apply IH; [done..|].
    eapply float_eqb_trans; [done|]. by rewrite float_eqb_sym.
Qed.

(** Hence a Python 3 sort of entries whose means are numbers, among
    which flip 'none' ties with a numbered flip, cannot complete: it
    raises. *)
Lemma rank_py3_mixed_tie (l : list result) x y :
  no_nan l → x ∈ l → y ∈ l → mixed_tie x y → rank Py.Py3 l = None.
Proof.
  intros Hnum Hx Hy [Hm Hkind]. unfold rank.
  destruct (Py.sort (result_lt Py.Py3) l) as [s|] eqn:Hs; [|done]. exfalso.
  pose proof (sort_settled _ _ _ Hs) as Hsorted.
  pose proof (sort_perm _ _ _ Hs) as Hperm.
  unfold no_nan in Hnum.
  rewrite <- Hperm in Hx, Hy, Hnum.
  apply list_elem_of_split in Hx as (l1 & l2 & ->).
  assert (Htail : ∀ l1 l2 x y, no_nan (l1 ++ x :: l2) →
    Sorted (Py.settled (result_lt Py.Py3)) (l1 ++ x :: l2) →
    y ∈ l2 → Py.float_eqb (meanlength y) (meanlength x) = true →
    Py.is_number (flip (descriptor y)) = Py.is_number (flip (descriptor x))).
  { clear. intros l1 l2 x y Hnum Hsorted. apply sorted_py3_same_kind.
    - by apply Forall_app in Hnum as [_ ?].
    - induction l1 as [|z l1 IH]; [done|]. apply IH.
      + by apply Forall_cons in Hnum as [_ ?].
      + by apply Sorted_inv in Hsorted as [? _]. }
  apply elem_of_app in Hy as [Hy|Hy].
  - apply list_elem_of_split in Hy as (l3 & l4 & ->).
    rewrite <- app_assoc in Hsorted, Hnum. cbn in Hsorted, Hnum.
    destruct Hkind. apply (Htail l3 (l4 ++ x :: l2) y x Hnum Hsorted); [|done].
    apply elem_of_app. right. by left.
  - apply elem_of_cons in Hy as [->|Hy]; [done|].
    destruct Hkind. symmetry. apply (Htail l1 l2 x y Hnum Hsorted); [done|].
    by rewrite float_eqb_sym.
Qed.

(** ** List objects in the heap *)

Lemma fresh_heap (h : gmap nat (list cell)) : h !! fresh (dom h) = None.
Proof. apply not_elem_of_dom, is_fresh. Qed.

Lemma heap_extend (h : gmap nat (list cell)) vs : h ⊆ <[fresh (dom h) := vs]> h.
Proof. apply insert_subseteq, fresh_heap. Qed.

Lemma floats_Some (vs : list cell) (xs : list Z) :
  mapM (λ v, match v with Float x => Some x | Ref _ => None end) vs = Some xs
  ↔ vs = Float <$> xs.
Proof.
  rewrite mapM_Some. split.
  - induction 1 as [|v x vs xs Hv _ IH]; [done|].
    destruct v; by simplify_eq.
  - intros ->. induction xs; by constructor.
Qed.

Lemma read_row_Some h c xs :
  read_row h c = Some xs ↔ ∃ r, c = Ref r ∧ h !! r = Some (Float <$> xs).
Proof.
  destruct c as [x|r]; simpl; [naive_solver|].
  destruct (h !! r) as [vs|] eqn:Hr; [|naive_solver].
  rewrite floats_Some. naive_solver.
Qed.

Lemma read_row_mono h h' c xs : h ⊆ h' → read_row h c = Some xs → read_row h' c = Some xs.
Proof.
  rewrite !read_row_Some. intros Hh (r & -> & Hr). exists r. split; [done|].
  by eapply lookup_weaken.
Qed.

Lemma read_table_Some h l T :
  read_table h l = Some T
  ↔ ∃ rows, h !! l = Some rows ∧ Forall2 (λ c xs, read_row h c = Some xs) rows T.
Proof.
  unfold read_table. destruct (h !! l) as [rows|]; [|naive_solver].
  rewrite mapM_Some. naive_solver.
Qed.

(** Growing the heap does not change a table that is already there. *)
Lemma read_table_mono h h' l T : h ⊆ h' → read_table h l = Some T → read_table h' l = Some T.
Proof.
  rewrite !read_table_Some. intros Hh (rows & Hl & Hrows). exists rows. split.
  - by eapply lookup_weaken.
  - eapply Forall2_impl; [done|]. intros c xs. by apply read_row_mono.
Qed.

Lemma set_heap_id w : set_heap (λ _, heap w) w = w.
Proof. by destruct w. Qed.

(** A list comprehension over the rows of a table whose row function is
    a pure function [g] of the floats of a row. *)
Lemma for_list_rows (f : list cell → M (list cell)) (g : list Z → list Z) h0 rows T :
  Forall2 (λ c xs, read_row h0 c = Some xs) rows T →
  (∀ xs w', xs ∈ T → h0 ⊆ heap w' → f (Float <$> xs) w' = Done (Float <$> g xs) w') →
  ∀ w, h0 ⊆ heap w →
  ∃ rows' h',
    for_list (λ row, r ← as_ref row; vs ← items r; vs' ← f vs; r' ← new vs'; mret (Ref r'))
             rows w
    = Done rows' (set_heap (λ _, h') w) ∧
    heap w ⊆ h' ∧ Forall2 (λ c xs, read_row h' c = Some (g xs)) rows' T.
Proof.
  induction 1 as [|c xs rows T Hc _ IH]; intros Hf w Hw.
  - exists [], (heap w). by rewrite set_heap_id.
  - apply read_row_Some in Hc as (r & -> & Hr).
    pose proof (lookup_weaken _ _ _ _ Hr Hw) as Hr'.
    set (l := fresh (dom (heap w))).
    set (w1 := set_heap <[l := Float <$> g xs]> w).
    destruct (IH (λ ys w' Hys, Hf ys w' (list_elem_of_further _ _ _ Hys)) w1)
      as (rows' & h' & Hrun & Hh' & Hrows').
    { etrans; [done|]. apply heap_extend. }
    exists (Ref l :: rows'), h'. split; [|split].
    + cbn [for_list]. mstep. mstep. mstep. unfold items at 1. rewrite Hr'.
      mstep. rewrite Hf; [|by left|done].
      mstep. unfold new at 1. fold l. fold w1. msimpl.
      mstep. rewrite Hrun. reflexivity.
    + etrans; [|done]. apply heap_extend.
    + constructor; [|done]. apply read_row_Some. exists l. split; [done|].
      eapply lookup_weaken; [|done]. apply lookup_insert_eq.
Qed.

Lemma comprehension_table (f : list cell → M (list cell)) (g : list Z → list Z)
    grad T w :
  read_table (heap w) grad = Some T →
  (∀ xs w', xs ∈ T → heap w ⊆ heap w' → f (Float <$> xs) w' = Done (Float <$> g xs) w') →
  ∃ l h',
    comprehension f grad w = Done l (set_heap (λ _, h') w) ∧
    heap w ⊆ h' ∧ read_table h' l = Some (g <$> T).
Proof.
  intros (rows & Hgrad & Hrows)%read_table_Some Hf.
  destruct (for_list_rows f g (heap w) rows T Hrows Hf w) as (rows' & h' & Hrun & Hh' & Hrows');
    [done|].
  exists (fresh (dom h')), (<[fresh (dom h') := rows']> h'). split; [|split].
  - unfold comprehension. rewrite bind_unfold. unfold items at 1.
    rewrite Hgrad, bind_unfold, Hrun. reflexivity.
  - etrans; [done|]. apply heap_extend.
  - apply read_table_Some. exists rows'. split; [apply lookup_insert_eq|].
    apply Forall2_fmap_r. eapply Forall2_impl; [done|].
    intros c xs. apply read_row_mono, heap_extend.
Qed.

(** ** The table of a candidate *)

Lemma length_4 {A} (xs : list A) :
  length xs = 4%nat → ∃ a b c d, xs = [a; b; c; d].
Proof. destruct xs as [|a [|b [|c [|d [|]]]]]; naive_solver. Qed.

Lemma length_3 {A} (xs : list A) :
  length xs = 3%nat → ∃ a b c, xs = [a; b; c].
Proof. destruct xs as [|a [|b [|c [|]]]]; naive_solver. Qed.

Lemma copy_copy_table l T w :
  read_table (heap w) l = Some T →
  ∃ l' h', copy_copy l w = Done l' (set_heap (λ _, h') w) ∧
    heap w ⊆ h' ∧ read_table h' l' = Some T.
Proof.
  intros HT. pose proof HT as (rows & Hl & Hrows)%read_table_Some.
  exists (fresh (dom (heap w))), (<[fresh (dom (heap w)) := rows]> (heap w)).
  split; [|split].
  - unfold copy_copy. mstep. unfold items. by rewrite Hl.
  - apply heap_extend.
  - apply read_table_Some. exists rows. split; [apply lookup_insert_eq|].
    eapply Forall2_impl; [done|]. intros c xs. apply read_row_mono, heap_extend.
Qed.

Lemma scale_loop (xs ms : list Z) w :
  for_list (λ rm : cell * cell,
              r ← as_float rm.1; m ← as_float rm.2; mret (Float (r * m)))
           (zip (Float <$> xs) (Float <$> ms)) w
  = Done (Float <$> zip_with Z.mul xs ms) w.
Proof.
  revert ms. induction xs as [|x xs IH]; intros [|m ms]; try done.
  simpl. do 4 mstep. change (list_fmap Z cell Float) with (fmap (M:=list) Float).
  by rewrite IH.
Qed.

Lemma scale_floats (xs ms : list Z) multiplier w :
  heap w !! multiplier = Some (Float <$> ms) →
  scale multiplier (Float <$> xs) w = Done (Float <$> zip_with Z.mul xs ms) w.
Proof.
  intros Hm. unfold scale. mstep. unfold items. rewrite Hm. apply scale_loop.
Qed.

Lemma pick_floats p (xs : list Z) w :
  p ∈ axis_permutations → length xs = 4%nat →
  pick p (Float <$> xs) w = Done (Float <$> permute_columns p xs) w.
Proof.
  intros Hp (a & b & c & d & ->)%length_4. unfold axis_permutations in Hp.
  repeat (apply elem_of_cons in Hp as [->|Hp]; [reflexivity|]).
  by apply elem_of_nil in Hp.
Qed.

Lemma negate_column_mul (k : nat) (xs : list Z) :
  (k < 4)%nat → length xs = 4%nat →
  zip_with Z.mul xs (<[k := -1]> [1; 1; 1; 1]) = negate_column k xs.
Proof.
  intros Hk (a & b & c & d & ->)%length_4.
  destruct k as [|[|[|[|]]]]; try lia; unfold negate_column; simpl;
    repeat f_equal; lia.
Qed.

(** The scanner branch builds the combined table with the flip column
    negated and the direction columns reordered. *)
Lemma scanner_table_spec c grad_mrtrix T w :
  flip c ∈ axis_flips → permutation c ∈ axis_permutations →
  read_table (heap w) grad_mrtrix = Some T →
  Forall (λ row, length row = 4%nat) T →
  ∃ l h', scanner_table c grad_mrtrix w = Done l (set_heap (λ _, h') w) ∧
    heap w ⊆ h' ∧ read_table h' l = Some (transformed_scanner c T).
Proof.
  intros Hf Hp HT Hlen. unfold scanner_table, transformed_scanner.
  destruct (copy_copy_table _ _ _ HT) as (l1 & h1 & Hcopy & Hh1 & HT1).
  mstep. rewrite Hcopy. set (w1 := set_heap (λ _, h1) w).
  assert (Hpick : ∀ T' w', h1 ⊆ heap w' → ∀ l2, read_table (heap w') l2 = Some T' →
    Forall (λ row, length row = 4%nat) T' →
    ∃ l h', comprehension (pick (permutation c)) l2 w' = Done l (set_heap (λ _, h') w') ∧
      heap w' ⊆ h' ∧ read_table h' l = Some (permute_columns (permutation c) <$> T')).
  { intros T' w' _ l2 HT' Hlen'. apply comprehension_table; [done|].
    intros xs w'' Hxs _. apply pick_floats; [done|].
    rewrite Forall_forall in Hlen'. by apply Hlen'. }
  unfold axis_flips in Hf. apply elem_of_cons in Hf as [Hf|Hf].
  { rewrite Hf. mstep.
    destruct (Hpick T w1 (reflexivity _) l1 HT1 Hlen) as (l & h' & Hrun & Hh' & HT').
    exists l, h'. rewrite Hrun. split; [done|]. split; [by etrans|done]. }
  assert (∃ k : nat, (k < 3)%nat ∧ flip c = Py.Int (Z.of_nat k)) as (k & Hk & ->).
  { repeat (apply elem_of_cons in Hf as [->|Hf]);
      [by exists 0%nat; split; [lia|]|by exists 1%nat; split; [lia|]
      |by exists 2%nat; split; [lia|]|by apply elem_of_nil in Hf]. }
  rewrite Nat2Z.id.
  set (l2 := fresh (dom h1)).
  set (ms := <[k := -1]> [1; 1; 1; 1]).
  set (w3 := set_heap (λ _, <[l2 := Float <$> ms]> h1) w).
  assert (Hset : (multiplier ← new [Float 1; Float 1; Float 1; Float 1];
                  setitem multiplier (Z.of_nat k) (Float (-1));;
                  comprehension (scale multiplier) l1) w1
                 = comprehension (scale l2) l1 w3).
  { mstep. unfold new at 1. cbn [heap w1 set_heap]. fold l2. mstep.
    unfold setitem. mstep. unfold items at 1. cbn [heap set_heap].
    rewrite lookup_insert_eq. cbn [length].
    replace (Py.index 4 (Z.of_nat k)) with (Some k)
      by (destruct k as [|[|[|]]]; try lia; reflexivity).
    unfold store, w3, w1, set_heap.
    cbn [heap scratch files invoked lengths printed].
    rewrite insert_insert_eq.
    replace (<[k:=Float (-1)]> [Float 1; Float 1; Float 1; Float 1]) with (Float <$> ms)
      by (destruct k as [|[|[|]]]; try lia; reflexivity).
    reflexivity. }
  mstep. rewrite Hset.
  assert (Hh3 : h1 ⊆ heap w3) by apply heap_extend.
  destruct (comprehension_table (scale l2) (λ xs, zip_with Z.mul xs ms) l1 T w3)
    as (l3 & h3 & Hrun3 & Hh3' & HT3).
  { by eapply read_table_mono. }
  { intros xs w' _ Hw'. apply scale_floats. eapply lookup_weaken; [|done].
    apply lookup_insert_eq. }
  rewrite Hrun3.
  destruct (Hpick ((λ xs, zip_with Z.mul xs ms) <$> T) (set_heap (λ _, h3) w3)) with (l2 := l3)
    as (l & h' & Hrun & Hh' & HT'); [by etrans|done|..].
  { apply Forall_fmap. eapply Forall_impl; [done|]. intros xs Hxs; simpl.
    rewrite length_zip_with, Hxs. unfold ms. rewrite length_insert. reflexivity. }
  exists l, h'. rewrite Hrun. split; [done|]. split.
  { do 3 (etrans; [done|]). done. }
  rewrite HT'. f_equal. rewrite <- list_fmap_compose.
  apply Forall_fmap_ext. eapply Forall_impl; [done|]. intros xs Hxs; simpl.
  unfold ms. rewrite negate_column_mul; [done|lia|done].
Qed.

Lemma getitem_lookup (vs : list cell) (i : nat) v w :
  vs !! i = Some v → getitem vs (Z.of_nat i) w = Done v w.
Proof.
  intros Hi. unfold getitem, Py.index.
  pose proof (lookup_lt_Some _ _ _ Hi).
  rewrite bool_decide_true by lia. by rewrite Nat2Z.id, Hi.
Qed.

Lemma axis_permutations_range p :
  p ∈ axis_permutations →
  ∃ i j k : nat, p = (Z.of_nat i, Z.of_nat j, Z.of_nat k) ∧ (i < 3 ∧ j < 3 ∧ k < 3)%nat.
Proof.
  unfold axis_permutations. intros Hp.
  repeat (apply elem_of_cons in Hp as [->|Hp]);
    [by exists 0%nat, 1%nat, 2%nat; split; [|lia]
    |by exists 0%nat, 2%nat, 1%nat; split; [|lia]
    |by exists 1%nat, 0%nat, 2%nat; split; [|lia]
    |by exists 1%nat, 2%nat, 0%nat; split; [|lia]
    |by exists 2%nat, 0%nat, 1%nat; split; [|lia]
    |by exists 2%nat, 1%nat, 0%nat; split; [|lia]
    |by apply elem_of_nil in Hp].
Qed.

Lemma negate_loop (xs : list Z) w :
  for_list (λ v, x ← as_float v; mret (Float (- x))) (Float <$> xs) w
  = Done (Float <$> (Z.opp <$> xs)) w.
Proof.
  induction xs as [|x xs IH]; [done|]. simpl. do 3 mstep.
  change (list_fmap Z cell Float) with (fmap (M:=list) Float). by rewrite IH.
Qed.

(** [[ grad[permutation[0]], grad[permutation[1]], grad[permutation[2]] ]] *)
Lemma pick_rows p l rows F w :
  p ∈ axis_permutations →
  heap w !! l = Some rows →
  Forall2 (λ c xs, read_row (heap w) c = Some xs) rows F →
  length F = 3%nat →
  ∃ l' h',
    (rows ← items l; a ← getitem rows p.1.1; b ← getitem rows p.1.2;
     c ← getitem rows p.2; new [a; b; c]) w
    = Done l' (set_heap (λ _, h') w) ∧
    heap w ⊆ h' ∧ read_table h' l' = Some (permute_rows p F).
Proof.
  intros (i & j & k & -> & Hi & Hj & Hk)%axis_permutations_range Hl Hrows HF.
  pose proof (Forall2_length _ _ _ Hrows) as Hlen.
  destruct (lookup_lt_is_Some_2 F i) as [Fi HFi]; [lia|].
  destruct (lookup_lt_is_Some_2 F j) as [Fj HFj]; [lia|].
  destruct (lookup_lt_is_Some_2 F k) as [Fk HFk]; [lia|].
  destruct (lookup_lt_is_Some_2 rows i) as [ci Hci]; [lia|].
  destruct (lookup_lt_is_Some_2 rows j) as [cj Hcj]; [lia|].
  destruct (lookup_lt_is_Some_2 rows k) as [ck Hck]; [lia|].
  exists (fresh (dom (heap w))), (<[fresh (dom (heap w)) := [ci; cj; ck]]> (heap w)).
  split; [|split].
  - mstep. unfold items. rewrite Hl. cbn [fst snd].
    mstep. rewrite (getitem_lookup _ _ _ _ Hci).
    mstep. rewrite (getitem_lookup _ _ _ _ Hcj).
    mstep. by rewrite (getitem_lookup _ _ _ _ Hck).
  - apply heap_extend.
  - apply read_table_Some. eexists. split; [apply lookup_insert_eq|].
    unfold permute_rows. cbn [fst snd fmap list_fmap]. rewrite !Nat2Z.id, HFi, HFj, HFk.
    assert (Hmono : ∀ n c xs, rows !! n = Some c → F !! n = Some xs →
      read_row (<[fresh (dom (heap w)) := [ci; cj; ck]]> (heap w)) c = Some xs).
    { intros n c xs Hc Hxs. eapply read_row_mono; [apply heap_extend|].
      exact (Forall2_lookup_lr _ rows F n c xs Hrows Hc Hxs). }
    constructor; [by eapply Hmono|].
    constructor; [by eapply Hmono|].
    constructor; [by eapply Hmono|]. constructor.
Qed.

(** The image branch builds the split rows with the flip row negated
    and the rows reordered. *)
Lemma image_table_spec c grad_fsl F w :
  flip c ∈ axis_flips → permutation c ∈ axis_permutations →
  read_table (heap w) grad_fsl = Some F →
  length F = 3%nat →
  ∃ l h', image_table c grad_fsl w = Done l (set_heap (λ _, h') w) ∧
    heap w ⊆ h' ∧ read_table h' l = Some (transformed_image c F).
Proof.
  intros Hf Hp (rows & Hgf & Hrows)%read_table_Some HF.
  unfold image_table, transformed_image.
  set (h := heap w) in *.
  set (l1 := fresh (dom h)).
  assert (Hl1 : h !! l1 = None) by apply fresh_heap.
  set (h1 := <[l1 := rows]> h).
  assert (Hh1 : h ⊆ h1) by apply heap_extend.
  mstep. unfold copy_copy. mstep. unfold items at 1. fold h. rewrite Hgf.
  unfold new at 1. fold h l1. msimpl.
  unfold axis_flips in Hf. apply elem_of_cons in Hf as [Hf|Hf].
  { rewrite Hf. mstep.
    destruct (pick_rows (permutation c) l1 rows F (set_heap <[l1 := rows]> w))
      as (l' & h' & Hrun & Hh' & HT'); [done|apply lookup_insert_eq| |done|].
    { eapply Forall2_impl; [done|]. intros ??. by apply read_row_mono. }
    exists l', h'. rewrite Hrun. split; [done|]. split; [|done].
    etrans; [exact Hh1|done]. }
  assert (∃ k : nat, (k < 3)%nat ∧ flip c = Py.Int (Z.of_nat k)) as (k & Hk & ->).
  { repeat (apply elem_of_cons in Hf as [->|Hf]);
      [by exists 0%nat; split; [lia|]|by exists 1%nat; split; [lia|]
      |by exists 2%nat; split; [lia|]|by apply elem_of_nil in Hf]. }
  rewrite Nat2Z.id.
  pose proof (Forall2_length _ _ _ Hrows) as Hlen.
  destruct (lookup_lt_is_Some_2 F k) as [Fk HFk]; [lia|].
  destruct (lookup_lt_is_Some_2 rows k) as [ck Hck]; [lia|].
  pose proof (Forall2_lookup_lr _ _ _ _ _ _ Hrows Hck HFk) as (rk & -> & Hrk)%read_row_Some.
  set (l2 := fresh (dom h1)).
  assert (Hl2 : h1 !! l2 = None) by apply fresh_heap.
  set (h2 := <[l2 := Float <$> (Z.opp <$> Fk)]> h1).
  set (rows' := <[k := Ref l2]> rows).
  set (h3 := <[l1 := rows']> h2).
  assert (Hh2 : h1 ⊆ h2) by apply heap_extend.
  assert (Hh3 : h ⊆ h3).
  { apply insert_subseteq_r; [done|]. by etrans. }
  assert (Hneq : l1 ≠ l2).
  { intros Heq. rewrite <- Heq in Hl2. unfold h1 in Hl2.
    by rewrite lookup_insert_eq in Hl2. }
  assert (Hflip : (rows ← items l1; row ← getitem rows (Z.of_nat k); r ← as_ref row;
                   vs ← items r;
                   vs' ← for_list (λ v, x ← as_float v; mret (Float (- x))) vs;
                   r' ← new vs'; setitem l1 (Z.of_nat k) (Ref r'))
                  (set_heap <[l1 := rows]> w)
                 = Done tt (set_heap (λ _, h3) w)).
  { mstep. unfold items at 1. cbn [heap set_heap]. fold h h1.
    unfold h1 at 1. rewrite lookup_insert_eq.
    mstep. rewrite (getitem_lookup _ _ _ _ Hck). mstep. mstep.
    unfold items at 1. cbn [heap set_heap]. fold h h1.
    rewrite (lookup_weaken _ _ _ _ Hrk Hh1).
    mstep. rewrite negate_loop. mstep. unfold new at 1. cbn [heap set_heap].
    fold h h1 l2. unfold setitem. mstep. unfold items at 1. cbn [heap set_heap].
    fold h h1 h2.
    assert (h2 !! l1 = Some rows) as ->.
    { eapply lookup_weaken; [|exact Hh2]. apply lookup_insert_eq. }
    replace (Py.index (length rows) (Z.of_nat k)) with (Some k).
    2:{ unfold Py.index. rewrite bool_decide_true by lia. by rewrite Nat2Z.id. }
    reflexivity. }
  mstep. rewrite Hflip.
  destruct (pick_rows (permutation c) l1 rows' (negate_row k F) (set_heap (λ _, h3) w))
    as (l' & h' & Hrun & Hh' & HT'); [done|apply lookup_insert_eq| | |].
  { cbn [heap set_heap]. unfold rows', negate_row.
    apply Forall2_lookup. intros i. destruct (decide (i = k)) as [->|Hik].
    - rewrite list_lookup_insert_eq by lia. rewrite list_lookup_alter_eq, HFk.
      constructor. apply read_row_Some. exists l2. split; [done|].
      unfold h3. rewrite lookup_insert_ne by done. apply lookup_insert_eq.
    - rewrite list_lookup_insert_ne, list_lookup_alter_ne by done.
      rewrite Forall2_lookup in Hrows. specialize (Hrows i).
      destruct Hrows; constructor. by eapply read_row_mono. }
  { unfold negate_row. by rewrite length_alter. }
  exists l', h'. rewrite Hrun. split; [done|]. split; [by etrans|done].
Qed.

(** ** One iteration, and the loop *)

Section search.
Context (E : env) (number_option : string) (grad_mrtrix grad_fsl : nat).
Context (T F : list (list Z)).
Context (tools_ok : ∀ cmd, succeeds E cmd = true).
Context (T_rows : Forall (λ row, length row = 4%nat) T) (F_rows : length F = 3%nat).

Lemma evaluate_spec c w :
  c ∈ candidates →
  read_table (heap w) grad_mrtrix = Some T →
  read_table (heap w) grad_fsl = Some F →
  ∃ h', heap w ⊆ h' ∧
    evaluate E number_option grad_mrtrix grad_fsl c w
    = Done tt (World h' (scratch w)
                 (write_all (artifacts T F [c]) (files w))
                 (invoked w ++ commands number_option [c])
                 (lengths w ++ results E [c]) (printed w)).
Proof.
  intros (Hf & Hp & Hb)%candidates_elem_of HT HF.
  unfold evaluate, artifacts, commands, results, write_all, grad_path, grad_option,
    transformed.
  cbn [mbind list_bind foldl fst snd app fmap list_fmap].
  unfold grad_basis in Hb.
  apply elem_of_cons in Hb as [Hb|Hb]; [|apply list_elem_of_singleton in Hb];
    rewrite Hb; cbn [String.eqb Ascii.eqb Bool.eqb].
  - destruct (scanner_table_spec c grad_mrtrix T w) as (l & h' & Hrun & Hh' & HT');
      [done..|].
    exists h'. split; [done|].
    mstep. mstep. rewrite Hrun. mstep. unfold write_table at 1. cbn [heap set_heap].
    rewrite HT'. msimpl. mstep. unfold run_command at 1. rewrite tools_ok.
    mstep. unfold run_command at 1. rewrite tools_ok.
    unfold append_lengths, set_invoked, set_files, set_lengths, set_heap.
    cbn [heap scratch files invoked lengths printed foldr].
    by rewrite <- app_assoc.
  - destruct (image_table_spec c grad_fsl F w) as (l & h' & Hrun & Hh' & HT');
      [done..|].
    exists h'. split; [done|].
    mstep. mstep. rewrite Hrun. mstep. unfold write_table at 1. cbn [heap set_heap].
    rewrite HT'. msimpl. mstep. unfold run_command at 1. rewrite tools_ok.
    mstep. unfold run_command at 1. rewrite tools_ok.
    unfold append_lengths, set_invoked, set_files, set_lengths, set_heap.
    cbn [heap scratch files invoked lengths printed foldr].
    by rewrite <- app_assoc.
Qed.

Lemma for_each_evaluate cs w :
  (∀ c, c ∈ cs → c ∈ candidates) →
  read_table (heap w) grad_mrtrix = Some T →
  read_table (heap w) grad_fsl = Some F →
  ∃ h', heap w ⊆ h' ∧
    for_each (evaluate E number_option grad_mrtrix grad_fsl) cs w
    = Done tt (World h' (scratch w)
                 (write_all (artifacts T F cs) (files w))
                 (invoked w ++ commands number_option cs)
                 (lengths w ++ results E cs) (printed w)).
Proof.
  revert w. induction cs as [|c cs IH]; intros w Hcs HT HF.
  - exists (heap w). split; [done|]. cbn. rewrite !app_nil_r. by destruct w.
  - destruct (evaluate_spec c w) as (h1 & Hh1 & Hrun1); [apply Hcs; by left|done..|].
    cbn [for_each]. mstep. rewrite Hrun1.
    match goal with |- context [for_each _ cs ?w1] =>
      destruct (IH w1) as (h' & Hh' & Hrun) end.
    { intros c' Hc'. apply Hcs. by right. }
    { by eapply read_table_mono. }
    { by eapply read_table_mono. }
    exists h'. split; [by etrans|]. rewrite Hrun.
    cbn [heap scratch files invoked lengths printed].
    unfold write_all, artifacts, commands, results.
    rewrite !bind_cons, foldl_app, fmap_cons, <- !app_assoc. reflexivity.
Qed.

Lemma search_spec w :
  read_table (heap w) grad_mrtrix = Some T →
  read_table (heap w) grad_fsl = Some F →
  ∃ h', heap w ⊆ h' ∧
    search E number_option grad_mrtrix grad_fsl w
    = Done tt (World h' (scratch w)
                 (write_all (artifacts T F candidates) (files w))
                 (invoked w ++ commands number_option candidates)
                 (lengths w ++ results E candidates) (printed w)).
Proof. intros. rewrite search_candidates. by apply for_each_evaluate. Qed.
End search.

(** ** Files written by the loop *)

Lemma write_all_lookup_ne l fs k : k ∉ l.*1 → write_all l fs !! k = fs !! k.
Proof.
  unfold write_all. revert fs. induction l as [|[k' v'] l IH]; intros fs Hk; [done|].
  cbn in *. rewrite not_elem_of_cons in Hk. destruct Hk as [Hk Hl].
  rewrite IH by done. by rewrite lookup_insert_ne.
Qed.

Lemma write_all_lookup l fs k v :
  NoDup l.*1 → (k, v) ∈ l → write_all l fs !! k = Some v.
Proof.
  unfold write_all. revert fs. induction l as [|[k' v'] l IH]; intros fs Hnd Hkv.
  - by apply elem_of_nil in Hkv.
  - cbn in *. apply NoDup_cons in Hnd as [Hk' Hnd].
    apply elem_of_cons in Hkv as [[= -> ->]|Hkv].
    + fold (write_all l (<[k':=v']> fs)). rewrite write_all_lookup_ne by done.
      apply lookup_insert_eq.
    + by apply IH.
Qed.

Lemma artifacts_keys T F cs :
  (artifacts T F cs).*1 = c ← cs; [grad_path c; tracks c].
Proof.
  unfold artifacts. induction cs as [|c cs IH]; [done|].
  rewrite !bind_cons, fmap_app, IH. reflexivity.
Qed.

(** The 96 files of the 48 iterations have pairwise different names,
    none of which is [bvals]. *)
Lemma artifacts_NoDup T F : NoDup (artifacts T F candidates).*1.
Proof.
  rewrite artifacts_keys. apply (bool_decide_unpack _). vm_compute. exact I.
Qed.

Lemma artifacts_bvals T F : "bvals" ∉ (artifacts T F candidates).*1.
Proof.
  rewrite artifacts_keys. apply (bool_decide_unpack _). vm_compute. exact I.
Qed.

Lemma artifacts_lookup T F c fs :
  c ∈ candidates →
  write_all (artifacts T F candidates) fs !! grad_path c = Some (transformed T F c).
Proof.
  intros Hc. apply write_all_lookup; [apply artifacts_NoDup|].
  unfold artifacts. apply list_elem_of_bind. exists c. split; [by left|done].
Qed.

(** ** No object of the heap at loop entry is ever updated *)

Section keeps.
Context (h0 : gmap nat (list cell)).

Lemma keeps_ret {A} (a : A) (Q : A → Prop) : Q a → keeps h0 (mret a) Q.
Proof. by intros HQ w Hw. Qed.

Lemma keeps_raise {A} e (Q : A → Prop) : keeps h0 (raise e) Q.
Proof. by intros w Hw. Qed.

Lemma keeps_bind {A B} (m : M A) (k : A → M B) (Q : A → Prop) (R : B → Prop) :
  keeps h0 m Q → (∀ a, Q a → keeps h0 (k a) R) → keeps h0 (m ≫= k) R.
Proof.
  intros Hm Hk w Hw. rewrite bind_unfold. specialize (Hm w Hw).
  destruct (m w) as [a w'|e w']; [|done]. destruct Hm as [Hw' Ha].
  by apply Hk.
Qed.

Lemma keeps_weaken {A} (m : M A) (Q R : A → Prop) :
  keeps h0 m Q → (∀ a, Q a → R a) → keeps h0 m R.
Proof.
  intros Hm HQR w Hw. specialize (Hm w Hw). destruct (m w); naive_solver.
Qed.

(** Reading never changes the heap. *)
Lemma keeps_pure {A} (m : M A) :
  (∀ w, heap (world_of (m w)) = heap w) → keeps h0 m (λ _, True).
Proof.
  intros Hm w Hw. specialize (Hm w). destruct (m w); simpl in Hm; by rewrite Hm.
Qed.

Lemma keeps_items l : keeps h0 (items l) (λ _, True).
Proof. apply keeps_pure. intros w. unfold items. by destruct (heap w !! l). Qed.

Lemma keeps_as_ref c : keeps h0 (as_ref c) (λ _, True).
Proof. apply keeps_pure. by destruct c. Qed.

Lemma keeps_as_float c : keeps h0 (as_float c) (λ _, True).
Proof. apply keeps_pure. by destruct c. Qed.

Lemma keeps_getitem vs i : keeps h0 (getitem vs i) (λ _, True).
Proof.
  apply keeps_pure. intros w. unfold getitem.
  destruct (Py.index _ _); [|done]. by destruct (vs !! _).
Qed.

(** A new object is not one of [h0]. *)
Lemma keeps_new vs : keeps h0 (new vs) (λ l, h0 !! l = None).
Proof.
  intros w Hw. unfold new. cbn [heap set_heap].
  pose proof (fresh_heap (heap w)) as Hfresh. split.
  - etrans; [done|]. apply heap_extend.
  - destruct (h0 !! fresh (dom (heap w))) eqn:Hl; [|done].
    by rewrite (lookup_weaken _ _ _ _ Hl Hw) in Hfresh.
Qed.

(** Updating an object that is not one of [h0]. *)
Lemma keeps_setitem l i v : h0 !! l = None → keeps h0 (setitem l i v) (λ _, True).
Proof.
  intros Hl. unfold setitem. eapply keeps_bind; [apply keeps_items|].
  intros vs _. destruct (Py.index _ _); [|apply keeps_raise].
  intros w Hw. unfold store. cbn [heap set_heap]. split; [|done].
  by apply insert_subseteq_r.
Qed.

Lemma keeps_for_list {A B} (body : A → M B) (l : list A) :
  (∀ x, keeps h0 (body x) (λ _, True)) → keeps h0 (for_list body l) (λ _, True).
Proof.
  intros Hbody. induction l as [|x l IH]; cbn [for_list].
  - by apply keeps_ret.
  - eapply keeps_bind; [apply Hbody|]. intros y _.
    eapply keeps_bind; [apply IH|]. intros ys _. by apply keeps_ret.
Qed.

Lemma keeps_for_each {A} (body : A → M unit) (l : list A) :
  (∀ x, keeps h0 (body x) (λ _, True)) → keeps h0 (for_each body l) (λ _, True).
Proof.
  intros Hbody. induction l as [|x l IH]; cbn [for_each].
  - by apply keeps_ret.
  - eapply keeps_bind; [apply Hbody|]. intros _ _. apply IH.
Qed.

Lemma keeps_copy_copy l : keeps h0 (copy_copy l) (λ l', h0 !! l' = None).
Proof.
  unfold copy_copy. eapply keeps_bind; [apply keeps_items|].
  intros vs _. apply keeps_new.
Qed.

Lemma keeps_comprehension f grad :
  (∀ vs, keeps h0 (f vs) (λ _, True)) →
  keeps h0 (comprehension f grad) (λ l, h0 !! l = None).
Proof.
  intros Hf. unfold comprehension. eapply keeps_bind; [apply keeps_items|].
  intros rows _. eapply keeps_bind; [|intros rows' _; apply keeps_new].
  apply keeps_for_list. intros row.
  eapply keeps_bind; [apply keeps_as_ref|]. intros r _.
  eapply keeps_bind; [apply keeps_items|]. intros vs _.
  eapply keeps_bind; [apply Hf|]. intros vs' _.
  eapply keeps_bind; [apply keeps_new|]. intros r' _. by apply keeps_ret.
Qed.

Lemma keeps_scale multiplier row : keeps h0 (scale multiplier row) (λ _, True).
Proof.
  unfold scale. eapply keeps_bind; [apply keeps_items|]. intros ms _.
  apply keeps_for_list. intros rm.
  eapply keeps_bind; [apply keeps_as_float|]. intros r _.
  eapply keeps_bind; [apply keeps_as_float|]. intros m _. by apply keeps_ret.
Qed.

Lemma keeps_pick p row : keeps h0 (pick p row) (λ _, True).
Proof.
  unfold pick. do 4 (eapply keeps_bind; [apply keeps_getitem|]; intros ? _).
  by apply keeps_ret.
Qed.

Lemma keeps_scanner_table c grad_mrtrix :
  keeps h0 (scanner_table c grad_mrtrix) (λ _, True).
Proof.
  unfold scanner_table. eapply keeps_bind; [apply keeps_copy_copy|].
  intros grad Hgrad.
  eapply keeps_bind with (Q := λ _, True).
  - destruct (flip c) as [s|f]; [by apply keeps_ret|].
    eapply keeps_bind; [apply keeps_new|]. intros multiplier Hm.
    eapply keeps_bind; [by apply keeps_setitem|]. intros _ _.
    eapply keeps_weaken; [apply keeps_comprehension|done].
    intros vs. apply keeps_scale.
  - intros grad' _. eapply keeps_weaken; [apply keeps_comprehension|done].
    intros vs. apply keeps_pick.
Qed.

Lemma keeps_image_table c grad_fsl :
  keeps h0 (image_table c grad_fsl) (λ _, True).
Proof.
  unfold image_table. eapply keeps_bind; [apply keeps_copy_copy|].
  intros grad Hgrad.
  eapply keeps_bind with (Q := λ _, True).
  - destruct (flip c) as [s|f]; [by apply keeps_ret|].
    eapply keeps_bind; [apply keeps_items|]. intros rows _.
    eapply keeps_bind; [apply keeps_getitem|]. intros row _.
    eapply keeps_bind; [apply keeps_as_ref|]. intros r _.
    eapply keeps_bind; [apply keeps_items|]. intros vs _.
    eapply keeps_bind with (Q := λ _, True).
    { apply keeps_for_list. intros v.
      eapply keeps_bind; [apply keeps_as_float|]. intros x _. by apply keeps_ret. }
    intros vs' _. eapply keeps_bind; [apply keeps_new|]. intros r' _.
    by apply keeps_setitem.
  - intros _ _. eapply keeps_bind; [apply keeps_items|]. intros rows _.
    do 3 (eapply keeps_bind; [apply keeps_getitem|]; intros ? _).
    eapply keeps_weaken; [apply keeps_new|done].
Qed.

Lemma keeps_write_table path sep grad : keeps h0 (write_table path sep grad) (λ _, True).
Proof.
  apply keeps_pure. intros w. unfold write_table. by destruct (read_table _ _).
Qed.

Lemma keeps_run_command E cmd outputs : keeps h0 (run_command E cmd outputs) (λ _, True).
Proof.
  apply keeps_pure. intros w. unfold run_command. by destruct (succeeds E cmd).
Qed.

Lemma keeps_evaluate E number_option grad_mrtrix grad_fsl c :
  keeps h0 (evaluate E number_option grad_mrtrix grad_fsl c) (λ _, True).
Proof.
  unfold evaluate. eapply keeps_bind with (Q := λ _, True).
  - destruct (String.eqb (basis c) "scanner").
    + eapply keeps_bind; [apply keeps_scanner_table|]. intros grad _.
      eapply keeps_bind; [apply keeps_write_table|]. intros _ _. by apply keeps_ret.
    + destruct (String.eqb (basis c) "image"); [|apply keeps_raise].
      eapply keeps_bind; [apply keeps_image_table|]. intros grad _.
      eapply keeps_bind; [apply keeps_write_table|]. intros _ _. by apply keeps_ret.
  - intros grad_option _.
    eapply keeps_bind; [apply keeps_run_command|]. intros _ _.
    eapply keeps_bind; [apply keeps_run_command|]. intros _ _.
    by apply keeps_pure.
Qed.
End keeps.

(** ** Before the loop *)

Lemma runs_bind {A B} (m : M A) (k : A → M B) w (Q : A → world → Prop)
    (R : B → world → Prop) :
  runs m w Q → (∀ a w', Q a w' → runs (k a) w' R) → runs (m ≫= k) w R.
Proof.
  intros (a & w' & Hm & HQ) Hk. destruct (Hk a w' HQ) as (b & w'' & Hka & HR).
  exists b, w''. split; [|done]. by rewrite (bind_done _ _ _ _ _ Hm).
Qed.

Lemma runs_ret {A} (a : A) w (Q : A → world → Prop) : Q a w → runs (mret a) w Q.
Proof. intros HQ. by exists a, w. Qed.

Lemma quiet_refl w : quiet w w.
Proof.
  repeat split; try done. exists []. split; [by rewrite app_nil_r|constructor].
Qed.

Lemma quiet_trans w1 w2 w3 : quiet w1 w2 → quiet w2 w3 → quiet w1 w3.
Proof.
  intros (Hl1 & Hp1 & Hf1 & cs1 & Hi1 & Hc1) (Hl2 & Hp2 & Hf2 & cs2 & Hi2 & Hc2).
  repeat split; [congruence|congruence|auto|].
  exists (cs1 ++ cs2). split; [by rewrite Hi2, Hi1, app_assoc|by apply Forall_app].
Qed.

Lemma quiet_heap f w : quiet w (set_heap f w).
Proof.
  repeat split; try done. exists []. split; [by rewrite app_nil_r|constructor].
Qed.

Lemma quiet_scratch b w : quiet w (set_scratch b w).
Proof.
  repeat split; try done. exists []. split; [by rewrite app_nil_r|constructor].
Qed.

Lemma quiet_file name x w : quiet w (set_files <[name := x]> w).
Proof.
  repeat split; try done.
  - intros k Hk. cbn. destruct (decide (name = k)) as [->|];
      [rewrite lookup_insert_eq|rewrite lookup_insert_ne by done]; eauto.
  - exists []. split; [by rewrite app_nil_r|constructor].
Qed.

Lemma outputs_lookup (outputs : list string) (fs : gmap string artifact) name :
  is_Some (fs !! name) ∨ name ∈ outputs →
  is_Some (foldr (λ f, <[f := External]>) fs outputs !! name).
Proof.
  induction outputs as [|o outputs IH]; cbn.
  - intros [?|[]%elem_of_nil]. done.
  - intros H. destruct (decide (o = name)) as [->|Hne].
    + rewrite lookup_insert_eq. eauto.
    + rewrite lookup_insert_ne by done. apply IH.
      destruct H as [?|[?|?]%elem_of_cons]; [by left|done|by right].
Qed.

Section prepare.
Context (E : env) (a : args).
Context (tools_ok : ∀ cmd, succeeds E cmd = true).
Context (files_ok : ∀ path, readable E path = true).

Lemma run_command_runs cmd outputs w :
  is_tckgen cmd = false →
  runs (run_command E cmd outputs) w
    (λ _ w', quiet w w' ∧ ∀ name, name ∈ outputs → is_Some (files w' !! name)).
Proof.
  intros Hcmd. unfold run_command. rewrite tools_ok. eexists _, _. split; [done|].
  split.
  - repeat split; try done.
    + intros name Hname. cbn. apply outputs_lookup. by left.
    + exists [cmd]. split; [done|]. by repeat constructor.
  - intros name Hname. cbn. apply outputs_lookup. by right.
Qed.

Lemma shutil_copy_runs src dst w :
  runs (shutil_copy E src dst) w (λ _ w', quiet w w' ∧ is_Some (files w' !! dst)).
Proof.
  unfold shutil_copy. rewrite files_ok. eexists _, _. split; [done|].
  split; [apply quiet_file|]. cbn. rewrite lookup_insert_eq. eauto.
Qed.

Lemma load_runs m w :
  runs (load m) w (λ l w', quiet w w' ∧ files w' = files w ∧
                           heap w ⊆ heap w' ∧ read_table (heap w') l = Some m).
Proof.
  unfold load.
  assert (Hrows : ∀ w, ∃ rows h',
    for_list (λ r, l ← new (Float <$> r); mret (Ref l)) m w
    = Done rows (set_heap (λ _, h') w) ∧ heap w ⊆ h' ∧
    Forall2 (λ c xs, read_row h' c = Some xs) rows m).
  { clear w. induction m as [|xs m IH]; intros w.
    - exists [], (heap w). by rewrite set_heap_id.
    - set (l := fresh (dom (heap w))).
      destruct (IH (set_heap <[l := Float <$> xs]> w)) as (rows & h' & Hrun & Hh' & Hrows).
      exists (Ref l :: rows), h'. split; [|split].
      + cbn [for_list]. mstep. mstep. unfold new at 1. fold l. msimpl. mstep.
        by rewrite Hrun.
      + etrans; [|done]. apply heap_extend.
      + constructor; [|done]. apply read_row_Some. exists l. split; [done|].
        eapply lookup_weaken; [|done]. apply lookup_insert_eq. }
  destruct (Hrows w) as (rows & h' & Hrun & Hh' & Hread).
  eexists _, _. split; [by rewrite bind_unfold, Hrun|].
  split; [eapply quiet_trans; apply quiet_heap|].
  cbn [heap set_heap files]. split; [done|]. split.
  - etrans; [done|]. apply heap_extend.
  - apply read_table_Some. exists rows. split; [apply lookup_insert_eq|].
    eapply Forall2_impl; [done|]. intros c xs. apply read_row_mono, heap_extend.
Qed.

Lemma read_matrix_runs name m w :
  is_Some (files w !! name) →
  runs (read_matrix name m) w
    (λ l w', quiet w w' ∧ files w' = files w ∧
             heap w ⊆ heap w' ∧ read_table (heap w') l = Some m).
Proof.
  intros [x Hx]. unfold runs, read_matrix. rewrite Hx. apply load_runs.
Qed.

(** Sequencing of steps that are each quiet. *)
Lemma runs_quiet {A B} (m : M A) (k : A → M B) w (P : A → world → Prop)
    (R : B → world → Prop) :
  runs m w (λ x w', quiet w w' ∧ P x w') →
  (∀ x w', quiet w w' → P x w' → runs (k x) w' (λ y w'', quiet w' w'' ∧ R y w'')) →
  runs (m ≫= k) w (λ y w'', quiet w w'' ∧ R y w'').
Proof.
  intros Hm Hk. eapply runs_bind; [exact Hm|].
  intros x w' [Hq HP]. destruct (Hk x w' Hq HP) as (y & w'' & Hrun & Hq' & HR).
  exists y, w''. split; [done|]. split; [by eapply quiet_trans|done].
Qed.

Lemma if_isfile_runs name cmd1 outputs1 cmd2 outputs2 other w :
  is_tckgen cmd1 = false → is_tckgen cmd2 = false →
  name ∈ outputs1 → name ∈ outputs2 →
  runs (if_isfile name (mret tt)
          (if_isfile other (run_command E cmd1 outputs1) (run_command E cmd2 outputs2))) w
    (λ _ w', quiet w w' ∧ is_Some (files w' !! name)).
Proof.
  intros H1 H2 Ho1 Ho2. unfold runs, if_isfile.
  destruct (files w !! name) as [x|] eqn:Hname; cbn [given].
  - eexists _, _. split; [done|]. split; [apply quiet_refl|]. rewrite Hname. eauto.
  - destruct (given (files w !! other)).
    + destruct (run_command_runs cmd1 outputs1 w H1) as (u & w' & Hrun & Hq & Hout).
      exists u, w'. auto.
    + destruct (run_command_runs cmd2 outputs2 w H2) as (u & w' & Hrun & Hq & Hout).
      exists u, w'. auto.
Qed.

Lemma prepare_runs x y z n :
  given (grad a) && given (fslgrad a) = false →
  given (export_grad_mrtrix a) && given (export_grad_fsl a) = false →
  header_size E (input a) = [x; y; z; n] →
  py_min [x; y; z; n] ≠ Some 1 →
  runs (prepare E a) initial
    (λ loaded w, quiet initial w ∧ loaded.1 = n ∧
       read_table (heap w) loaded.2.1 = Some (grad_b E) ∧
       read_table (heap w) loaded.2.2 = Some (bvecs E)).
Proof.
  intros Himport Hexport Hsize Hmin. unfold prepare.
  apply runs_quiet with (P := λ _ _, True).
  { unfold parse. rewrite Himport, Hexport. apply runs_ret. split; [apply quiet_refl|done]. }
  intros _ w1 _ _.
  apply runs_quiet with (P := λ dims _, dims = [x; y; z; n]).
  { eexists _, _. split; [done|]. split; [|done].
    repeat split; try done. eexists [_]. split; [done|]. by repeat constructor. }
  intros dims w2 _ ->. cbn [length Nat.eqb negb when].
  apply runs_quiet with (P := λ _ _, True).
  { apply runs_ret. split; [apply quiet_refl|done]. }
  intros _ w3 _ _. rewrite bool_decide_false by done. cbn [when].
  apply runs_quiet with (P := λ _ _, True).
  { apply runs_ret. split; [apply quiet_refl|done]. }
  intros _ w4 _ _.
  apply runs_quiet with (P := λ _ _, True).
  { eexists _, _. split; [done|]. split; [apply quiet_scratch|done]. }
  intros _ w5 _ _.
  apply runs_quiet with (P := λ _ _, True).
  { destruct (run_command_runs
      ("mrconvert " +:+ input a +:+ " " +:+ toTemp E "data.mif" true
       +:+ " -stride 0,0,0,1 -datatype float32") ["data.mif"] w5 eq_refl)
      as (u & w' & Hrun & Hq & _). by exists u, w'. }
  intros _ w6 _ _.
  apply runs_quiet with (P := λ _ _, True).
  { destruct (truthy (grad a)).
    - destruct (shutil_copy_runs (fromUser E (default "" (grad a)) false) "grad.b" w6)
        as (u & w' & Hrun & Hq & _). by exists u, w'.
    - destruct (fslgrad a) as [[vecs vals]|].
      + apply runs_quiet with (P := λ _ _, True).
        { destruct (shutil_copy_runs (fromUser E vecs false) "bvecs" w6)
            as (u & w' & Hrun & Hq & _). by exists u, w'. }
        intros _ w' _ _.
        destruct (shutil_copy_runs (fromUser E vals false) "bvals" w')
          as (u & w'' & Hrun & Hq & _). by exists u, w''.
      + apply runs_ret. split; [apply quiet_refl|done]. }
  intros _ w7 _ _.
  apply runs_quiet with (P := λ _ _, True).
  { destruct (truthy (mask a)); cbn [when].
    - destruct (run_command_runs
        ("mrconvert " +:+ fromUser E (default "" (mask a)) true +:+ " "
         +:+ toTemp E "mask.mif" true +:+ " -datatype bit") ["mask.mif"] w7 eq_refl)
        as (u & w' & Hrun & Hq & _). by exists u, w'.
    - apply runs_ret. split; [apply quiet_refl|done]. }
  intros _ w8 _ _.
  apply runs_quiet with (P := λ _ w', is_Some (files w' !! "grad.b")).
  { apply if_isfile_runs; try done; by left. }
  intros _ w9 _ Hgrad_b.
  apply runs_quiet with (P := λ _ w', is_Some (files w' !! "bvecs") ∧
                                      is_Some (files w' !! "grad.b")).
  { destruct (if_isfile_runs "bvecs"
      "mrinfo data.mif -grad grad.b -export_grad_fsl bvecs bvals" ["bvecs"; "bvals"]
      "mrinfo data.mif -export_grad_fsl bvecs bvals" ["bvecs"; "bvals"] "grad.b" w9)
      as (u & w' & Hrun & Hq & Hbvecs); [done|done|by left|by left|].
    exists u, w'. split; [done|]. split; [done|]. split; [done|].
    destruct Hq as (_ & _ & Hfiles & _). by apply Hfiles. }
  intros _ w10 _ [Hbvecs Hgrad_b'].
  apply runs_quiet with (P := λ l w', is_Some (files w' !! "bvecs") ∧
                                      read_table (heap w') l = Some (grad_b E)).
  { destruct (read_matrix_runs "grad.b" (grad_b E) w10 Hgrad_b')
      as (l & w' & Hrun & Hq & Hfiles & _ & Hread).
    exists l, w'. split; [done|]. split; [done|]. by rewrite Hfiles. }
  intros grad_mrtrix w11 _ [Hbvecs' Hmrtrix].
  apply runs_quiet with (P := λ l w', read_table (heap w') grad_mrtrix = Some (grad_b E) ∧
                                      read_table (heap w') l = Some (bvecs E)).
  { destruct (read_matrix_runs "bvecs" (bvecs E) w11 Hbvecs')
      as (l & w' & Hrun & Hq & _ & Hheap & Hread).
    exists l, w'. split; [done|]. split; [done|]. split; [|done].
    by eapply read_table_mono. }
  intros grad_fsl w12 _ [Hmrtrix' Hfsl].
  apply runs_ret. split; [apply quiet_refl|done].
Qed.
End prepare.

Lemma check_tables_eq num_volumes grad_mrtrix grad_fsl T F w :
  read_table (heap w) grad_mrtrix = Some T →
  read_table (heap w) grad_fsl = Some F →
  check_tables num_volumes grad_mrtrix grad_fsl w
  = match table_error num_volumes T F with
    | None => Done tt w
    | Some message => Raise (GradientTableMismatchError message) w
    end.
Proof.
  intros (rows & Hgm & Hrows)%read_table_Some (rows' & Hgf & Hrows')%read_table_Some.
  unfold check_tables, table_error.
  pose proof (Forall2_length _ _ _ Hrows) as Hlen.
  pose proof (Forall2_length _ _ _ Hrows') as Hlen'.
  mstep. unfold items at 1. rewrite Hgm, Hlen.
  destruct (bool_decide (Z.of_nat (length T) = num_volumes)); cbn [negb]; msimpl;
    [|done].
  mstep. mstep. unfold items at 1. rewrite Hgf, Hlen'.
  destruct (length F =? 3)%nat eqn:HF; cbn [negb]; [|done].
  apply Nat.eqb_eq in HF.
  destruct rows' as [|c rows']; [cbn in Hlen'; lia|].
  destruct F as [|row F]; [done|]. apply Forall2_cons in Hrows' as [Hc _].
  apply read_row_Some in Hc as (r & -> & Hr).
  mstep. mstep. rewrite (getitem_lookup _ 0 (Ref r)) by done. mstep. mstep.
  unfold items at 1. rewrite Hr. msimpl. rewrite length_fmap. cbn [lookup list_lookup].
  by destruct (bool_decide (Z.of_nat (length row) = num_volumes)).
Qed.

(** ** The whole script *)

Section main.
Context (E : env) (a : args) (num_volumes : Z).
Context (Hcoop : cooperative E) (Hargs : compatible a).
Context (Himage : image_ok E a num_volumes).

(** A table mismatch stops the run before any candidate is evaluated. *)
Lemma main_mismatch message :
  table_error num_volumes (grad_b E) (bvecs E) = Some message →
  ∃ w, main E a initial = Raise (GradientTableMismatchError message) w ∧
       quiet initial w.
Proof.
  intros Herr. destruct Hcoop as [Htools Hfiles], Hargs as [Hi He].
  destruct Himage as (x & y & z & Hsize & Hmin).
  destruct (prepare_runs E a Htools Hfiles x y z num_volumes Hi He Hsize Hmin)
    as ([n [gm gf]] & w & Hrun & Hq & Hn & Hgm & Hgf). cbn in Hn, Hgm, Hgf. subst n.
  exists w. split; [|done]. unfold main. mstep. rewrite Hrun. cbn [fst snd].
  mstep. by rewrite (check_tables_eq _ _ _ _ _ _ Hgm Hgf), Herr.
Qed.

Context (Htables : table_error num_volumes (grad_b E) (bvecs E) = None).
Context (Hrows : Forall (λ row, length row = 4%nat) (grad_b E)).

Lemma bvecs_rows : length (bvecs E) = 3%nat.
Proof.
  unfold table_error in Htables.
  destruct (negb (bool_decide _)); [done|].
  destruct (length (bvecs E) =? 3)%nat eqn:H; [|done]. by apply Nat.eqb_eq.
Qed.

(** With cooperative tools and consistent input the script reaches the
    end of the search loop; [lengths] then holds one entry per
    candidate, in generation order, and every candidate's table is on
    disk. *)
Lemma main_search :
  ∃ w pre,
    main E a initial = (report E;; export E a) w ∧
    lengths w = results E candidates ∧ printed w = [] ∧
    invoked w = pre ++ commands (select (number a)) candidates ∧
    Forall (λ cmd, is_tckgen cmd = false) pre ∧
    ∀ c, c ∈ candidates →
      files w !! grad_path c = Some (transformed (grad_b E) (bvecs E) c).
Proof.
  destruct Hcoop as [Htools Hfiles], Hargs as [Hi He].
  destruct Himage as (x & y & z & Hsize & Hmin).
  destruct (prepare_runs E a Htools Hfiles x y z num_volumes Hi He Hsize Hmin)
    as ([n [gm gf]] & w0 & Hrun & Hq & Hn & Hgm & Hgf). cbn in Hn, Hgm, Hgf. subst n.
  assert (∃ w1, quiet w0 w1 ∧ heap w1 = heap w0 ∧
    if_isfile "mask.mif" (mret tt)
      (run_command E "dwi2mask data.mif mask.mif" ["mask.mif"]) w0 = Done tt w1)
    as (w1 & Hq1 & Hheap & Hmask).
  { unfold if_isfile. destruct (given (files w0 !! "mask.mif")).
    - exists w0. split; [apply quiet_refl|done].
    - destruct (run_command_runs E Htools "dwi2mask data.mif mask.mif" ["mask.mif"]
                  w0 eq_refl) as ([] & w1 & Hrun1 & Hq1 & _).
      exists w1. split; [done|]. split; [|done].
      unfold run_command in Hrun1. rewrite Htools in Hrun1. by simplify_eq. }
  pose proof Hgm as Hgm0. pose proof Hgf as Hgf0.
  rewrite <- Hheap in Hgm, Hgf.
  destruct (search_spec E (select (number a)) gm gf (grad_b E) (bvecs E) Htools
              Hrows bvecs_rows w1 Hgm Hgf) as (h' & Hh' & Hsearch).
  destruct (quiet_trans _ _ _ Hq Hq1) as (Hlen & Hprinted & _ & pre & Hinv & Hpre).
  eexists _, pre. split; [|split; [|split; [|split; [|split]]]].
  - unfold main. mstep. rewrite Hrun. cbn [fst snd].
    mstep. rewrite (check_tables_eq _ _ _ _ _ _ Hgm0 Hgf0), Htables.
    mstep. rewrite Hmask. mstep. rewrite Hsearch. reflexivity.
  - cbn. by rewrite Hlen.
  - cbn. by rewrite Hprinted.
  - cbn. by rewrite Hinv.
  - done.
  - intros c Hc. cbn. by apply artifacts_lookup.
Qed.

Lemma export_runs w best rest :
  lengths w = best :: rest → descriptor best ∈ candidates →
  ∃ w' post, export E a w = Done tt w' ∧ printed w' = printed w ∧
    files w' = files w ∧ invoked w' = invoked w ++ post.
Proof.
  intros Hbest (_ & _ & Hb)%candidates_elem_of. destruct Hcoop as [Htools _].
  unfold export.
  match goal with |- context [String.eqb ?o ""] => generalize o; intros option end.
  destruct (String.eqb option "").
  { exists w, []. by rewrite app_nil_r. }
  mstep. unfold best_length at 1. rewrite Hbest.
  unfold grad_basis in Hb.
  apply elem_of_cons in Hb as [Hb|Hb]; [|apply list_elem_of_singleton in Hb];
    rewrite Hb; cbn [String.eqb Ascii.eqb Bool.eqb];
    unfold run_command; rewrite Htools; by eexists _, [_].
Qed.

Lemma results_candidates r : r ∈ results E candidates → descriptor r ∈ candidates.
Proof. unfold results. intros (c & -> & Hc)%list_elem_of_fmap. done. Qed.

(** When the ranking succeeds the script completes and prints it. *)
Lemma main_done ranked :
  rank (interpreter E) (results E candidates) = Some ranked →
  ∃ w pre post,
    main E a initial = Done tt w ∧ printed w = ranked ∧
    invoked w = pre ++ commands (select (number a)) candidates ++ post ∧
    Forall (λ cmd, is_tckgen cmd = false) pre ∧
    ∀ c, c ∈ candidates →
      files w !! grad_path c = Some (transformed (grad_b E) (bvecs E) c).
Proof.
  intros Hrank.
  destruct main_search as (w & pre & Hmain & Hlen & _ & Hinv & Hpre & Hfiles).
  assert (Hperm : ranked ≡ₚ results E candidates).
  { unfold rank in Hrank.
    destruct (Py.sort _ _) as [s|] eqn:Hs; [|done]. simplify_eq.
    rewrite reverse_Permutation. by eapply sort_perm. }
  destruct ranked as [|best rest].
  { by apply Permutation_nil_l in Hperm. }
  destruct (export_runs (set_printed (λ _, best :: rest)
              (set_lengths (λ _, best :: rest) w)) best rest)
    as (w' & post & Hexport & Hprinted & Hfiles' & Hinv'); [done| |].
  { apply results_candidates. rewrite <- Hperm. by left. }
  exists w', pre, post. split; [|split; [|split; [|split]]].
  - rewrite Hmain. mstep. unfold report. by rewrite Hlen, Hrank.
  - by rewrite Hprinted.
  - rewrite Hinv'. cbn. by rewrite Hinv, <- app_assoc.
  - done.
  - intros c Hc. rewrite Hfiles'. cbn. by apply Hfiles.
Qed.

(** When a comparison raises during the sort the script dies with
    [TypeError]. *)
Lemma main_type_error :
  rank (interpreter E) (results E candidates) = None →
  ∃ w, main E a initial = Raise TypeError w.
Proof.
  intros Hrank. destruct main_search as (w & pre & Hmain & Hlen & _).
  exists w. rewrite Hmain. mstep. unfold report. by rewrite Hlen, Hrank.
Qed.
End main.

Lemma results_descriptors E cs : descriptor <$> results E cs = cs.
Proof.
  induction cs as [|c cs IH]; [done|]. unfold results in *.
  rewrite !fmap_cons. by rewrite IH.
Qed.

Lemma results_NoDup E : NoDup (results E candidates).
Proof.
  apply (NoDup_fmap_1 descriptor). rewrite results_descriptors.
  apply candidates_NoDup.
Qed.

(** * The claims *)

(** ** Enumeration *)

(** C2: the loop generates exactly 48 (flip, permutation, basis) triples,
    pairwise distinct; they are exactly the triples of the product
    {none, 0, 1, 2} x {arrangements of (0, 1, 2)} x {scanner, image};
    and the n-th iteration has flip number n / 12, permutation number
    (n / 2) mod 6 and basis number n mod 2, that is, flip is the outer
    loop, permutation the middle loop and basis the inner loop.  The
    search loop of the driver runs its body on these iterations in this
    order. *)
Theorem candidates_enumeration :
  length candidates = 48%nat ∧
  NoDup candidates ∧
  (∀ f a b c s,
     Candidate f (a, b, c) s ∈ candidates ↔
     f ∈ [Py.Str "none"; Py.Int 0; Py.Int 1; Py.Int 2] ∧
     [a; b; c] ≡ₚ [0; 1; 2] ∧ s ∈ ["scanner"; "image"]) ∧
  candidates
  = (λ n, Candidate (nth (n / 12) axis_flips (Py.Str "none"))
                    (nth (n / 2 mod 6) axis_permutations (0, 1, 2))
                    (nth (n mod 2) grad_basis "scanner")) <$> seq 0 48 ∧
  ∀ E number_option grad_mrtrix grad_fsl w,
    search E number_option grad_mrtrix grad_fsl w
    = for_each (evaluate E number_option grad_mrtrix grad_fsl) candidates w.
Proof.
  split; [apply candidates_length|]. split; [apply candidates_NoDup|].
  split; [|split; [reflexivity|apply search_candidates]].
  intros f a b c s. rewrite candidates_elem_of. cbn [flip permutation basis].
  by rewrite axis_permutations_spec.
Qed.

(** ** Ranking *)

Lemma result_lt_defined_py3 a b : ¬ mixed_tie a b → is_Some (result_lt Py.Py3 a b).
Proof.
  intros Hmixed. unfold result_lt, descriptor_lt, result_key, descriptor_key.
  unfold Py.lex at 1. cbn [fst snd].
  destruct (Py.float_eqb (meanlength a) (meanlength b)) eqn:Hmean;
    [|destruct (meanlength a), (meanlength b); by eexists].
  unfold Py.lex at 1. cbn [fst snd].
  destruct (Py.value_eqb _ _);
    [apply (Py.st_defined (lt:=Py.lex Py.tuple_eqb Py.tuple_lt Py.str_lt))|].
  unfold mixed_tie in Hmixed.
  destruct (flip (descriptor a)), (flip (descriptor b)); simpl in *;
    try (by eexists); destruct Hmixed; by split.
Qed.

Lemma rank_defined py (l : list result) :
  py = Py.Py2 ∨ (∀ a b, a ∈ l → b ∈ l → ¬ mixed_tie a b) → is_Some (rank py l).
Proof.
  intros Hpy. unfold rank.
  destruct (sort_defined (result_lt py) l) as [s ->]; [|by eexists].
  intros a b Ha Hb. destruct Hpy as [->|Hl].
  - apply result_lt_defined.
  - destruct py; [apply result_lt_defined|]. apply result_lt_defined_py3. by apply Hl.
Qed.

Lemma result_lt_unfold a b :
  result_lt Py.Py2 b a = Some true →
  Py.float_le (meanlength b) (meanlength a) ∧
  (Py.float_eqb (meanlength a) (meanlength b) = true →
   descriptor_lt Py.Py2 (descriptor_key (descriptor b)) (descriptor_key (descriptor a))
   = Some true).
Proof.
  intros H. destruct (result_lt_true _ _ _ H) as (y & x & Hb & Ha).
  rewrite (result_lt_num _ b a y x) in H by done. rewrite Ha, Hb.
  revert H. unfold Py.lex at 1. cbn [fst snd Py.float_le Py.float_eqb].
  destruct (y =? x) eqn:Hmean.
  - apply Z.eqb_eq in Hmean. intros H. split; [lia|done].
  - apply Z.eqb_neq in Hmean. unfold Py.int_lt. intros [= H]. lia.
Qed.

(** C1 (amended): when no mean length is NaN and the sort completes - it
    always does under Python 2, and under Python 3 unless an entry with
    flip 'none' ties with an entry with a numbered flip - the script
    completes and prints a rearrangement of the 48 results in which mean
    lengths never increase and in which, of two entries with exactly
    equal mean length, the one whose (flip, permutation, basis) is the
    greater comes first: 'none' before 2, 1, 0, then the greater
    permutation, then 'scanner' before 'image'.  Ties are not in
    generation order.  (A NaN answers [False] to every comparison, so
    that the sort of a list with a NaN mean need not leave the means in
    descending order.) *)
Theorem ranking_descending_lexicographic E a num_volumes :
  cooperative E → compatible a → image_ok E a num_volumes →
  table_error num_volumes (grad_b E) (bvecs E) = None →
  Forall (λ row, length row = 4%nat) (grad_b E) →
  no_nan (results E candidates) →
  (interpreter E = Py.Py2 ∨
   (∀ x y, x ∈ results E candidates → y ∈ results E candidates → ¬ mixed_tie x y)) →
  ∃ w ranked,
    main E a initial = Done tt w ∧ printed w = ranked ∧
    ranked ≡ₚ results E candidates ∧
    ∀ i j x y, (i < j)%nat → ranked !! i = Some x → ranked !! j = Some y →
      Py.float_le (meanlength y) (meanlength x) ∧
      (Py.float_eqb (meanlength x) (meanlength y) = true →
       descriptor_lt Py.Py2 (descriptor_key (descriptor y)) (descriptor_key (descriptor x))
       = Some true).
Proof.
  intros Hcoop Hargs Himage Htables Hrows Hnum Hpy.
  destruct (rank_defined (interpreter E) (results E candidates) Hpy) as [ranked Hrank].
  destruct (main_done E a num_volumes Hcoop Hargs Himage Htables Hrows ranked Hrank)
    as (w & pre & post & Hmain & Hprinted & _).
  exists w, ranked. split; [done|]. split; [done|].
  destruct (rank_py2 (results E candidates) (results_NoDup E) Hnum)
    as (ranked' & Hrank' & Hperm & Hsorted).
  rewrite (rank_agrees _ _ _ Hrank) in Hrank'. simplify_eq. split; [done|].
  intros i j x y Hij Hx Hy. apply result_lt_unfold.
  rewrite <- (take_drop_middle _ _ _ Hx) in Hsorted, Hy.
  apply StronglySorted_app_1_r, StronglySorted_cons in Hsorted as [Hall _].
  rewrite Forall_forall in Hall. apply Hall.
  rewrite lookup_app_r in Hy by (rewrite length_take; lia).
  rewrite length_take_le in Hy by (apply lookup_lt_Some in Hx; lia).
  destruct (j - i)%nat as [|k] eqn:Hk; [lia|]. cbn in Hy.
  by eapply list_elem_of_lookup_2.
Qed.

Lemma sample_cooperative py mean : cooperative (sample_env py mean).
Proof. by split. Defined.

Lemma measured_no_nan py mean cs : no_nan (results (sample_env py mean) cs).
Proof. apply Forall_forall. intros r (c & -> & _)%list_elem_of_fmap. discriminate. Defined.

Lemma sample_compatible : compatible sample_args.
Proof. by split. Defined.

Lemma sample_image_ok py mean : image_ok (sample_env py mean) sample_args 2.
Proof. exists 4, 4, 4. split; [reflexivity|]. vm_compute. discriminate. Defined.

Lemma ranking_descending_lexicographic_witness :
  ∃ w ranked,
    main (sample_env Py.Py2 tied_means) sample_args initial = Done tt w ∧
    printed w = ranked ∧
    ranked ≡ₚ results (sample_env Py.Py2 tied_means) candidates ∧
    ∀ i j x y, (i < j)%nat → ranked !! i = Some x → ranked !! j = Some y →
      Py.float_le (meanlength y) (meanlength x) ∧
      (Py.float_eqb (meanlength x) (meanlength y) = true →
       descriptor_lt Py.Py2 (descriptor_key (descriptor y)) (descriptor_key (descriptor x))
       = Some true).
Proof.
  apply (ranking_descending_lexicographic (sample_env Py.Py2 tied_means) sample_args 2).
  - apply sample_cooperative.
  - apply sample_compatible.
  - apply sample_image_ok.
  - reflexivity.
  - repeat constructor.
  - apply measured_no_nan.
  - left. reflexivity.
Defined.

(** C1, as stated, fails: with mean length 1 for the candidates without
    a flip and 2 for all others, the entry of flip 0, permutation
    (0, 1, 2), scanner is generated before the entry of flip 2,
    permutation (2, 1, 0), scanner, they tie, and the printed ranking
    lists the latter first - under Python 3 and under Python 2. *)
Lemma ties_not_in_generation_order :
  ¬ generation_order_on_ties
      (results (sample_env Py.Py3 tied_means) candidates)
      (printed (world_of (main (sample_env Py.Py3 tied_means) sample_args initial))) ∧
  ¬ generation_order_on_ties
      (results (sample_env Py.Py2 tied_means) candidates)
      (printed (world_of (main (sample_env Py.Py2 tied_means) sample_args initial))).
Proof.
  split; intros H;
    specialize (H (Result (Py.Num 2) (Candidate (Py.Int 0) (0, 1, 2) "scanner"))
                  (Result (Py.Num 2) (Candidate (Py.Int 2) (2, 1, 0) "scanner")) eq_refl);
    match type of H with
    | ?earlier = true → ?later = true =>
        assert (Hgenerated : earlier = true) by (vm_compute; reflexivity);
        assert (Hranked : later = false) by (vm_compute; reflexivity)
    end;
    rewrite (H Hgenerated) in Hranked; discriminate.
Qed.

(** C9: under Python 3 the sort is not total.  When every candidate
    yields the same mean length, comparing an entry of flip 'none' with
    an entry of a numbered flip raises [TypeError]; the script dies
    after all 48 evaluations, before anything is printed. *)
Theorem sort_raises_on_mixed_tie :
  let run := main (sample_env Py.Py3 (λ _, 0)) sample_args initial in
  error_of run = Some TypeError ∧
  length (lengths (world_of run)) = 48%nat ∧ printed (world_of run) = [].
Proof. intros run. split; [|split]; vm_compute; reflexivity. Qed.

(** The same happens in every Python 3 run without a NaN mean in which a
    candidate without a flip ties with a candidate with a flip. *)
Lemma python3_mixed_tie_raises E a num_volumes x y :
  cooperative E → compatible a → image_ok E a num_volumes →
  table_error num_volumes (grad_b E) (bvecs E) = None →
  Forall (λ row, length row = 4%nat) (grad_b E) →
  interpreter E = Py.Py3 → no_nan (results E candidates) →
  x ∈ results E candidates → y ∈ results E candidates → mixed_tie x y →
  ∃ w, main E a initial = Raise TypeError w.
Proof.
  intros Hcoop Hargs Himage Htables Hrows Hpy Hnum Hx Hy Hmixed.
  apply (main_type_error E a num_volumes Hcoop Hargs Himage Htables Hrows).
  rewrite Hpy. by apply (rank_py3_mixed_tie _ x y).
Qed.

(** ** Transformed tables *)

Lemma search_files E number_option grad_mrtrix grad_fsl T F w :
  (∀ cmd, succeeds E cmd = true) →
  Forall (λ row, length row = 4%nat) T → length F = 3%nat →
  read_table (heap w) grad_mrtrix = Some T →
  read_table (heap w) grad_fsl = Some F →
  ∃ w', search E number_option grad_mrtrix grad_fsl w = Done tt w' ∧
    (∀ c, c ∈ candidates → files w' !! grad_path c = Some (transformed T F c)) ∧
    files w' !! "bvals" = files w !! "bvals".
Proof.
  intros Htools HT HF Hgm Hgf.
  destruct (search_spec E number_option grad_mrtrix grad_fsl T F Htools HT HF w Hgm Hgf)
    as (h' & _ & Hsearch).
  eexists. split; [exact Hsearch|]. cbn [files]. split.
  - intros c Hc. by apply artifacts_lookup.
  - apply write_all_lookup_ne, artifacts_bvals.
Qed.

(** C3: for every candidate and every loaded table (rows of four values
    in the combined table, three rows in the split one), the file
    written for the candidate holds: for basis scanner, the combined
    table with the flip column negated and then the three direction
    columns reordered by the permutation, the b-value column last; for
    basis image, the split rows with the flip row negated and then
    reordered by the permutation; the file [bvals] is left as it was;
    and for flip 'none' nothing is negated. *)
Theorem transformed_tables_written E number_option grad_mrtrix grad_fsl T F w :
  (∀ cmd, succeeds E cmd = true) →
  Forall (λ row, length row = 4%nat) T → length F = 3%nat →
  read_table (heap w) grad_mrtrix = Some T →
  read_table (heap w) grad_fsl = Some F →
  ∃ w', search E number_option grad_mrtrix grad_fsl w = Done tt w' ∧
    (∀ f p, f ∈ axis_flips → p ∈ axis_permutations →
       files w' !! ("grad" +:+ suffix (Candidate f p "scanner") +:+ ".b")
       = Some (Table "," ((λ row, permute_columns p
                             match f with
                             | Py.Int axis => negate_column (Z.to_nat axis) row
                             | Py.Str _ => row
                             end) <$> T)) ∧
       files w' !! ("bvecs" +:+ suffix (Candidate f p "image"))
       = Some (Table " " (permute_rows p
                            match f with
                            | Py.Int axis => negate_row (Z.to_nat axis) F
                            | Py.Str _ => F
                            end))) ∧
    files w' !! "bvals" = files w !! "bvals".
Proof.
  intros Htools HT HF Hgm Hgf.
  destruct (search_files E number_option grad_mrtrix grad_fsl T F w Htools HT HF Hgm Hgf)
    as (w' & Hsearch & Hfiles & Hbvals).
  exists w'. split; [done|]. split; [|done].
  intros f p Hf Hp. split.
  - apply (Hfiles (Candidate f p "scanner")), candidates_elem_of.
    split; [done|]. split; [done|]. by left.
  - apply (Hfiles (Candidate f p "image")), candidates_elem_of.
    split; [done|]. split; [done|]. right. by left.
Qed.

Lemma transformed_tables_written_witness :
  ∃ w', search (sample_env Py.Py2 tied_means) (select 10000) 2 6 (world_of sample_loaded)
        = Done tt w' ∧
    (∀ f p, f ∈ axis_flips → p ∈ axis_permutations →
       files w' !! ("grad" +:+ suffix (Candidate f p "scanner") +:+ ".b")
       = Some (Table "," ((λ row, permute_columns p
                             match f with
                             | Py.Int axis => negate_column (Z.to_nat axis) row
                             | Py.Str _ => row
                             end) <$> [[1; 0; 0; 1000]; [0; 1; 0; 1000]])) ∧
       files w' !! ("bvecs" +:+ suffix (Candidate f p "image"))
       = Some (Table " " (permute_rows p
                            match f with
                            | Py.Int axis => negate_row (Z.to_nat axis) [[1; 0]; [0; 1]; [0; 0]]
                            | Py.Str _ => [[1; 0]; [0; 1]; [0; 0]]
                            end))) ∧
    files w' !! "bvals" = files (world_of sample_loaded) !! "bvals".
Proof.
  apply (transformed_tables_written (sample_env Py.Py2 tied_means) (select 10000) 2 6
           [[1; 0; 0; 1000]; [0; 1; 0; 1000]] [[1; 0]; [0; 1]; [0; 0]]
           (world_of sample_loaded)).
  - intros cmd. reflexivity.
  - repeat constructor.
  - reflexivity.
  - vm_compute. reflexivity.
  - vm_compute. reflexivity.
Defined.

Lemma permute_columns_id (row : list Z) :
  length row = 4%nat → permute_columns (0, 1, 2) row = row.
Proof. by intros (a & b & c & d & ->)%length_4. Qed.

Lemma permute_rows_id (F : list (list Z)) :
  length F = 3%nat → permute_rows (0, 1, 2) F = F.
Proof. by intros (a & b & c & ->)%length_3. Qed.

(** C8: the candidate with flip 'none' and permutation (0, 1, 2) writes,
    in either basis, exactly the loaded table. *)
Theorem identity_candidate_reproduces_table E number_option grad_mrtrix grad_fsl T F w :
  (∀ cmd, succeeds E cmd = true) →
  Forall (λ row, length row = 4%nat) T → length F = 3%nat →
  read_table (heap w) grad_mrtrix = Some T →
  read_table (heap w) grad_fsl = Some F →
  ∃ w', search E number_option grad_mrtrix grad_fsl w = Done tt w' ∧
    files w' !! "grad_flipnone_perm012_scanner.b" = Some (Table "," T) ∧
    files w' !! "bvecs_flipnone_perm012_image" = Some (Table " " F).
Proof.
  intros Htools HT HF Hgm Hgf.
  destruct (search_files E number_option grad_mrtrix grad_fsl T F w Htools HT HF Hgm Hgf)
    as (w' & Hsearch & Hfiles & _).
  exists w'. split; [done|]. split.
  - change (files w' !! grad_path (Candidate (Py.Str "none") (0, 1, 2) "scanner")
            = Some (Table "," T)).
    rewrite (Hfiles (Candidate (Py.Str "none") (0, 1, 2) "scanner"))
      by (by apply (bool_decide_unpack _)).
    unfold transformed, transformed_scanner. cbn [basis flip permutation String.eqb Ascii.eqb Bool.eqb].
    do 2 f_equal. rewrite <- (list_fmap_id T) at 2.
    apply Forall_fmap_ext. eapply Forall_impl; [done|]. intros row Hrow.
    by apply permute_columns_id.
  - change (files w' !! grad_path (Candidate (Py.Str "none") (0, 1, 2) "image")
            = Some (Table " " F)).
    rewrite (Hfiles (Candidate (Py.Str "none") (0, 1, 2) "image"))
      by (by apply (bool_decide_unpack _)).
    unfold transformed, transformed_image. cbn [basis flip permutation String.eqb Ascii.eqb Bool.eqb].
    by rewrite permute_rows_id.
Qed.

Lemma identity_candidate_reproduces_table_witness :
  ∃ w', search (sample_env Py.Py2 tied_means) (select 10000) 2 6 (world_of sample_loaded)
        = Done tt w' ∧
    files w' !! "grad_flipnone_perm012_scanner.b"
    = Some (Table "," [[1; 0; 0; 1000]; [0; 1; 0; 1000]]) ∧
    files w' !! "bvecs_flipnone_perm012_image"
    = Some (Table " " [[1; 0]; [0; 1]; [0; 0]]).
Proof.
  apply (identity_candidate_reproduces_table (sample_env Py.Py2 tied_means) (select 10000)
           2 6 [[1; 0; 0; 1000]; [0; 1; 0; 1000]] [[1; 0]; [0; 1]; [0; 0]]
           (world_of sample_loaded)).
  - intros cmd. reflexivity.
  - repeat constructor.
  - reflexivity.
  - vm_compute. reflexivity.
  - vm_compute. reflexivity.
Defined.

(** C7: whatever happens in the iterations - including a failing tool
    or an ill-formed table - no list object that exists when the loop
    starts is updated; in particular after each of the 48 iterations
    both loaded tables read exactly as at load time. *)
Theorem loaded_tables_never_mutated E number_option grad_mrtrix grad_fsl T F w (k : nat) :
  read_table (heap w) grad_mrtrix = Some T →
  read_table (heap w) grad_fsl = Some F →
  let w' := world_of (for_each (evaluate E number_option grad_mrtrix grad_fsl)
                               (take k candidates) w) in
  (∀ l vs, heap w !! l = Some vs → heap w' !! l = Some vs) ∧
  read_table (heap w') grad_mrtrix = Some T ∧
  read_table (heap w') grad_fsl = Some F.
Proof.
  intros Hgm Hgf w'.
  assert (Hkeeps : heap w ⊆ heap w').
  { pose proof (keeps_for_each (heap w)
      (evaluate E number_option grad_mrtrix grad_fsl) (take k candidates)
      (keeps_evaluate (heap w) E number_option grad_mrtrix grad_fsl) w (reflexivity _))
      as H.
    unfold w'. destruct (for_each _ _ w); [by destruct H|done]. }
  split; [|split].
  - intros l vs Hl. by eapply lookup_weaken.
  - by eapply read_table_mono.
  - by eapply read_table_mono.
Qed.

Lemma loaded_tables_never_mutated_witness :
  let w' := world_of (for_each (evaluate (sample_env Py.Py2 tied_means) (select 10000) 2 6)
                               (take 48 candidates) (world_of sample_loaded)) in
  (∀ l vs, heap (world_of sample_loaded) !! l = Some vs → heap w' !! l = Some vs) ∧
  read_table (heap w') 2 = Some [[1; 0; 0; 1000]; [0; 1; 0; 1000]] ∧
  read_table (heap w') 6 = Some [[1; 0]; [0; 1]; [0; 0]].
Proof.
  apply (loaded_tables_never_mutated (sample_env Py.Py2 tied_means) (select 10000) 2 6
           [[1; 0; 0; 1000]; [0; 1; 0; 1000]] [[1; 0]; [0; 1]; [0; 0]]
           (world_of sample_loaded) 48).
  - vm_compute. reflexivity.
  - vm_compute. reflexivity.
Defined.

(** ** Input validation *)

Lemma py_min_one (x y z n : Z) :
  1 ≤ x → 1 ≤ y → 1 ≤ z → 1 ≤ n → x ≤ 1 ∨ y ≤ 1 ∨ z ≤ 1 →
  py_min [x; y; z; n] = Some 1.
Proof. intros. cbn. f_equal. lia. Qed.

(** C4: when the header does not describe a 4-D image, or one of the
    three spatial sizes does not exceed 1, the run fails with
    [InvalidInputError] while the scratch directory does not exist and
    holds no file.  The sizes of an image header are positive, and the
    command line is taken to be free of conflicting options (a conflict
    is reported first). *)
Theorem invalid_image_rejected E a :
  compatible a →
  Forall (λ size, 1 ≤ size) (header_size E (input a)) →
  (length (header_size E (input a)) ≠ 4%nat ∨
   ∃ (axis : nat) size, (axis < 3)%nat ∧
     header_size E (input a) !! axis = Some size ∧ size ≤ 1) →
  ∃ message w,
    main E a initial = Raise (InvalidInputError message) w ∧
    scratch w = false ∧ files w = ∅.
Proof.
  intros [Hi He] Hpos Hbad. unfold main, prepare, parse. rewrite Hi, He.
  do 3 mstep. unfold header_field_size at 1.
  destruct (length (header_size E (input a)) =? 4)%nat eqn:Hlen; cbn [negb when].
  2:{ mstep. msimpl. by eexists _, _. }
  apply Nat.eqb_eq in Hlen. destruct Hbad as [Hbad|(axis & size & Haxis & Hsize & Hle)];
    [done|].
  destruct (length_4 _ Hlen) as (x & y & z & n & Hdims). rewrite Hdims in *.
  apply Forall_cons in Hpos as [Hx Hpos]. apply Forall_cons in Hpos as [Hy Hpos].
  apply Forall_cons in Hpos as [Hz Hpos]. apply Forall_cons in Hpos as [Hn _].
  rewrite py_min_one; [| done.. |].
  - rewrite bool_decide_true by done. mstep. mstep. msimpl. by eexists _, _.
  - destruct axis as [|[|[|]]]; cbn in Hsize; simplify_eq; auto; lia.
Qed.

Lemma invalid_image_rejected_witness :
  ∃ message w,
    main flat_env sample_args initial = Raise (InvalidInputError message) w ∧
    scratch w = false ∧ files w = ∅.
Proof.
  apply (invalid_image_rejected flat_env sample_args).
  - apply sample_compatible.
  - repeat constructor; done.
  - right. exists 0%nat, 1. split; [lia|]. split; [reflexivity|lia].
Defined.

(** C5: when both export options, or both import options, are given,
    the run fails with [MutuallyExclusiveOptionError] in the initial
    world: no external command has been invoked. *)
Theorem conflicting_options_rejected E a :
  given (export_grad_mrtrix a) && given (export_grad_fsl a) = true ∨
  given (grad a) && given (fslgrad a) = true →
  ∃ options,
    main E a initial = Raise (MutuallyExclusiveOptionError options) initial ∧
    invoked initial = [].
Proof.
  intros H. unfold main, prepare, parse.
  destruct (given (grad a) && given (fslgrad a)) eqn:Hi.
  - by eexists.
  - destruct H as [->|H]; [by eexists|done].
Qed.

Lemma conflicting_options_rejected_witness :
  ∃ options,
    main (sample_env Py.Py2 tied_means) both_exports initial
    = Raise (MutuallyExclusiveOptionError options) initial ∧
    invoked initial = [].
Proof.
  apply (conflicting_options_rejected (sample_env Py.Py2 tied_means) both_exports).
  left. reflexivity.
Defined.

(** C6, as stated, fails: with two volumes and a split table whose
    second row holds a single value, the split representation is not
    three rows of one value per volume, yet the run does not fail: all
    48 candidates are evaluated and ranked. *)
Lemma table_error_Some num_volumes (T F : list (list Z)) :
  Z.of_nat (length T) ≠ num_volumes ∨ length F ≠ 3%nat ∨
  (∃ row, F !! 0%nat = Some row ∧ Z.of_nat (length row) ≠ num_volumes) →
  is_Some (table_error num_volumes T F).
Proof.
  intros H. unfold table_error.
  destruct (bool_decide (Z.of_nat (length T) = num_volumes)) eqn:HT; cbn [negb];
    [|by eexists].
  apply bool_decide_eq_true in HT.
  destruct (length F =? 3)%nat eqn:HF; cbn [negb]; [|by eexists].
  apply Nat.eqb_eq in HF.
  destruct H as [?|[?|(row & Hrow & Hlen)]]; [done..|]. rewrite Hrow.
  rewrite bool_decide_false by done. by eexists.
Qed.

Lemma split_shape_first_row num_volumes (F : list (list Z)) :
  rectangular F → ¬ split_shape num_volumes F →
  length F ≠ 3%nat ∨ ∃ row, F !! 0%nat = Some row ∧ Z.of_nat (length row) ≠ num_volumes.
Proof.
  intros [columns Hrows] Hshape.
  destruct (decide (length F = 3%nat)) as [Hlen|]; [|by left]. right.
  destruct F as [|row F]; [done|]. exists row. split; [done|].
  intros Hrow. apply Hshape. split; [done|].
  pose proof Hrows as [Hcolumns _]%Forall_cons.
  eapply Forall_impl; [exact Hrows|]. cbn beta. intros row' Hrow'. congruence.
Qed.

(** C6: once both representations have been obtained, the run fails
    with [GradientTableMismatchError] whenever the combined table does
    not have one row per volume, or the split table - a table, with rows
    of one length - is not made of three rows of one value per volume;
    at that point [lengths] is empty and no tractography command has
    been invoked. *)
Theorem table_mismatch_rejected E a num_volumes :
  cooperative E → compatible a → image_ok E a num_volumes →
  rectangular (bvecs E) →
  (Z.of_nat (length (grad_b E)) ≠ num_volumes ∨ ¬ split_shape num_volumes (bvecs E)) →
  ∃ message w,
    main E a initial = Raise (GradientTableMismatchError message) w ∧
    lengths w = [] ∧ Forall (λ cmd, is_tckgen cmd = false) (invoked w).
Proof.
  intros Hcoop Hargs Himage Hrect Hshape.
  assert (Herr : is_Some (table_error num_volumes (grad_b E) (bvecs E))).
  { apply table_error_Some. destruct Hshape as [?|Hshape]; [by left|]. right.
    by apply split_shape_first_row. }
  destruct Herr as [message Herr].
  destruct (main_mismatch E a num_volumes Hcoop Hargs Himage message Herr)
    as (w & Hmain & Hlen & _ & _ & cmds & Hinv & Hcmds).
  exists message, w. split; [done|]. split; [done|]. by rewrite Hinv.
Qed.

Lemma table_mismatch_rejected_witness :
  ∃ message w,
    main long_rows_env sample_args initial = Raise (GradientTableMismatchError message) w ∧
    lengths w = [] ∧ Forall (λ cmd, is_tckgen cmd = false) (invoked w).
Proof.
  apply (table_mismatch_rejected long_rows_env sample_args 2).
  - by split.
  - apply sample_compatible.
  - exists 4, 4, 4. split; [reflexivity|]. vm_compute. discriminate.
  - exists 3%nat. repeat constructor.
  - right. intros [_ Hrows]. apply Forall_cons in Hrows as [Hrow _].
    vm_compute in Hrow. discriminate.
Defined.

(** ** The streamline budget *)

Lemma select_inj (m n : Z) : select m = select n → m = n.
Proof. unfold select. intros [= H]. by apply (inj pretty). Qed.

(** C10: the value of [-number] is not validated.  For every integer,
    zero and negative ones included, a run with cooperative tools and
    consistent input reaches the end of the search loop, and what
    follows does not depend on the number; the tractography commands
    invoked are exactly one per candidate, each carrying the decimal
    representation of the number as its [-select] argument. *)
Theorem number_passed_unchanged E a num_volumes (n : Z) :
  cooperative E → compatible a → image_ok E a num_volumes →
  table_error num_volumes (grad_b E) (bvecs E) = None →
  Forall (λ row, length row = 4%nat) (grad_b E) →
  ∃ w pre,
    main E (with_number n a) initial = (report E;; export E a) w ∧
    invoked w = pre ++ commands (" -select " +:+ pretty n) candidates ∧
    Forall (λ cmd, is_tckgen cmd = false) pre ∧
    (∀ c, c ∈ candidates →
       "tckgen -algorithm tensor_det data.mif" +:+ grad_option c
       +:+ " -seed_image mask.mif -mask mask.mif" +:+ (" -select " +:+ pretty n)
       +:+ " -minlength 0 -downsample 5 " +:+ tracks c ∈ invoked w) ∧
    ∀ m : Z, " -select " +:+ pretty m = " -select " +:+ pretty n → m = n.
Proof.
  intros Hcoop Hargs Himage Htables Hrows.
  destruct (main_search E (with_number n a) num_volumes Hcoop Hargs Himage Htables Hrows)
    as (w & pre & Hmain & _ & _ & Hinv & Hpre & _).
  exists w, pre. split; [done|]. split; [done|]. split; [done|]. split.
  - intros c Hc. rewrite Hinv. apply elem_of_app. right.
    unfold commands. apply list_elem_of_bind. exists c. split; [by left|done].
  - intros m Hm. by apply select_inj.
Qed.

Lemma number_passed_unchanged_witness :
  ∃ w pre,
    main (sample_env Py.Py2 tied_means) (with_number (-7) sample_args) initial
    = (report (sample_env Py.Py2 tied_means);;
       export (sample_env Py.Py2 tied_means) sample_args) w ∧
    invoked w = pre ++ commands (" -select " +:+ pretty (-7)) candidates ∧
    Forall (λ cmd, is_tckgen cmd = false) pre ∧
    (∀ c, c ∈ candidates →
       "tckgen -algorithm tensor_det data.mif" +:+ grad_option c
       +:+ " -seed_image mask.mif -mask mask.mif" +:+ (" -select " +:+ pretty (-7))
       +:+ " -minlength 0 -downsample 5 " +:+ tracks c ∈ invoked w) ∧
    ∀ m : Z, " -select " +:+ pretty m = " -select " +:+ pretty (-7) → m = -7.
Proof.
  apply (number_passed_unchanged (sample_env Py.Py2 tied_means) sample_args 2 (-7)).
  - apply sample_cooperative.
  - apply sample_compatible.
  - apply sample_image_ok.
  - reflexivity.
  - repeat constructor.
Defined.


(** * The script, whatever the environment *)

(** ** Stepping through a run *)

Lemma load_heap m w :
  ∃ l h', load m w = Done l (set_heap (λ _, h') w) ∧
    heap w ⊆ h' ∧ read_table h' l = Some m.
Proof.
  unfold load.
  assert (Hrows : ∀ w, ∃ rows h',
    for_list (λ r, l ← new (Float <$> r); mret (Ref l)) m w
    = Done rows (set_heap (λ _, h') w) ∧ heap w ⊆ h' ∧
    Forall2 (λ c xs, read_row h' c = Some xs) rows m).
  { clear w. induction m as [|xs m IH]; intros w.
    - exists [], (heap w). by rewrite set_heap_id.
    - set (l := fresh (dom (heap w))).
      destruct (IH (set_heap <[l := Float <$> xs]> w)) as (rows & h' & Hrun & Hh' & Hrows).
      exists (Ref l :: rows), h'. split; [|split].
      + cbn [for_list]. mstep. mstep. unfold new at 1. fold l. msimpl. mstep.
        by rewrite Hrun.
      + etrans; [|done]. apply heap_extend.
      + constructor; [|done]. apply read_row_Some. exists l. split; [done|].
        eapply lookup_weaken; [|done]. apply lookup_insert_eq. }
  destruct (Hrows w) as (rows & h' & Hrun & Hh' & Hread).
  exists (fresh (dom h')), (<[fresh (dom h') := rows]> h').
  split; [by rewrite bind_unfold, Hrun|]. split.
  - etrans; [done|]. apply heap_extend.
  - apply read_table_Some. exists rows. split; [apply lookup_insert_eq|].
    eapply Forall2_impl; [done|]. intros c xs. apply read_row_mono, heap_extend.
Qed.

(** Looking up a file after the steps taken so far. *)
Ltac files_simpl :=
  cbn [files set_files set_invoked set_scratch set_heap foldr initial
       invoked lengths printed scratch];
  repeat first [rewrite lookup_insert_eq | rewrite lookup_insert_ne by done
               | rewrite lookup_empty];
  cbn [given].

Lemma wp_bind {A B} (m : M A) (k : A → M B) w Q X :
  wp m w (λ x w', wp (k x) w' Q X) X → wp (m ≫= k) w Q X.
Proof. unfold wp. rewrite bind_unfold. by destruct (m w). Qed.

Lemma wp_weaken {A} (m : M A) w (Q Q' : A → world → Prop) (X X' : error → world → Prop) :
  wp m w Q X → (∀ x w', Q x w' → Q' x w') → (∀ e w', X e w' → X' e w') → wp m w Q' X'.
Proof. unfold wp. destruct (m w); auto. Qed.

Lemma wp_ret {A} (x : A) w (Q : A → world → Prop) X : Q x w → wp (mret x) w Q X.
Proof. done. Qed.

Lemma wp_raise {A} e w (Q : A → world → Prop) (X : error → world → Prop) :
  X e w → wp (raise e) w Q X.
Proof. done. Qed.

Lemma wp_run_command E cmd outputs w (Q : unit → world → Prop) X :
  (succeeds E cmd = true →
   Q tt (set_files (λ fs, foldr (λ f, <[f := External]>) fs outputs)
           (set_invoked (λ l, l ++ [cmd]) w))) →
  (succeeds E cmd = false → X (ExternalToolError cmd) (set_invoked (λ l, l ++ [cmd]) w)) →
  wp (run_command E cmd outputs) w Q X.
Proof. unfold wp, run_command. destruct (succeeds E cmd); auto. Qed.

Lemma wp_shutil_copy E src dst w (Q : unit → world → Prop) X :
  (readable E src = true → Q tt (set_files <[dst := External]> w)) →
  (readable E src = false → X (IOError src) w) →
  wp (shutil_copy E src dst) w Q X.
Proof. unfold wp, shutil_copy. destruct (readable E src); auto. Qed.

Lemma wp_read_matrix name m w (Q : nat → world → Prop) X :
  is_Some (files w !! name) →
  (∀ l h', heap w ⊆ h' → read_table h' l = Some m → Q l (set_heap (λ _, h') w)) →
  wp (read_matrix name m) w Q X.
Proof.
  intros [x Hx] HQ. unfold wp, read_matrix. rewrite Hx.
  destruct (load_heap m w) as (l & h' & -> & Hh' & Hl). by apply HQ.
Qed.

Ltac wp_fail :=
  unfold failed, explains, all_succeeded, prepare_commands, conversions, header_query;
  cbn [printed invoked set_files set_invoked set_scratch set_heap initial app tail take];
  repeat match goal with H : _ = _ |- _ => rewrite H end;
  cbn [app tail take];
  repeat split; auto; try (eexists; split; [reflexivity|]); repeat constructor; auto.

Lemma wp_if_isfile name (yes no : M unit) w (Q : unit → world → Prop) X b :
  given (files w !! name) = b →
  wp (if b then yes else no) w Q X → wp (if_isfile name yes no) w Q X.
Proof. intros <-. unfold wp, if_isfile. by destruct (given _). Qed.

Lemma all_succeeded_snoc E cmds cmd :
  all_succeeded E cmds → succeeds E cmd = true → all_succeeded E (cmds ++ [cmd]).
Proof.
  unfold all_succeeded. intros Hall Hcmd. destruct cmds as [|c cmds]; [constructor|].
  cbn [app tail] in *. apply Forall_app. split; [done|]. by constructor.
Qed.

Lemma all_succeeded_app E cmds cmds' :
  all_succeeded E cmds → Forall (λ cmd, succeeds E cmd = true) cmds' →
  all_succeeded E (cmds ++ cmds').
Proof.
  unfold all_succeeded. intros Hall Hcmds. destruct cmds as [|c cmds].
  - cbn [app]. destruct cmds' as [|c' cmds']; [constructor|].
    by apply Forall_cons in Hcmds as [_ ?].
  - cbn [app tail] in *. by apply Forall_app.
Qed.

Lemma failed_tool E a cmd w :
  printed w = [] → all_succeeded E (invoked w) → succeeds E cmd = false →
  (invoked w ++ [cmd]) `prefix_of` script_commands E a →
  failed E a (ExternalToolError cmd) (set_invoked (λ l, l ++ [cmd]) w).
Proof.
  intros Hp Hok Hcmd Hprefix. split; [by left|]. split; [|done]. split; [done|].
  split; [done|]. by exists (invoked w).
Qed.

(** The commands run so far are the first of [script_commands]. *)
Ltac wp_prefix :=
  unfold script_commands, setup_commands, prepare_commands, conversions;
  cbn [files set_files set_invoked set_scratch set_heap initial invoked];
  repeat match goal with
         | H : truthy _ = _ |- _ => rewrite H
         | H : given _ = _ |- _ => rewrite H
         | H : fslgrad _ = _ |- _ => rewrite H
         | H : invoked _ = _ |- _ => rewrite H
         end;
  try match goal with |- context [truthy (mask ?a)] => destruct (truthy (mask a)) end;
  cbn [app given files set_files set_invoked set_scratch set_heap initial invoked];
  repeat apply prefix_cons; apply prefix_nil.

Lemma given_true {A} (o : option A) : given o = true → is_Some o.
Proof. by destruct o. Qed.

Ltac wp_side :=
  files_simpl;
  first [ done | by eauto | by apply given_true
        | by (rewrite app_assoc; apply all_succeeded_snoc)
        | by apply all_succeeded_snoc
        | by (unfold all_succeeded; cbn [app tail]; repeat constructor)
        | idtac ].

Lemma prepare_outcome E a :
  wp (prepare E a) initial
    (λ loaded w,
       compatible a ∧ length (header_size E (input a)) = 4%nat ∧
       py_min (header_size E (input a)) ≠ Some 1 ∧
       loaded.1 = volumes E a ∧
       invoked w = prepare_commands E a ∧ all_succeeded E (invoked w) ∧
       given (files w !! "mask.mif") = truthy (mask a) ∧
       lengths w = [] ∧ printed w = [] ∧
       read_table (heap w) loaded.2.1 = Some (grad_b E) ∧
       read_table (heap w) loaded.2.2 = Some (bvecs E))
    (failed E a).
Proof.
  unfold prepare. apply wp_bind. unfold parse.
  destruct (given (grad a) && given (fslgrad a)) eqn:Hi.
  { apply wp_raise. split; [by left|]. split; [|by repeat constructor]. split; [|done].
    unfold verdict. by rewrite Hi. }
  destruct (given (export_grad_mrtrix a) && given (export_grad_fsl a)) eqn:He.
  { apply wp_raise. split; [by left|]. split; [|by repeat constructor]. split; [|done].
    unfold verdict. by rewrite Hi, He. }
  apply wp_ret. apply wp_bind. unfold wp at 1, header_field_size.
  apply wp_bind. destruct (length (header_size E (input a)) =? 4)%nat eqn:Hlen; cbn [negb when].
  2:{ apply wp_raise. split; [by left|]. split; [|by repeat constructor]. split; [|done].
      unfold verdict. by rewrite Hi, He, Hlen. }
  apply wp_ret. apply wp_bind.
  destruct (bool_decide (py_min (header_size E (input a)) = Some 1)) eqn:Hmin; cbn [when].
  { apply wp_raise. split; [by left|]. split; [|by repeat constructor]. split; [|done].
    unfold verdict. by rewrite Hi, He, Hlen, Hmin. }
  apply Nat.eqb_eq in Hlen. apply bool_decide_eq_false in Hmin. apply wp_ret.
  apply wp_bind. unfold wp at 1, makeTempDir.
  apply wp_bind. apply wp_run_command; intros Hdata; [|apply failed_tool; [wp_side..|wp_prefix]].
  set (Q := λ (loaded : Z * (nat * nat)) (w : world), _).
  assert (Htail : ∀ w,
    invoked w = ["mrinfo " +:+ input a +:+ " -size";
                 "mrconvert " +:+ input a +:+ " " +:+ toTemp E "data.mif" true
                 +:+ " -stride 0,0,0,1 -datatype float32"]
                ++ (if truthy (mask a)
                    then ["mrconvert " +:+ fromUser E (default "" (mask a)) true +:+ " "
                          +:+ toTemp E "mask.mif" true +:+ " -datatype bit"]
                    else []) →
    all_succeeded E (invoked w) →
    given (files w !! "grad.b") = truthy (grad a) →
    given (files w !! "bvecs") = negb (truthy (grad a)) && given (fslgrad a) →
    given (files w !! "mask.mif") = truthy (mask a) →
    lengths w = [] → printed w = [] →
    wp (if_isfile "grad.b" (mret ())
          (if_isfile "bvecs"
             (run_command E "mrinfo data.mif -fslgrad bvecs bvals -export_grad_mrtrix grad.b"
                ["grad.b"])
             (run_command E "mrinfo data.mif -export_grad_mrtrix grad.b" ["grad.b"]));;
        if_isfile "bvecs" (mret ())
          (if_isfile "grad.b"
             (run_command E "mrinfo data.mif -grad grad.b -export_grad_fsl bvecs bvals"
                ["bvecs"; "bvals"])
             (run_command E "mrinfo data.mif -export_grad_fsl bvecs bvals"
                ["bvecs"; "bvals"]));;
        grad_mrtrix ← read_matrix "grad.b" (grad_b E);
        grad_fsl ← read_matrix "bvecs" (bvecs E);
        mret (default 0 (header_size E (input a) !! 3%nat), (grad_mrtrix, grad_fsl)))
       w Q (failed E a)).
  { intros w Hinv Hok Hg Hf Hm Hlengths Hprinted.
    assert (Hend : ∀ w', invoked w' = prepare_commands E a → all_succeeded E (invoked w') →
      is_Some (files w' !! "grad.b") → is_Some (files w' !! "bvecs") →
      given (files w' !! "mask.mif") = truthy (mask a) →
      lengths w' = [] → printed w' = [] →
      wp (grad_mrtrix ← read_matrix "grad.b" (grad_b E);
          grad_fsl ← read_matrix "bvecs" (bvecs E);
          mret (default 0 (header_size E (input a) !! 3%nat), (grad_mrtrix, grad_fsl)))
         w' Q (failed E a)).
    { intros w' Hinv' Hok' Hgb Hbv Hm' Hl' Hp'.
      apply wp_bind, wp_read_matrix; [done|]. intros l1 h1 Hh1 Hl1.
      apply wp_bind, wp_read_matrix; [done|]. intros l2 h2 Hh2 Hl2.
      apply wp_ret. unfold Q. cbn [fst snd heap set_heap invoked files lengths printed].
      repeat split; try done. by eapply read_table_mono. }
    unfold prepare_commands, conversions in *.
    destruct (truthy (grad a)) eqn:Hga; cbn [negb andb] in Hf.
    - apply wp_bind, (wp_if_isfile _ _ _ _ _ _ _ Hg), wp_ret.
      apply wp_bind, (wp_if_isfile _ _ _ _ _ _ _ Hf).
      eapply wp_if_isfile; [files_simpl; exact Hg|].
      apply wp_run_command; intros Hcmd; [|apply failed_tool; [done..|wp_prefix]].
      apply Hend; files_simpl; rewrite ?Hinv, ?Hm, <- ?app_assoc; wp_side.
      rewrite app_assoc, <- Hinv. apply all_succeeded_app; [done|]. by repeat constructor.
    - destruct (given (fslgrad a)) eqn:Hfa; cbn [andb] in Hf.
      + apply wp_bind, (wp_if_isfile _ _ _ _ _ _ _ Hg).
        apply (wp_if_isfile _ _ _ _ _ _ _ Hf).
        apply wp_run_command; intros Hcmd; [|apply failed_tool; [done..|wp_prefix]].
        apply wp_bind. eapply wp_if_isfile; [files_simpl; exact Hf|]. apply wp_ret.
        apply Hend; files_simpl; rewrite ?Hinv, ?Hm, <- ?app_assoc; wp_side.
        rewrite app_assoc, <- Hinv. apply all_succeeded_app; [done|]. by repeat constructor.
      + apply wp_bind, (wp_if_isfile _ _ _ _ _ _ _ Hg).
        apply (wp_if_isfile _ _ _ _ _ _ _ Hf).
        apply wp_run_command; intros Hcmd; [|apply failed_tool; [done..|wp_prefix]].
        apply wp_bind. eapply wp_if_isfile; [files_simpl; exact Hf|].
        eapply wp_if_isfile; [files_simpl; reflexivity|].
        apply wp_run_command; intros Hcmd'.
        2:{ apply failed_tool; [done|by apply all_succeeded_snoc|done|wp_prefix]. }
        apply Hend; files_simpl; rewrite ?Hinv, ?Hm, <- ?app_assoc; wp_side.
        rewrite app_assoc, <- Hinv. apply all_succeeded_app; [done|]. by repeat constructor. }
  assert (Hmask : ∀ w,
    invoked w = ["mrinfo " +:+ input a +:+ " -size";
                 "mrconvert " +:+ input a +:+ " " +:+ toTemp E "data.mif" true
                 +:+ " -stride 0,0,0,1 -datatype float32"] →
    all_succeeded E (invoked w) →
    given (files w !! "grad.b") = truthy (grad a) →
    given (files w !! "bvecs") = negb (truthy (grad a)) && given (fslgrad a) →
    files w !! "mask.mif" = None →
    lengths w = [] → printed w = [] →
    wp (when (truthy (mask a))
          (run_command E ("mrconvert " +:+ fromUser E (default "" (mask a)) true +:+ " "
                          +:+ toTemp E "mask.mif" true +:+ " -datatype bit") ["mask.mif"]))
       w (λ _ w', wp (if_isfile "grad.b" (mret ())
          (if_isfile "bvecs"
             (run_command E "mrinfo data.mif -fslgrad bvecs bvals -export_grad_mrtrix grad.b"
                ["grad.b"])
             (run_command E "mrinfo data.mif -export_grad_mrtrix grad.b" ["grad.b"]));;
        if_isfile "bvecs" (mret ())
          (if_isfile "grad.b"
             (run_command E "mrinfo data.mif -grad grad.b -export_grad_fsl bvecs bvals"
                ["bvecs"; "bvals"])
             (run_command E "mrinfo data.mif -export_grad_fsl bvecs bvals"
                ["bvecs"; "bvals"]));;
        grad_mrtrix ← read_matrix "grad.b" (grad_b E);
        grad_fsl ← read_matrix "bvecs" (bvecs E);
        mret (default 0 (header_size E (input a) !! 3%nat), (grad_mrtrix, grad_fsl)))
       w' Q (failed E a)) (failed E a)).
  { intros w Hinv Hok Hg Hf Hm Hlengths Hprinted.
    destruct (truthy (mask a)) eqn:Hma; cbn [when].
    - apply wp_run_command; intros Hcmd; [|apply failed_tool; [done..|wp_prefix]].
      apply Htail; rewrite ?Hma; files_simpl; rewrite ?Hinv; wp_side.
    - apply wp_ret, Htail; rewrite ?Hma, ?Hinv, ?Hm, ?app_nil_r; wp_side. }
  apply wp_bind.
  destruct (truthy (grad a)) eqn:Hga.
  - apply wp_shutil_copy; intros Hcopy; [|wp_fail].
    apply wp_bind, Hmask; rewrite ?Hga; files_simpl; wp_side.
  - destruct (fslgrad a) as [[vecs vals]|] eqn:Hfa.
    + apply wp_bind. apply wp_shutil_copy; intros Hcopy; [|wp_fail].
      apply wp_shutil_copy; intros Hcopy'; [|wp_fail].
      apply wp_bind, Hmask; rewrite ?Hga; files_simpl; wp_side.
    + apply wp_ret. apply wp_bind, Hmask; rewrite ?Hga; files_simpl; wp_side.
Qed.

(** ** Rows of any width in the scanner branch *)

Lemma getitem_nat (vs : list cell) (i : nat) w :
  getitem vs (Z.of_nat i) w
  = match vs !! i with Some v => Done v w | None => Raise IndexError w end.
Proof.
  destruct (vs !! i) as [v|] eqn:Hi; [by apply getitem_lookup|].
  apply lookup_ge_None in Hi. unfold getitem, Py.index.
  rewrite !bool_decide_false by lia. done.
Qed.

Lemma pick_outcome p (xs : list Z) w :
  p ∈ axis_permutations →
  pick p (Float <$> xs) w
  = if (4 <=? length xs)%nat then Done (Float <$> permute_columns p (take 4 xs)) w
    else Raise IndexError w.
Proof.
  intros (i & j & k & -> & Hi & Hj & Hk)%axis_permutations_range.
  unfold pick. cbn [fst snd]. change 3 with (Z.of_nat 3).
  destruct xs as [|a [|b [|c [|d rest]]]];
    destruct i as [|[|[|]]]; try lia; destruct j as [|[|[|]]]; try lia;
    destruct k as [|[|[|]]]; try lia;
    repeat (rewrite bind_unfold, getitem_nat; cbn [lookup list_lookup fmap list_fmap]);
    reflexivity.
Qed.

Lemma for_list_rows_outcome (f : list cell → M (list cell)) (good : list Z → bool)
    (g : list Z → list Z) e h0 rows T :
  Forall2 (λ c xs, read_row h0 c = Some xs) rows T →
  (∀ xs w', xs ∈ T → h0 ⊆ heap w' →
     f (Float <$> xs) w' = if good xs then Done (Float <$> g xs) w' else Raise e w') →
  ∀ w, h0 ⊆ heap w →
  ∃ h', heap w ⊆ h' ∧
    if forallb good T
    then ∃ rows',
      for_list (λ row, r ← as_ref row; vs ← items r; vs' ← f vs; r' ← new vs'; mret (Ref r'))
               rows w
      = Done rows' (set_heap (λ _, h') w) ∧
      Forall2 (λ c xs, read_row h' c = Some (g xs)) rows' T
    else
      for_list (λ row, r ← as_ref row; vs ← items r; vs' ← f vs; r' ← new vs'; mret (Ref r'))
               rows w
      = Raise e (set_heap (λ _, h') w).
Proof.
  induction 1 as [|c xs rows T Hc _ IH]; intros Hf w Hw.
  - exists (heap w). split; [done|]. exists []. by rewrite set_heap_id.
  - apply read_row_Some in Hc as (r & -> & Hr).
    pose proof (lookup_weaken _ _ _ _ Hr Hw) as Hr'.
    cbn [forallb for_list]. specialize (Hf xs w (list_elem_of_here _ _) Hw) as Hxs.
    destruct (good xs); cbn [andb].
    + set (l := fresh (dom (heap w))).
      set (w1 := set_heap <[l := Float <$> g xs]> w).
      destruct (IH (λ ys w' Hys, Hf ys w' (list_elem_of_further _ _ _ Hys)) w1)
        as (h' & Hh' & Hrun).
      { etrans; [done|]. apply heap_extend. }
      exists h'. split; [etrans; [|done]; apply heap_extend|].
      destruct (forallb good T).
      * destruct Hrun as (rows' & Hrun & Hrows').
        exists (Ref l :: rows'). split.
        -- mstep. mstep. mstep. unfold items at 1. rewrite Hr'.
           mstep. rewrite Hxs. mstep. unfold new at 1. fold l. fold w1. msimpl.
           mstep. rewrite Hrun. reflexivity.
        -- constructor; [|done]. apply read_row_Some. exists l. split; [done|].
           eapply lookup_weaken; [|done]. apply lookup_insert_eq.
      * mstep. mstep. mstep. unfold items at 1. rewrite Hr'.
        mstep. rewrite Hxs. mstep. unfold new at 1. fold l. fold w1. msimpl.
        mstep. rewrite Hrun. reflexivity.
    + exists (heap w). split; [done|].
      mstep. mstep. mstep. unfold items at 1. rewrite Hr'.
      mstep. rewrite Hxs. by rewrite set_heap_id.
Qed.

Lemma comprehension_outcome (f : list cell → M (list cell)) (good : list Z → bool)
    (g : list Z → list Z) e grad T w :
  read_table (heap w) grad = Some T →
  (∀ xs w', xs ∈ T → heap w ⊆ heap w' →
     f (Float <$> xs) w' = if good xs then Done (Float <$> g xs) w' else Raise e w') →
  ∃ h', heap w ⊆ h' ∧
    if forallb good T
    then ∃ l, comprehension f grad w = Done l (set_heap (λ _, h') w) ∧
              read_table h' l = Some (g <$> T)
    else comprehension f grad w = Raise e (set_heap (λ _, h') w).
Proof.
  intros (rows & Hgrad & Hrows)%read_table_Some Hf.
  destruct (for_list_rows_outcome f good g e (heap w) rows T Hrows Hf w) as (h' & Hh' & Hrun);
    [done|].
  assert (Hstep : comprehension f grad w
    = (rows' ← for_list (λ row, r ← as_ref row; vs ← items r; vs' ← f vs; r' ← new vs';
                                 mret (Ref r')) rows; new rows') w).
  { unfold comprehension. rewrite bind_unfold. unfold items at 1. by rewrite Hgrad. }
  rewrite Hstep, bind_unfold.
  destruct (forallb good T).
  - destruct Hrun as (rows' & Hrun & Hrows').
    exists (<[fresh (dom h') := rows']> h'). split; [etrans; [done|]; apply heap_extend|].
    exists (fresh (dom h')). rewrite Hrun. split; [reflexivity|].
    apply read_table_Some. exists rows'. split; [apply lookup_insert_eq|].
    apply Forall2_fmap_r. eapply Forall2_impl; [done|].
    intros c xs. apply read_row_mono, heap_extend.
  - exists h'. split; [done|]. by rewrite Hrun.
Qed.

Lemma scale_wide (k : nat) (xs : list Z) :
  (k < 3)%nat → (4 <=? length xs)%nat = true →
  take 4 (zip_with Z.mul xs (<[k := -1]> [1; 1; 1; 1])) = negate_column k (take 4 xs).
Proof.
  intros Hk Hxs. destruct xs as [|a [|b [|c [|d rest]]]]; try done.
  destruct k as [|[|[|]]]; try lia; unfold negate_column; cbn; repeat f_equal; lia.
Qed.

Lemma scale_width (k : nat) (xs : list Z) :
  Nat.leb 4 (length (zip_with Z.mul xs (<[k := -1]> [1; 1; 1; 1]))) = Nat.leb 4 (length xs).
Proof.
  rewrite length_zip_with, length_insert. cbn [length].
  destruct (Nat.leb_spec 4 (length xs)); [apply Nat.leb_le|apply Nat.leb_gt]; lia.
Qed.

(** The scanner branch on rows of any width: with at least four values
    in every row the table is built from the first four; a shorter row
    raises [IndexError]. *)
Lemma scanner_table_outcome c grad_mrtrix T w :
  flip c ∈ axis_flips → permutation c ∈ axis_permutations →
  read_table (heap w) grad_mrtrix = Some T →
  ∃ h', heap w ⊆ h' ∧
    if wide T
    then ∃ l, scanner_table c grad_mrtrix w = Done l (set_heap (λ _, h') w) ∧
              read_table h' l = Some (transformed_scanner c (columns4 T))
    else scanner_table c grad_mrtrix w = Raise IndexError (set_heap (λ _, h') w).
Proof.
  intros Hf Hp HT. unfold scanner_table, transformed_scanner, columns4, wide.
  destruct (copy_copy_table _ _ _ HT) as (l1 & h1 & Hcopy & Hh1 & HT1).
  set (w1 := set_heap (λ _, h1) w).
  assert (Hpick : ∀ T' w' l2, read_table (heap w') l2 = Some T' →
    ∃ h', heap w' ⊆ h' ∧
      if forallb (λ row, 4 <=? length row)%nat T'
      then ∃ l, comprehension (pick (permutation c)) l2 w' = Done l (set_heap (λ _, h') w') ∧
           read_table h' l = Some ((λ xs, permute_columns (permutation c) (take 4 xs)) <$> T')
      else comprehension (pick (permutation c)) l2 w' = Raise IndexError (set_heap (λ _, h') w')).
  { intros T' w' l2 HT'. apply comprehension_outcome; [done|].
    intros xs w'' _ _. by apply pick_outcome. }
  unfold axis_flips in Hf. apply elem_of_cons in Hf as [Hf|Hf].
  { rewrite Hf. destruct (Hpick T w1 l1 HT1) as (h' & Hh' & Hrun).
    unfold w1 in Hrun. exists h'. split; [by etrans|].
    destruct (forallb _ T).
    - destruct Hrun as (l & Hrun & HT'). exists l. split.
      + mstep. rewrite Hcopy. mstep. by rewrite Hrun.
      + rewrite HT'. by rewrite <- list_fmap_compose.
    - mstep. rewrite Hcopy. mstep. by rewrite Hrun. }
  assert (∃ k : nat, (k < 3)%nat ∧ flip c = Py.Int (Z.of_nat k)) as (k & Hk & ->).
  { repeat (apply elem_of_cons in Hf as [->|Hf]);
      [by exists 0%nat; split; [lia|]|by exists 1%nat; split; [lia|]
      |by exists 2%nat; split; [lia|]|by apply elem_of_nil in Hf]. }
  rewrite Nat2Z.id.
  set (l2 := fresh (dom h1)).
  set (ms := <[k := -1]> [1; 1; 1; 1]).
  set (w3 := set_heap (λ _, <[l2 := Float <$> ms]> h1) w).
  assert (Hset : (multiplier ← new [Float 1; Float 1; Float 1; Float 1];
                  setitem multiplier (Z.of_nat k) (Float (-1));;
                  comprehension (scale multiplier) l1) w1
                 = comprehension (scale l2) l1 w3).
  { mstep. unfold new at 1. cbn [heap w1 set_heap]. fold l2. mstep.
    unfold setitem. mstep. unfold items at 1. cbn [heap set_heap].
    rewrite lookup_insert_eq. cbn [length].
    replace (Py.index 4 (Z.of_nat k)) with (Some k)
      by (destruct k as [|[|[|]]]; try lia; reflexivity).
    unfold store, w3, w1, set_heap.
    cbn [heap scratch files invoked lengths printed].
    rewrite insert_insert_eq.
    replace (<[k:=Float (-1)]> [Float 1; Float 1; Float 1; Float 1]) with (Float <$> ms)
      by (destruct k as [|[|[|]]]; try lia; reflexivity).
    reflexivity. }
  assert (Hh3 : h1 ⊆ heap w3) by apply heap_extend.
  destruct (comprehension_table (scale l2) (λ xs, zip_with Z.mul xs ms) l1 T w3)
    as (l3 & h3 & Hrun3 & Hh3' & HT3).
  { by eapply read_table_mono. }
  { intros xs w' _ Hw'. apply scale_floats. eapply lookup_weaken; [|done].
    apply lookup_insert_eq. }
  destruct (Hpick ((λ xs, zip_with Z.mul xs ms) <$> T) (set_heap (λ _, h3) w3) l3 HT3)
    as (h' & Hh' & Hrun).
  assert (Hwide : forallb (λ row, 4 <=? length row)%nat ((λ xs, zip_with Z.mul xs ms) <$> T)
                  = forallb (λ row, 4 <=? length row)%nat T).
  { clear. induction T as [|xs T IH]; [done|]. cbn [fmap list_fmap forallb].
    unfold ms at 1. rewrite scale_width. f_equal. exact IH. }
  rewrite Hwide in Hrun.
  exists h'. split; [do 3 (etrans; [done|]); done|].
  destruct (forallb _ T) eqn:HwT.
  - destruct Hrun as (l & Hrun & HT'). exists l. split.
    + mstep. rewrite Hcopy. mstep. fold w1. rewrite Hset, Hrun3. by rewrite Hrun.
    + rewrite HT'. rewrite <- !list_fmap_compose.
      rewrite forallb_forall in HwT. f_equal. apply list_fmap_ext. intros i xs Hxs.
      unfold compose, ms. rewrite scale_wide; [done..|]. apply HwT, list_elem_of_In.
      by eapply list_elem_of_lookup_2.
  - mstep. rewrite Hcopy. mstep. fold w1. rewrite Hset, Hrun3. by rewrite Hrun.
Qed.

(** ** One iteration and the loop, whatever the tools do *)

Lemma commands_cons number_option c cs :
  commands number_option (c :: cs)
  = commands number_option [c] ++ commands number_option cs.
Proof. reflexivity. Qed.

Section loop.
Context (E : env) (number_option : string) (grad_mrtrix grad_fsl : nat).
Context (T F : list (list Z)).
Context (T_wide : wide T = true) (F_rows : length F = 3%nat).

Lemma evaluate_outcome c w :
  c ∈ candidates →
  read_table (heap w) grad_mrtrix = Some T →
  read_table (heap w) grad_fsl = Some F →
  wp (evaluate E number_option grad_mrtrix grad_fsl c) w
    (λ _ w',
       (heap w ⊆ heap w' ∧ printed w' = printed w) ∧
       files w' = write_all (artifacts (columns4 T) F [c]) (files w) ∧
       invoked w' = invoked w ++ commands number_option [c] ∧
       lengths w' = lengths w ++ results E [c] ∧
       Forall (λ cmd, succeeds E cmd = true) (commands number_option [c]))
    (λ e w',
       (heap w ⊆ heap w' ∧ printed w' = printed w) ∧
       ∃ cmd before, e = ExternalToolError cmd ∧ succeeds E cmd = false ∧
         invoked w' = invoked w ++ before ++ [cmd] ∧
         Forall (λ cmd, succeeds E cmd = true) before ∧
         (before ++ [cmd]) `prefix_of` commands number_option [c]).
Proof.
  intros (Hf & Hp & Hb)%candidates_elem_of HT HF.
  unfold evaluate, artifacts, commands, results, write_all, grad_path, grad_option,
    transformed.
  cbn [mbind list_bind foldl fst snd app fmap list_fmap].
  assert (Hrest : ∀ option h', heap w ⊆ h' →
    wp (run_command E (tckgen option number_option c) [tracks c];;
        run_command E (tckstats c) [];;
        append_lengths (Result (tckstats_mean E (tckstats c)) c))
       (set_files <[grad_path c := transformed (columns4 T) F c]> (set_heap (λ _, h') w))
       (λ _ w',
          (heap w ⊆ heap w' ∧ printed w' = printed w) ∧
          files w' = <[tracks c := External]>
                       (<[grad_path c := transformed (columns4 T) F c]> (files w)) ∧
          invoked w' = invoked w ++ [tckgen option number_option c; tckstats c] ∧
          lengths w' = lengths w ++ [Result (tckstats_mean E (tckstats c)) c] ∧
          Forall (λ cmd, succeeds E cmd = true) [tckgen option number_option c; tckstats c])
       (λ e w',
          (heap w ⊆ heap w' ∧ printed w' = printed w) ∧
          ∃ cmd before, e = ExternalToolError cmd ∧ succeeds E cmd = false ∧
            invoked w' = invoked w ++ before ++ [cmd] ∧
            Forall (λ cmd, succeeds E cmd = true) before ∧
            (before ++ [cmd]) `prefix_of` [tckgen option number_option c; tckstats c])).
  { intros option h' Hh'. apply wp_bind, wp_run_command; intros Hgen; last first.
    { split; [done|]. exists (tckgen option number_option c), [].
      repeat split; try done. apply prefix_cons, prefix_nil. }
    apply wp_bind, wp_run_command; intros Hstats; last first.
    { split; [done|]. exists (tckstats c), [tckgen option number_option c].
      repeat split; try done.
      - cbn. by rewrite <- app_assoc.
      - by repeat constructor. }
    unfold wp, append_lengths. cbn. rewrite <- app_assoc. repeat split; try done.
    by repeat constructor. }
  unfold grad_path, transformed in Hrest.
  unfold grad_basis in Hb.
  apply elem_of_cons in Hb as [Hb|Hb]; [|apply list_elem_of_singleton in Hb];
    rewrite Hb in *; cbn [String.eqb Ascii.eqb Bool.eqb] in *.
  - destruct (scanner_table_outcome c grad_mrtrix T w) as (h' & Hh' & Hrun); [done..|].
    rewrite T_wide in Hrun. destruct Hrun as (l & Hrun & HT').
    apply wp_bind, wp_bind. unfold wp at 1. rewrite Hrun.
    apply wp_bind. unfold wp at 1, write_table. cbn [heap set_heap]. rewrite HT'.
    apply wp_ret. by apply Hrest.
  - destruct (image_table_spec c grad_fsl F w) as (l & h' & Hrun & Hh' & HT'); [done..|].
    apply wp_bind, wp_bind. unfold wp at 1. rewrite Hrun.
    apply wp_bind. unfold wp at 1, write_table. cbn [heap set_heap]. rewrite HT'.
    apply wp_ret. by apply Hrest.
Qed.
Lemma for_each_evaluate_outcome cs w :
  (∀ c, c ∈ cs → c ∈ candidates) →
  read_table (heap w) grad_mrtrix = Some T →
  read_table (heap w) grad_fsl = Some F →
  wp (for_each (evaluate E number_option grad_mrtrix grad_fsl) cs) w
    (λ _ w',
       (heap w ⊆ heap w' ∧ printed w' = printed w) ∧
       files w' = write_all (artifacts (columns4 T) F cs) (files w) ∧
       invoked w' = invoked w ++ commands number_option cs ∧
       lengths w' = lengths w ++ results E cs ∧
       Forall (λ cmd, succeeds E cmd = true) (commands number_option cs))
    (λ e w',
       (heap w ⊆ heap w' ∧ printed w' = printed w) ∧
       ∃ cmd before, e = ExternalToolError cmd ∧ succeeds E cmd = false ∧
         invoked w' = invoked w ++ before ++ [cmd] ∧
         Forall (λ cmd, succeeds E cmd = true) before ∧
         (before ++ [cmd]) `prefix_of` commands number_option cs).
Proof.
  revert w. induction cs as [|c cs IH]; intros w Hcs HT HF.
  - apply wp_ret. cbn. by rewrite !app_nil_r.
  - cbn [for_each]. apply wp_bind.
    eapply wp_weaken; [apply evaluate_outcome; [apply Hcs; by left|done..]| |].
    + intros [] w1 ((Hh1 & Hp1) & Hf1 & Hi1 & Hl1 & Hs1).
      eapply wp_weaken; [apply IH| |].
      * intros c' Hc'. apply Hcs. by right.
      * by eapply read_table_mono.
      * by eapply read_table_mono.
      * intros [] w2 ((Hh2 & Hp2) & Hf2 & Hi2 & Hl2 & Hs2).
        split; [split; [by etrans|congruence]|].
        rewrite Hf2, Hf1, Hi2, Hi1, Hl2, Hl1.
        rewrite (commands_cons _ c cs).
        unfold write_all, artifacts, results.
        rewrite !bind_cons, foldl_app, fmap_cons, <- !app_assoc.
        repeat split; try done. by apply Forall_app.
      * intros e w2 ((Hh2 & Hp2) & cmd & before & -> & Hcmd & Hi2 & Hbefore & Hprefix).
        split; [split; [by etrans|congruence]|].
        exists cmd, (commands number_option [c] ++ before).
        split; [done|]. split; [done|]. split; [|split].
        -- rewrite Hi2, Hi1. by rewrite <- !app_assoc.
        -- by apply Forall_app.
        -- rewrite (commands_cons _ c cs), <- app_assoc. by apply prefix_app.
    + intros e w1 (Hw1 & cmd & before & -> & Hcmd & Hi1 & Hbefore & Hprefix).
      split; [done|]. exists cmd, before. repeat split; try done.
      rewrite (commands_cons _ c cs). by apply prefix_app_r.
Qed.

Lemma search_outcome w :
  read_table (heap w) grad_mrtrix = Some T →
  read_table (heap w) grad_fsl = Some F →
  wp (search E number_option grad_mrtrix grad_fsl) w
    (λ _ w',
       (heap w ⊆ heap w' ∧ printed w' = printed w) ∧
       files w' = write_all (artifacts (columns4 T) F candidates) (files w) ∧
       invoked w' = invoked w ++ commands number_option candidates ∧
       lengths w' = lengths w ++ results E candidates ∧
       Forall (λ cmd, succeeds E cmd = true) (commands number_option candidates))
    (λ e w',
       (heap w ⊆ heap w' ∧ printed w' = printed w) ∧
       ∃ cmd before, e = ExternalToolError cmd ∧ succeeds E cmd = false ∧
         invoked w' = invoked w ++ before ++ [cmd] ∧
         Forall (λ cmd, succeeds E cmd = true) before ∧
         (before ++ [cmd]) `prefix_of` commands number_option candidates).
Proof.
  intros. unfold wp. rewrite search_candidates. by apply for_each_evaluate_outcome.
Qed.
End loop.

(** A row of fewer than four values stops the first iteration, before
    anything is written or run. *)
Lemma search_short E number_option grad_mrtrix grad_fsl T w :
  read_table (heap w) grad_mrtrix = Some T → wide T = false →
  ∃ h', heap w ⊆ h' ∧
    search E number_option grad_mrtrix grad_fsl w = Raise IndexError (set_heap (λ _, h') w).
Proof.
  intros HT Hwide. rewrite search_candidates.
  destruct (scanner_table_outcome (Candidate (Py.Str "none") (0, 1, 2) "scanner") grad_mrtrix T w)
    as (h' & Hh' & Hrun); [by left|by left|done|].
  rewrite Hwide in Hrun. exists h'. split; [done|].
  change candidates with (Candidate (Py.Str "none") (0, 1, 2) "scanner" :: tail candidates).
  cbn [for_each]. mstep. unfold evaluate at 1. cbn [basis String.eqb Ascii.eqb Bool.eqb].
  mstep. mstep. by rewrite Hrun.
Qed.

(** ** The whole script, whatever the environment *)

Lemma rank_cons py l ranked :
  rank py l = Some ranked → ranked ≡ₚ l.
Proof.
  unfold rank. destruct (Py.sort _ _) as [s|] eqn:Hs; [|done]. intros [= <-].
  rewrite reverse_Permutation. by eapply sort_perm.
Qed.

Lemma all_succeeded_nonempty E cmds cmds' :
  cmds ≠ [] → all_succeeded E (cmds ++ cmds') ↔
  all_succeeded E cmds ∧ Forall (λ cmd, succeeds E cmd = true) cmds'.
Proof.
  unfold all_succeeded. destruct cmds as [|c cmds]; [done|]. intros _.
  cbn [app tail]. apply Forall_app.
Qed.

Lemma setup_commands_nonempty E a : setup_commands E a ≠ [].
Proof. done. Qed.

Lemma verdict_checked E a :
  compatible a → length (header_size E (input a)) = 4%nat →
  py_min (header_size E (input a)) ≠ Some 1 →
  verdict E a
  = match table_error (volumes E a) (grad_b E) (bvecs E) with
    | Some message => Some (GradientTableMismatchError message)
    | None =>
        if negb (wide (grad_b E)) then Some IndexError
        else match rank (interpreter E) (results E candidates) with
             | Some _ => None
             | None => Some TypeError
             end
    end.
Proof.
  intros [Hi He] Hlen Hmin. unfold verdict.
  by rewrite Hi, He, Hlen, bool_decide_false.
Qed.

Lemma main_outcome E a :
  wp (main E a) initial (λ _ w, completed E a w) (failed E a).
Proof.
  unfold main. apply wp_bind.
  eapply wp_weaken; [apply prepare_outcome| |done].
  intros [n [gm gf]] w0
    (Hargs & Hlen & Hmin & Hn & Hinv & Hok & Hmask & Hlengths & Hprinted & Hgm & Hgf).
  cbn [fst snd] in *. subst n.
  apply wp_bind. unfold wp at 1. rewrite (check_tables_eq _ _ _ _ _ _ Hgm Hgf).
  destruct (table_error (volumes E a) (grad_b E) (bvecs E)) as [message|] eqn:Htab.
  { split; [by left|]. split; [|done]. split; [|done].
    rewrite verdict_checked by done. by rewrite Htab. }
  pose proof (verdict_checked E a Hargs Hlen Hmin) as Hverdict. rewrite Htab in Hverdict.
  assert (HF : length (bvecs E) = 3%nat) by (by eapply bvecs_rows).
  assert (Hloop : ∀ w1,
    invoked w1 = setup_commands E a → all_succeeded E (invoked w1) →
    lengths w1 = [] → printed w1 = [] →
    read_table (heap w1) gm = Some (grad_b E) →
    read_table (heap w1) gf = Some (bvecs E) →
    wp (search E (select (number a)) gm gf;; report E;; export E a) w1
       (λ _ w, completed E a w) (failed E a)).
  { clear dependent w0. intros w1 Hinv Hok Hlengths Hprinted Hgm Hgf.
    apply wp_bind.
    destruct (wide (grad_b E)) eqn:Hwide; last first.
    { destruct (search_short E (select (number a)) gm gf _ _ Hgm Hwide) as (h' & _ & Hrun).
      unfold wp. rewrite Hrun. split; [by left|]. split; [|done]. split; [|done].
      by rewrite Hverdict, ?Hwide. }
    rewrite ?Hwide in Hverdict. cbn [negb] in Hverdict.
    eapply wp_weaken; [by apply (search_outcome E _ gm gf (grad_b E) (bvecs E))| |].
    2:{ intros e w2 ((_ & Hp2) & cmd & before & -> & Hcmd & Hi2 & Hbefore & Hprefix).
        split; [left; congruence|]. split; [|done]. split; [done|].
        rewrite Hi2, Hinv. split.
        - unfold script_commands. apply prefix_app, prefix_app_r. done.
        - exists (setup_commands E a ++ before). split; [by rewrite app_assoc|].
          apply all_succeeded_nonempty; [done|]. split; [by rewrite <- Hinv|done]. }
    intros [] w2 ((_ & Hp2) & Hf2 & Hi2 & Hl2 & Hs2).
    rewrite Hlengths in Hl2. cbn [app] in Hl2. rewrite Hprinted in Hp2. rewrite Hinv in Hi2.
    assert (Hok2 : all_succeeded E (invoked w2)).
    { rewrite Hi2. apply all_succeeded_nonempty; [done|]. split; [by rewrite <- Hinv|done]. }
    apply wp_bind. unfold wp at 1, report. rewrite Hl2.
    destruct (rank (interpreter E) (results E candidates)) as [ranked|] eqn:Hrank; last first.
    { split; [by left|]. split; [|by split]. split; [|done].
      by rewrite Hverdict, ?Hrank. }
    rewrite ?Hrank in Hverdict.
    pose proof (rank_cons _ _ _ Hrank) as Hperm.
    destruct ranked as [|best rest].
    { by apply Permutation_nil_l in Hperm. }
    assert (Hbest : descriptor best ∈ candidates).
    { apply (results_candidates E). rewrite <- Hperm. by left. }
    set (w3 := set_printed _ _).
    assert (Hfiles : ∀ c, c ∈ candidates →
      files w3 !! grad_path c = Some (transformed (columns4 (grad_b E)) (bvecs E) c)).
    { intros c Hc. unfold w3. cbn [files set_printed set_lengths]. rewrite Hf2.
      by apply artifacts_lookup. }
    unfold export. fold (export_option E a).
    assert (Hexp : export_commands E a best
      = if String.eqb (export_option E a) "" then []
        else ["mrinfo data.mif" +:+ grad_option (descriptor best) +:+ export_option E a])
      by done.
    assert (Hscript : script_commands E a
      = setup_commands E a ++ commands (select (number a)) candidates
        ++ export_commands E a best).
    { unfold script_commands. by rewrite Hrank. }
    destruct (String.eqb (export_option E a) "").
    { apply wp_ret. exists best, rest. rewrite Hexp, app_nil_r. unfold w3 in *.
      cbn [invoked printed files set_files set_invoked set_printed set_lengths] in *.
      split_and!; done. }
    apply wp_bind. unfold wp at 1, best_length. cbn [w3 lengths set_printed set_lengths].
    apply candidates_elem_of in Hbest as (_ & _ & Hb). unfold grad_option in Hexp.
    unfold grad_basis in Hb.
    apply elem_of_cons in Hb as [Hb|Hb]; [|apply list_elem_of_singleton in Hb];
      rewrite Hb in *; cbn [String.eqb Ascii.eqb Bool.eqb] in *.
    - apply wp_run_command; intros Hcmd.
      + exists best, rest. rewrite Hexp. unfold w3 in *.
        cbn [invoked printed files set_files set_invoked set_printed set_lengths foldr] in *.
        rewrite Hi2, <- app_assoc. split_and!; try done.
        rewrite !app_assoc. apply all_succeeded_snoc; [|done]. by rewrite <- Hi2.
      + split; [by right|]. split; [|done]. split; [done|]. split.
        * rewrite Hscript, Hexp. unfold w3. cbn. by rewrite Hi2, <- app_assoc.
        * by exists (invoked w3).
    - apply wp_run_command; intros Hcmd.
      + exists best, rest. rewrite Hexp. unfold w3 in *.
        cbn [invoked printed files set_files set_invoked set_printed set_lengths foldr] in *.
        rewrite Hi2, <- app_assoc. split_and!; try done.
        rewrite !app_assoc. apply all_succeeded_snoc; [|done]. by rewrite <- Hi2.
      + split; [by right|]. split; [|done]. split; [done|]. split.
        * rewrite Hscript, Hexp. unfold w3. cbn. by rewrite Hi2, <- app_assoc.
        * by exists (invoked w3). }
  apply wp_bind. eapply wp_if_isfile; [exact Hmask|].
  destruct (truthy (mask a)) eqn:Hm.
  - apply wp_ret, Hloop; try done.
    rewrite Hinv. unfold setup_commands. by rewrite Hm, app_nil_r.
  - apply wp_run_command; intros Hcmd.
    + apply Hloop; try done.
      * cbn [invoked set_files set_invoked]. rewrite Hinv. unfold setup_commands.
        by rewrite Hm.
      * by apply all_succeeded_snoc.
    + apply failed_tool; [done..|]. rewrite Hinv. unfold script_commands, setup_commands.
      rewrite Hm. apply prefix_app_r. done.
Qed.

(** * Further properties of a run *)

(** ** The external commands *)

Lemma completed_run_commands_aux E a :
  error_of (main E a initial) = None →
  ∃ best,
    invoked (world_of (main E a initial))
    = setup_commands E a ++ commands (select (number a)) candidates
      ++ export_commands E a best.
Proof.
  intros Hdone. pose proof (main_outcome E a) as Hrun. unfold wp in Hrun.
  destruct (main E a initial) as [[] w|e w]; [|done].
  destruct Hrun as (best & rest & _ & _ & Hinvoked & _). by exists best.
Qed.

(** X1: a run that completes has invoked exactly the set-up commands
    (with [dwi2mask] only when no mask is supplied), then [tckgen] and
    [tckstats] for each of the 48 candidates in generation order, then
    the export command for the entry printed first, if an export was
    asked for - whatever the environment. *)
Theorem completed_run_commands E a :
  error_of (main E a initial) = None →
  ∃ best rest,
    printed (world_of (main E a initial)) = best :: rest ∧
    invoked (world_of (main E a initial))
    = setup_commands E a ++ commands (select (number a)) candidates
      ++ export_commands E a best.
Proof.
  intros Hdone. pose proof (main_outcome E a) as Hrun. unfold wp in Hrun.
  destruct (main E a initial) as [[] w|e w]; [|done].
  destruct Hrun as (best & rest & _ & Hprinted & Hinvoked & _).
  by exists best, rest.
Qed.

Lemma completed_run_commands_witness :
  ∃ best rest,
    printed (world_of (main (sample_env Py.Py2 distinct_means) full_args initial))
    = best :: rest ∧
    invoked (world_of (main (sample_env Py.Py2 distinct_means) full_args initial))
    = setup_commands (sample_env Py.Py2 distinct_means) full_args
      ++ commands (select (number full_args)) candidates
      ++ export_commands (sample_env Py.Py2 distinct_means) full_args best.
Proof.
  apply (completed_run_commands (sample_env Py.Py2 distinct_means) full_args).
  vm_compute. reflexivity.
Defined.



(** ** The printout *)


(** ** Failures *)

(** X4: no failure of an external command goes unnoticed.  If a command
    the script has run through [run.command] has failed, the run has
    ended with the error for that command, and the command is the last
    one invoked. *)
Theorem failure_never_unnoticed E a cmd :
  cmd ∈ tail (invoked (world_of (main E a initial))) →
  succeeds E cmd = false →
  error_of (main E a initial) = Some (ExternalToolError cmd) ∧
  last (invoked (world_of (main E a initial))) = Some cmd.
Proof.
  intros Hcmd Hfails. pose proof (main_outcome E a) as Hrun. unfold wp in Hrun.
  assert (Hnot : ∀ l, all_succeeded E l → cmd ∉ tail l).
  { unfold all_succeeded. intros l Hl Hin. rewrite Forall_forall in Hl.
    specialize (Hl _ Hin). congruence. }
  destruct (main E a initial) as [[] w|e w]; cbn [world_of error_of] in *.
  - destruct Hrun as (best & rest & _ & _ & _ & Hok & _). by destruct (Hnot _ Hok).
  - destruct Hrun as (_ & Hexplains & Hok).
    destruct e as [| | |cmd'| | | |]; try by destruct (Hnot _ (proj1 Hok)).
    cbn [explains] in Hexplains.
    destruct Hexplains as (_ & _ & before & Hinv & Hbefore).
    rewrite Hinv in Hcmd |- *. rewrite last_snoc.
    destruct before as [|c before]; [by apply elem_of_nil in Hcmd|].
    cbn [app tail] in Hcmd. apply elem_of_app in Hcmd as [Hcmd|Hcmd].
    + by destruct (Hnot _ Hbefore).
    + by apply list_elem_of_singleton in Hcmd as ->.
Qed.

Lemma failure_never_unnoticed_witness :
  error_of (main no_mask_env sample_args initial)
  = Some (ExternalToolError "dwi2mask data.mif mask.mif") ∧
  last (invoked (world_of (main no_mask_env sample_args initial)))
  = Some "dwi2mask data.mif mask.mif".
Proof.
  apply (failure_never_unnoticed no_mask_env sample_args "dwi2mask data.mif mask.mif").
  - apply (bool_decide_unpack _). vm_compute. exact I.
  - reflexivity.
Defined.





(** ** The tables on disk after a run *)

(** X7: the combined table may have more than four values per row.
    After a run that completes, every candidate's file holds the
    transformation of the table made of the first four values of every
    row: further columns are dropped without notice. *)
Theorem extra_columns_dropped E a c :
  error_of (main E a initial) = None → c ∈ candidates →
  wide (grad_b E) = true ∧
  files (world_of (main E a initial)) !! grad_path c
  = Some (transformed (columns4 (grad_b E)) (bvecs E) c).
Proof.
  intros Hdone Hc. pose proof (main_outcome E a) as Hrun. unfold wp in Hrun.
  destruct (main E a initial) as [[] w|e w]; [|done].
  destruct Hrun as (best & rest & _ & _ & _ & _ & Hverdict & Hfiles).
  split; [|by apply Hfiles]. unfold verdict in Hverdict.
  repeat case_match; simplify_eq. by destruct (wide (grad_b E)).
Qed.

Lemma extra_columns_dropped_witness :
  wide (grad_b wide_env) = true ∧
  files (world_of (main wide_env sample_args initial))
    !! grad_path (Candidate (Py.Int 0) (1, 0, 2) "scanner")
  = Some (transformed (columns4 (grad_b wide_env)) (bvecs wide_env)
            (Candidate (Py.Int 0) (1, 0, 2) "scanner")).
Proof.
  apply (extra_columns_dropped wide_env sample_args).
  - vm_compute. reflexivity.
  - apply (bool_decide_unpack _). vm_compute. exact I.
Defined.

(** ** The export *)

(** X8: when an export is asked for, the last command of a run that
    completes reads the gradient file of the entry printed first, and
    that file is the one written for its candidate during the search.
    Provided no mean length is NaN, no result has a greater mean length
    than that entry.  (With a NaN among the means, [lengths[0]] need not
    be a maximum: a NaN answers [False] to every comparison.) *)
Theorem export_reads_best_table E a :
  error_of (main E a initial) = None → export_option E a ≠ "" →
  no_nan (results E candidates) →
  ∃ best,
    head (printed (world_of (main E a initial))) = Some best ∧
    last (invoked (world_of (main E a initial)))
    = Some ("mrinfo data.mif" +:+ grad_option (descriptor best) +:+ export_option E a) ∧
    (∀ r, r ∈ results E candidates → Py.float_le (meanlength r) (meanlength best)) ∧
    files (world_of (main E a initial)) !! grad_path (descriptor best)
    = Some (transformed (columns4 (grad_b E)) (bvecs E) (descriptor best)).
Proof.
  intros Hdone Hoption Hnum. pose proof (main_outcome E a) as Hrun. unfold wp in Hrun.
  destruct (main E a initial) as [[] w|e w]; [|done]. cbn [world_of].
  destruct Hrun as (best & rest & Hrank & Hprinted & Hinvoked & _ & _ & Hfiles).
  exists best. rewrite Hprinted, Hinvoked. split; [done|].
  pose proof (rank_cons _ _ _ Hrank) as Hperm.
  split; [|split].
  - unfold export_commands. apply String.eqb_neq in Hoption. rewrite Hoption.
    by rewrite !app_assoc, last_snoc.
  - intros r Hr. rewrite <- Hperm in Hr.
    destruct (rank_py2 (results E candidates) (results_NoDup E) Hnum)
      as (ranked & Hrank' & _ & Hsorted).
    rewrite (rank_agrees _ _ _ Hrank) in Hrank'. simplify_eq.
    apply StronglySorted_cons in Hsorted as [Hall _].
    apply elem_of_cons in Hr as [->|Hr].
    + apply float_eqb_le. unfold no_nan in Hnum. rewrite <- Hperm in Hnum.
      apply Forall_cons in Hnum as [[x ->]%not_nan _]. apply Z.eqb_refl.
    + rewrite Forall_forall in Hall. by apply result_lt_unfold, Hall.
  - apply Hfiles, (results_candidates E). rewrite <- Hperm. by left.
Qed.

Lemma export_reads_best_table_witness :
  ∃ best,
    head (printed (world_of (main (sample_env Py.Py2 distinct_means) full_args initial)))
    = Some best ∧
    last (invoked (world_of (main (sample_env Py.Py2 distinct_means) full_args initial)))
    = Some ("mrinfo data.mif" +:+ grad_option (descriptor best)
            +:+ export_option (sample_env Py.Py2 distinct_means) full_args) ∧
    (∀ r, r ∈ results (sample_env Py.Py2 distinct_means) candidates →
          Py.float_le (meanlength r) (meanlength best)) ∧
    files (world_of (main (sample_env Py.Py2 distinct_means) full_args initial))
      !! grad_path (descriptor best)
    = Some (transformed (columns4 (grad_b (sample_env Py.Py2 distinct_means)))
              (bvecs (sample_env Py.Py2 distinct_means)) (descriptor best)).
Proof.
  apply (export_reads_best_table (sample_env Py.Py2 distinct_means) full_args).
  - vm_compute. reflexivity.
  - vm_compute. discriminate.
  - apply measured_no_nan.
Defined.

(** ** The interpreter *)

(** X9: porting the script to Python 3 can make the sort raise, but it
    cannot change the ranking.  Whenever [lengths.sort();
    lengths.reverse()] completes under Python 3, the same two calls on
    the same list under Python 2 leave the same ranking: every question
    that the sort asks and that Python 3 answers, Python 2 answers in
    the same way. *)
Theorem python3_ranking_is_python2_ranking (l ranked : list result) :
  rank Py.Py3 l = Some ranked → rank Py.Py2 l = Some ranked ∧ ranked ≡ₚ l.
Proof.
  intros Hrank. split; [by eapply rank_agrees|].
  unfold rank in Hrank. destruct (Py.sort (result_lt Py.Py3) l) as [s|] eqn:Hs; [|done].
  simplify_eq. rewrite reverse_Permutation. by eapply sort_perm.
Qed.

Lemma python3_ranking_is_python2_ranking_witness :
  ∃ ranked,
    rank Py.Py3 (results (sample_env Py.Py3 distinct_means) candidates) = Some ranked ∧
    rank Py.Py2 (results (sample_env Py.Py3 distinct_means) candidates) = Some ranked ∧
    ranked ≡ₚ results (sample_env Py.Py3 distinct_means) candidates.
Proof.
  eexists. split; [vm_compute; reflexivity|].
  apply python3_ranking_is_python2_ranking. vm_compute. reflexivity.
Defined.

(** ** The brain mask *)

Lemma commands_not_dwi2mask number_option cs :
  "dwi2mask data.mif mask.mif" ∉ commands number_option cs.
Proof.
  unfold commands. intros (c & Hin & _)%list_elem_of_bind.
  apply elem_of_cons in Hin as [Hin|Hin]; [discriminate|].
  apply list_elem_of_singleton in Hin. discriminate.
Qed.

Lemma prepare_commands_not_dwi2mask E a :
  "dwi2mask data.mif mask.mif" ∉ prepare_commands E a.
Proof.
  unfold prepare_commands, conversions.
  destruct (truthy (mask a)), (truthy (grad a)), (given (fslgrad a)); cbn [app];
    rewrite !not_elem_of_cons; split_and!; try discriminate; apply not_elem_of_nil.
Qed.

Lemma export_commands_not_dwi2mask E a best :
  "dwi2mask data.mif mask.mif" ∉ export_commands E a best.
Proof.
  unfold export_commands. destruct (String.eqb _ _); [apply not_elem_of_nil|].
  rewrite not_elem_of_cons. split; [discriminate|apply not_elem_of_nil].
Qed.

(** X10: in a run that completes, a brain mask is computed with
    [dwi2mask] exactly when the user has supplied none - an empty
    [-mask] argument counts as none. *)
Theorem mask_computed_unless_supplied E a :
  error_of (main E a initial) = None →
  ("dwi2mask data.mif mask.mif" ∈ invoked (world_of (main E a initial))
   ↔ truthy (mask a) = false).
Proof.
  intros Hdone. destruct (completed_run_commands_aux E a Hdone) as (best & Hinv).
  rewrite Hinv. unfold setup_commands. rewrite !elem_of_app.
  pose proof (prepare_commands_not_dwi2mask E a) as Hprepare.
  pose proof (commands_not_dwi2mask (select (number a)) candidates) as Hsearch.
  pose proof (export_commands_not_dwi2mask E a best) as Hexport.
  destruct (truthy (mask a)).
  - rewrite elem_of_nil. split; [tauto|done].
  - rewrite list_elem_of_singleton. split; [done|]. intros _. left. by right.
Qed.

Lemma mask_computed_unless_supplied_witness :
  "dwi2mask data.mif mask.mif"
    ∈ invoked (world_of (main (sample_env Py.Py2 distinct_means) sample_args initial))
  ↔ truthy (mask sample_args) = false.
Proof.
  apply (mask_computed_unless_supplied (sample_env Py.Py2 distinct_means) sample_args).
  vm_compute. reflexivity.
Defined.

(** ** The errors, one by one *)



(** ** Signed permutations *)

Lemma abs_opp_fmap (xs : list Z) : Z.abs <$> (Z.opp <$> xs) = Z.abs <$> xs.
Proof.
  rewrite <- list_fmap_compose. apply list_fmap_ext. intros _ x _. apply Z.abs_opp.
Qed.

Lemma transformed_scanner_row c (row : list Z) :
  flip c ∈ axis_flips → permutation c ∈ axis_permutations → (4 <=? length row)%nat = true →
  ∃ row', transformed_scanner c [take 4 row] = [row'] ∧
    length row' = 4%nat ∧ row' !! 3%nat = row !! 3%nat ∧
    Z.abs <$> take 3 row' ≡ₚ Z.abs <$> take 3 row.
Proof.
  intros Hf Hp Hrow. destruct row as [|x [|y [|z [|b rest]]]]; try done.
  unfold transformed_scanner, axis_flips, axis_permutations in *.
  eexists. split; [reflexivity|].
  repeat (apply elem_of_cons in Hf as [->|Hf]);
    [..|by apply elem_of_nil in Hf];
    (repeat (apply elem_of_cons in Hp as [->|Hp]);
     [..|by apply elem_of_nil in Hp]);
    (split; [reflexivity|]; split; [reflexivity|]);
    unfold negate_column, permute_columns; simpl; rewrite ?Z.abs_opp; solve_Permutation.
Qed.

Lemma transformed_image_rows c (F : list (list Z)) :
  flip c ∈ axis_flips → permutation c ∈ axis_permutations → length F = 3%nat →
  (λ row : list Z, Z.abs <$> row) <$> transformed_image c F
  ≡ₚ (λ row : list Z, Z.abs <$> row) <$> F.
Proof.
  intros Hf Hp (r0 & r1 & r2 & ->)%length_3.
  unfold transformed_image, axis_flips, axis_permutations in *.
  repeat (apply elem_of_cons in Hf as [->|Hf]);
    [..|by apply elem_of_nil in Hf];
    (repeat (apply elem_of_cons in Hp as [->|Hp]);
     [..|by apply elem_of_nil in Hp]);
    unfold negate_row, permute_rows; simpl;
    change (list_fmap Z Z Z.abs) with (fmap (M:=list) Z.abs);
    change (list_fmap Z Z Z.opp) with (fmap (M:=list) Z.opp);
    rewrite ?abs_opp_fmap; solve_Permutation.
Qed.

(** X12: every candidate table is a signed permutation of the user's
    table.  After a run that completes, each row of a candidate's
    combined table has four values, the b-value of the row it comes
    from and, up to sign and order, its three direction components; the
    rows of a candidate's split table are, up to sign and order, the
    three rows of the original. *)
Theorem candidate_tables_signed_permutations E a c :
  error_of (main E a initial) = None → c ∈ candidates →
  ∃ sep table,
    files (world_of (main E a initial)) !! grad_path c = Some (Table sep table) ∧
    if String.eqb (basis c) "scanner"
    then Forall2 (λ row row',
                    length row' = 4%nat ∧ row' !! 3%nat = row !! 3%nat ∧
                    Z.abs <$> take 3 row' ≡ₚ Z.abs <$> take 3 row)
                 (grad_b E) table
    else (λ row : list Z, Z.abs <$> row) <$> table
         ≡ₚ (λ row : list Z, Z.abs <$> row) <$> bvecs E.
Proof.
  intros Hdone Hc. pose proof (main_outcome E a) as Hrun. unfold wp in Hrun.
  destruct (main E a initial) as [[] w|e w]; [|done]. cbn [world_of].
  destruct Hrun as (best & rest & _ & _ & _ & _ & Hverdict & Hfiles).
  rewrite (Hfiles c Hc). unfold transformed.
  apply candidates_elem_of in Hc as (Hf & Hp & _).
  unfold verdict in Hverdict. repeat case_match; simplify_eq; eexists _, _;
    (split; [reflexivity|]).
  - unfold transformed_scanner, columns4. rewrite <- list_fmap_compose.
    apply Forall2_fmap_r, Forall_Forall2_diag.
    match goal with H : negb (wide _) = false |- _ =>
      apply negb_false_iff in H; unfold wide in H; rewrite forallb_forall in H;
      rename H into Hwide end.
    apply Forall_forall. intros row Hrow.
    destruct (transformed_scanner_row c row Hf Hp) as (row' & Hrow' & ?).
    { by apply Hwide, list_elem_of_In. }
    unfold transformed_scanner in Hrow'. cbn [fmap list_fmap] in Hrow'.
    by simplify_eq.
  - apply transformed_image_rows; [done..|]. by eapply bvecs_rows.
Qed.

Lemma candidate_tables_signed_permutations_witness :
  ∃ sep table,
    files (world_of (main wide_env sample_args initial))
      !! grad_path (Candidate (Py.Int 1) (2, 0, 1) "scanner")
    = Some (Table sep table) ∧
    if String.eqb (basis (Candidate (Py.Int 1) (2, 0, 1) "scanner")) "scanner"
    then Forall2 (λ row row',
                    length row' = 4%nat ∧ row' !! 3%nat = row !! 3%nat ∧
                    Z.abs <$> take 3 row' ≡ₚ Z.abs <$> take 3 row)
                 (grad_b wide_env) table
    else (λ row : list Z, Z.abs <$> row) <$> table
         ≡ₚ (λ row : list Z, Z.abs <$> row) <$> bvecs wide_env.
Proof.
  apply (candidate_tables_signed_permutations wide_env sample_args).
  - vm_compute. reflexivity.
  - apply (bool_decide_unpack _). vm_compute. exact I.
Defined.

(** ** Reading and writing the table files *)

Lemma split_when_nonempty sep s : Reader.split_when sep s ≠ [].
Proof.
  destruct s as [|c s]; [done|]. cbn. destruct (sep c); [done|].
  by destruct (Reader.split_when sep s).
Qed.

Lemma split_when_app sep a c b :
  sep c = true →
  Reader.split_when sep (a ++ c :: b) = Reader.split_when sep a ++ Reader.split_when sep b.
Proof.
  intros Hc. induction a as [|x a IH]; cbn [app Reader.split_when].
  - by rewrite Hc.
  - rewrite IH. destruct (sep x); [done|].
    pose proof (split_when_nonempty sep a). by destruct (Reader.split_when sep a).
Qed.

Lemma split_when_none sep a :
  Forall (λ c, sep c = false) a → Reader.split_when sep a = [a].
Proof.
  induction 1 as [|x a Hx _ IH]; [done|]. cbn [Reader.split_when]. by rewrite Hx, IH.
Qed.

Lemma eqb_newline (l : list Ascii.ascii) :
  Reader.newline ∉ l → Forall (λ c, Ascii.eqb Reader.newline c = false) l.
Proof.
  intros Hl. apply Forall_forall. intros c Hc. apply Ascii.eqb_neq. by intros <-.
Qed.

Lemma short_last_line_dropped_aux (s : list Ascii.ascii) :
  Reader.read_lines (s ++ [Reader.newline]) = inr (Reader.split_on Reader.newline s).
Proof.
  unfold Reader.read_lines, Reader.split_on.
  rewrite split_when_app by apply Ascii.eqb_refl.
  cbn [Reader.split_when]. by rewrite last_snoc, removelast_last.
Qed.

(** X13: a last line of at most one character is dropped without being
    read, whatever the character: the empty line that follows a final
    newline, and also a last line that holds a single digit. *)
Theorem short_last_line_dropped (s l : list Ascii.ascii) :
  (length l ≤ 1)%nat → Reader.newline ∉ l →
  Reader.read_lines (s ++ Reader.newline :: l) = inr (Reader.split_on Reader.newline s).
Proof.
  intros Hlen Hl. unfold Reader.read_lines, Reader.split_on.
  rewrite split_when_app by apply Ascii.eqb_refl.
  rewrite (split_when_none _ l) by by apply eqb_newline.
  rewrite last_snoc, removelast_last.
  by destruct (Nat.leb_spec (length l) 1); [|lia].
Qed.

Lemma short_last_line_dropped_witness :
  Reader.read_lines (String.list_ascii_of_string "1 0 0" ++ Reader.newline
                     :: String.list_ascii_of_string "7")
  = inr (Reader.split_on Reader.newline (String.list_ascii_of_string "1 0 0")).
Proof.
  apply short_last_line_dropped.
  - vm_compute. lia.
  - apply (bool_decide_unpack _). vm_compute. exact I.
Defined.

(** X14: a final newline is optional.  For a text whose last line has
    more than one character, the lines read are the same with and
    without a newline at the end. *)
Theorem final_newline_optional (s l : list Ascii.ascii) :
  last (Reader.split_on Reader.newline s) = Some l → (1 < length l)%nat →
  Reader.read_lines (s ++ [Reader.newline]) = Reader.read_lines s.
Proof.
  intros Hlast Hlen. rewrite short_last_line_dropped_aux.
  unfold Reader.read_lines. rewrite Hlast.
  by destruct (Nat.leb_spec (length l) 1); [lia|].
Qed.

Lemma final_newline_optional_witness :
  Reader.read_lines (String.list_ascii_of_string "1 0 0" ++ [Reader.newline])
  = Reader.read_lines (String.list_ascii_of_string "1 0 0").
Proof.
  apply (final_newline_optional _ (String.list_ascii_of_string "1 0 0")).
  - reflexivity.
  - vm_compute. lia.
Defined.

Lemma split_lines (ls : list (list Ascii.ascii)) :
  Forall (λ l, Reader.newline ∉ l) ls →
  Reader.split_on Reader.newline (l ← ls; l ++ [Reader.newline]) = ls ++ [[]].
Proof.
  unfold Reader.split_on. induction 1 as [|l ls Hl _ IH]; [done|].
  rewrite bind_cons, <- app_assoc. cbn [app].
  rewrite split_when_app by apply Ascii.eqb_refl.
  rewrite IH, split_when_none by by apply eqb_newline. done.
Qed.

Lemma read_lines_written (ls : list (list Ascii.ascii)) :
  Forall (λ l, Reader.newline ∉ l) ls →
  Reader.read_lines (l ← ls; l ++ [Reader.newline]) = inr ls.
Proof.
  intros Hls. unfold Reader.read_lines. rewrite split_lines by done.
  by rewrite last_snoc, removelast_last.
Qed.

Lemma split_when_join sep c (ws : list (list Ascii.ascii)) :
  sep c = true → Forall (Forall (λ x, sep x = false)) ws → ws ≠ [] →
  Reader.split_when sep (Reader.join [c] ws) = ws.
Proof.
  intros Hc Hws Hne. induction Hws as [|w ws Hw Hws IH]; [done|].
  destruct ws as [|w' ws].
  - cbn [Reader.join]. by apply split_when_none.
  - change (Reader.join [c] (w :: w' :: ws)) with (w ++ c :: Reader.join [c] (w' :: ws)).
    rewrite split_when_app, IH, split_when_none by done. done.
Qed.

Lemma floats_str float (str : Z → list Ascii.ascii) (row : list Z) :
  Forall (λ v, float (str v) = Some v) row →
  Reader.floats float (str <$> row) = inr row.
Proof.
  induction 1 as [|v row Hv _ IH]; [done|].
  cbn [fmap list_fmap Reader.floats]. change (list_fmap Z _ str row) with (str <$> row).
  by rewrite Hv, IH.
Qed.

Lemma matrix_rows float fields (lines : list (list Ascii.ascii)) (rows : list (list Z)) :
  Forall2 (λ l row, Reader.floats float (fields l) = inr row) lines rows →
  Reader.matrix float fields lines = inr rows.
Proof.
  induction 1 as [|l row lines rows Hl _ IH]; [done|].
  cbn [Reader.matrix]. by rewrite Hl, IH.
Qed.

Lemma write_lines_lines str sep (rows : list (list Z)) :
  Reader.write_lines str sep rows
  = l ← ((λ row, Reader.join sep (str <$> row)) <$> rows); l ++ [Reader.newline].
Proof.
  unfold Reader.write_lines. induction rows as [|row rows IH]; [done|].
  by rewrite fmap_cons, !bind_cons, IH.
Qed.

Lemma join_free (P : Ascii.ascii → Prop) c (ws : list (list Ascii.ascii)) :
  P c → Forall (Forall P) ws → Forall P (Reader.join [c] ws).
Proof.
  intros Hc. induction 1 as [|w ws Hw Hws IH]; [constructor|].
  destruct ws as [|w' ws]; [done|].
  change (Reader.join [c] (w :: w' :: ws)) with (w ++ c :: Reader.join [c] (w' :: ws)).
  apply Forall_app. split; [done|]. by constructor.
Qed.

Lemma filter_all {A} (P : A → Prop) `{∀ x, Decision (P x)} (l : list A) :
  Forall P l → filter P l = l.
Proof.
  induction 1 as [|x l Hx _ IH]; [done|]. by rewrite filter_cons_True, IH.
Qed.

Lemma is_space_newline py : Reader.is_space py Reader.newline = true.
Proof. by destruct py. Qed.

Lemma is_space_space py : Reader.is_space py Reader.space = true.
Proof. by destruct py. Qed.

Lemma written_line_free str (row : list Z) :
  Forall (λ v, Reader.newline ∉ str v) row →
  Reader.newline ∉ Reader.join [Reader.space] (str <$> row).
Proof.
  intros Hrow Hin.
  assert (Hfree : Forall (λ c, c ≠ Reader.newline)
                         (Reader.join [Reader.space] (str <$> row))).
  { apply join_free; [done|]. apply Forall_fmap. eapply Forall_impl; [exact Hrow|].
    intros v Hv. apply Forall_forall. by intros c Hc ->. }
  rewrite Forall_forall in Hfree. by apply (Hfree _ Hin).
Qed.

(** X15: tables written as the script writes the split table - values
    joined by one space, one line per row - are read back unchanged as
    [grad.b] and as [bvecs], provided that [float] inverts [str] on
    their values, that no [str] of a value is empty or contains
    whitespace, and that no row of the combined table is empty. *)
Theorem space_separated_round_trip py float (str : Z → list Ascii.ascii)
    (T F : list (list Z)) :
  Forall (Forall (λ v, float (str v) = Some v ∧ str v ≠ [] ∧
                        Forall (λ c, Reader.is_space py c = false) (str v))) (T ++ F) →
  Forall (λ row, row ≠ []) T →
  Reader.read_tables py float (Reader.write_lines str [Reader.space] T)
                     (Reader.write_lines str [Reader.space] F)
  = inr (T, F).
Proof.
  intros Hvalues HT.
  assert (Hnl : ∀ v, Forall (λ c, Reader.is_space py c = false) (str v) →
                     Reader.newline ∉ str v).
  { intros v Hv Hin. rewrite Forall_forall in Hv. specialize (Hv _ Hin).
    by rewrite is_space_newline in Hv. }
  assert (Hlines : ∀ rows,
    Forall (Forall (λ v, float (str v) = Some v ∧ str v ≠ [] ∧
                          Forall (λ c, Reader.is_space py c = false) (str v))) rows →
    Reader.read_lines (Reader.write_lines str [Reader.space] rows)
    = inr ((λ row, Reader.join [Reader.space] (str <$> row)) <$> rows)).
  { intros rows Hrows. rewrite write_lines_lines. apply read_lines_written.
    apply Forall_fmap. eapply Forall_impl; [exact Hrows|]. intros row Hrow. cbn.
    apply written_line_free. eapply Forall_impl; [exact Hrow|]. naive_solver. }
  apply Forall_app in Hvalues as [HvT HvF].
  unfold Reader.read_tables. rewrite !Hlines by done.
  rewrite (matrix_rows _ _ _ T), (matrix_rows _ _ _ F); [done| |].
  - apply Forall2_fmap_l, Forall_Forall2_diag. eapply Forall_impl; [exact HvF|].
    intros row Hrow. cbn. unfold Reader.split.
    assert (Hfields : filter (λ w, w ≠ [])
              (Reader.split_when (Reader.is_space py)
                 (Reader.join [Reader.space] (str <$> row))) = str <$> row).
    { destruct row as [|v row]; [done|].
      rewrite (split_when_join _ Reader.space); [|apply is_space_space| |done].
      - apply filter_all, Forall_fmap. eapply Forall_impl; [exact Hrow|]. naive_solver.
      - apply Forall_fmap. eapply Forall_impl; [exact Hrow|]. naive_solver. }
    rewrite Hfields. apply floats_str. eapply Forall_impl; [exact Hrow|]. naive_solver.
  - apply Forall2_fmap_l, Forall_Forall2_diag.
    rewrite Forall_forall in HvT, HT. apply Forall_forall. intros row Hin.
    specialize (HvT _ Hin). specialize (HT _ Hin). cbn. unfold Reader.split_on.
    rewrite (split_when_join _ Reader.space); [|done| |by destruct row].
    + apply floats_str. eapply Forall_impl; [exact HvT|]. naive_solver.
    + apply Forall_fmap. eapply Forall_impl; [exact HvT|]. intros v (_ & _ & Hv).
      eapply Forall_impl; [exact Hv|]. intros c Hc. cbn in Hc.
      apply Ascii.eqb_neq. intros <-. by rewrite is_space_space in Hc.
Qed.

Lemma read_lines_total (s : list Ascii.ascii) : ∃ ls, Reader.read_lines s = inr ls.
Proof.
  unfold Reader.read_lines, Reader.split_on.
  pose proof (split_when_nonempty (Ascii.eqb Reader.newline) s) as Hne.
  destruct (Reader.split_when _ s) as [|l ls] using rev_ind; [done|].
  rewrite last_snoc. eauto.
Qed.

Lemma floats_failure float fields e : Reader.floats float fields = inl e → e = Reader.ValueError.
Proof.
  revert e. induction fields as [|f fs IH]; intros e; [done|]. cbn [Reader.floats].
  destruct (float f); [|by intros [= <-]].
  destruct (Reader.floats float fs); [|done]. intros [= <-]. by apply IH.
Qed.

Lemma floats_fail float fields :
  Exists (λ f, float f = None) fields → Reader.floats float fields = inl Reader.ValueError.
Proof.
  induction 1 as [f fs Hf|f fs _ IH]; cbn [Reader.floats].
  - by rewrite Hf.
  - destruct (float f); [|done]. by rewrite IH.
Qed.

Lemma matrix_fail float fields lines :
  Exists (λ l, Reader.floats float (fields l) = inl Reader.ValueError) lines →
  Reader.matrix float fields lines = inl Reader.ValueError.
Proof.
  induction 1 as [l ls Hl|l ls _ IH]; cbn [Reader.matrix].
  - by rewrite Hl.
  - destruct (Reader.floats float (fields l)) as [e|row] eqn:Hrow.
    + by rewrite (floats_failure _ _ _ Hrow).
    + by rewrite IH.
Qed.

Lemma matrix_failure float fields lines e :
  Reader.matrix float fields lines = inl e → e = Reader.ValueError.
Proof.
  revert e. induction lines as [|l ls IH]; intros e; [done|]. cbn [Reader.matrix].
  destruct (Reader.floats float (fields l)) as [e'|row] eqn:Hrow.
  - intros [= <-]. by eapply floats_failure.
  - destruct (Reader.matrix float fields ls); [|done]. intros [= <-]. by apply IH.
Qed.

Lemma read_tables_fail py float grad_b bvecs lines :
  Reader.read_lines grad_b = inr lines →
  Exists (λ l, Reader.floats float (Reader.split_on Reader.space l) = inl Reader.ValueError)
         lines →
  Reader.read_tables py float grad_b bvecs = inl Reader.ValueError.
Proof.
  intros Hlines Hfail. unfold Reader.read_tables. rewrite Hlines.
  destruct (read_lines_total bvecs) as [ls ->]. by rewrite matrix_fail.
Qed.

(** A piece that is not the last one is never dropped. *)
Lemma read_lines_keeps (s : list Ascii.ascii) pre l post :
  Reader.split_on Reader.newline s = pre ++ l :: post →
  (post = [] → (1 < length l)%nat) →
  ∃ post', Reader.read_lines s = inr (pre ++ l :: post').
Proof.
  intros Hs Hl. unfold Reader.read_lines. rewrite Hs.
  destruct post as [|p post _] using rev_ind.
  - rewrite last_snoc. exists [].
    by destruct (Nat.leb_spec (length l) 1); [specialize (Hl eq_refl); lia|].
  - replace (pre ++ l :: post ++ [p]) with ((pre ++ l :: post) ++ [p])
      by (by rewrite <- app_assoc).
    rewrite last_snoc, removelast_last.
    destruct (length p <=? 1)%nat; [by exists post|].
    exists (post ++ [p]). by rewrite <- app_assoc.
Qed.

Lemma piece_with sep c (l : list Ascii.ascii) :
  c ∈ l → sep c = false → Exists (λ w, c ∈ w) (Reader.split_when sep l).
Proof.
  intros Hin Hc. induction l as [|x l IH]; [by apply elem_of_nil in Hin|].
  cbn [Reader.split_when]. apply elem_of_cons in Hin as [<-|Hin].
  - rewrite Hc. pose proof (split_when_nonempty sep l).
    destruct (Reader.split_when sep l); [done|]. left. by left.
  - specialize (IH Hin). destruct (sep x); [by right|].
    destruct (Reader.split_when sep l) as [|w ws]; [by apply Exists_nil in IH|].
    apply Exists_cons in IH as [Hw|Hws]; [left; by right|by right].
Qed.

(** X16: a combined table written as the script writes its scanner
    candidates - values joined by a comma - is not read back: with a
    first row of two values or more, given as [grad.b], the script
    stops with [ValueError], [float] rejecting a field that holds a
    comma. *)
Theorem comma_separated_rejected py float (str : Z → list Ascii.ascii)
    (row : list Z) (rows : list (list Z)) (bvecs : list Ascii.ascii) :
  (∀ s, Reader.comma ∈ s → float s = None) →
  (2 ≤ length row)%nat → Forall (λ v, Reader.newline ∉ str v) row →
  Reader.read_tables py float (Reader.write_lines str [Reader.comma] (row :: rows)) bvecs
  = inl Reader.ValueError.
Proof.
  intros Hfloat Hrow Hnl.
  set (l := Reader.join [Reader.comma] (str <$> row)).
  assert (Hl : Forall (λ c, c ≠ Reader.newline) l).
  { apply join_free; [done|]. apply Forall_fmap. eapply Forall_impl; [exact Hnl|].
    intros v Hv. apply Forall_forall. by intros c Hc ->. }
  assert (Hcomma : Reader.comma ∈ l).
  { unfold l. destruct row as [|v [|v' row]]; cbn in Hrow; try lia.
    change (Reader.join [Reader.comma] (str <$> v :: v' :: row))
      with (str v ++ Reader.comma :: Reader.join [Reader.comma] (str <$> v' :: row)).
    apply elem_of_app. right. by left. }
  destruct (read_lines_keeps (Reader.write_lines str [Reader.comma] (row :: rows)) [] l
              (Reader.split_on Reader.newline (Reader.write_lines str [Reader.comma] rows)))
    as [post Hlines].
  { unfold Reader.write_lines, Reader.split_on. rewrite bind_cons, <- app_assoc. cbn [app].
    rewrite split_when_app by apply Ascii.eqb_refl. fold l.
    rewrite split_when_none; [done|]. eapply Forall_impl; [exact Hl|].
    intros c Hc. cbn. apply Ascii.eqb_neq. congruence. }
  { intros Habs. by destruct (split_when_nonempty _ _ Habs). }
  eapply read_tables_fail; [exact Hlines|]. left. apply floats_fail.
  eapply Exists_impl; [by apply (piece_with _ Reader.comma l Hcomma)|].
  intros w Hw. by apply Hfloat.
Qed.

(** X17: [grad.b] must separate its values by exactly one space.  Two
    spaces in a row anywhere in the text make the script stop with
    [ValueError], [float] rejecting the empty field between them.  A
    line of [bvecs] yields the same fields with one space and with
    two. *)
Theorem double_space_rejected py float (a b bvecs : list Ascii.ascii) :
  float [] = None →
  Reader.read_tables py float (a ++ Reader.space :: Reader.space :: b) bvecs
  = inl Reader.ValueError ∧
  Reader.split py (a ++ Reader.space :: Reader.space :: b)
  = Reader.split py (a ++ Reader.space :: b).
Proof.
  intros Hfloat. split; last first.
  { unfold Reader.split. rewrite !split_when_app by apply is_space_space.
    cbn [Reader.split_when]. rewrite is_space_space, !filter_app.
    by rewrite filter_cons_False by (by intros ?). }
  assert (Hsplit : ∃ pre l1 l2 post,
    Reader.split_on Reader.newline (a ++ Reader.space :: Reader.space :: b)
    = pre ++ (l1 ++ Reader.space :: Reader.space :: l2) :: post).
  { unfold Reader.split_on. induction a as [|x a (pre & l1 & l2 & post & IH)].
    - cbn [app Reader.split_when Ascii.eqb]. cbn.
      pose proof (split_when_nonempty (Ascii.eqb Reader.newline) b) as Hne.
      destruct (Reader.split_when _ b) as [|w ws]; [done|]. by exists [], [], w, ws.
    - cbn [app Reader.split_when]. rewrite IH.
      destruct (Ascii.eqb Reader.newline x).
      + by exists ([] :: pre), l1, l2, post.
      + destruct pre as [|p pre]; [by exists [], (x :: l1), l2, post|].
        by exists ((x :: p) :: pre), l1, l2, post. }
  destruct Hsplit as (pre & l1 & l2 & post & Hsplit).
  destruct (read_lines_keeps _ _ _ _ Hsplit) as [post' Hlines].
  { intros _. rewrite length_app. cbn. lia. }
  eapply read_tables_fail; [exact Hlines|]. apply Exists_app. right. left.
  apply floats_fail. unfold Reader.split_on.
  rewrite split_when_app by done. apply Exists_app. right.
  cbn [Reader.split_when]. by left.
Qed.

Lemma space_separated_round_trip_witness :
  Reader.read_tables Py.Py3 Reader.sample_float
    (Reader.write_lines Reader.sample_str [Reader.space] [[1; 0; 0; 1000]; [0; -1; 0; 1000]])
    (Reader.write_lines Reader.sample_str [Reader.space] [[1; 0]; [0; -1]; [0; 0]])
  = inr ([[1; 0; 0; 1000]; [0; -1; 0; 1000]], [[1; 0]; [0; -1]; [0; 0]]).
Proof.
  apply space_separated_round_trip.
  - apply (bool_decide_unpack _). vm_compute. exact I.
  - apply (bool_decide_unpack _). vm_compute. exact I.
Defined.

Lemma sample_float_comma (s : list Ascii.ascii) :
  Reader.comma ∈ s → Reader.sample_float s = None.
Proof.
  intros Hs. unfold Reader.sample_float.
  destruct (list_find _ _) as [[i v]|] eqn:Hfind; [|done]. exfalso.
  apply list_find_Some in Hfind as (Hv & <- & _).
  apply list_elem_of_lookup_2 in Hv. revert Hs.
  repeat (apply elem_of_cons in Hv as [->|Hv];
          [by apply (bool_decide_unpack _); vm_compute|]).
  by apply elem_of_nil in Hv.
Qed.

Lemma comma_separated_rejected_witness :
  Reader.read_tables Py.Py3 Reader.sample_float
    (Reader.write_lines Reader.sample_str [Reader.comma] ([1; 0; 0; 1000] :: [[0; 1; 0; 1000]]))
    (Reader.write_lines Reader.sample_str [Reader.space] [[1; 0]; [0; 1]; [0; 0]])
  = inl Reader.ValueError.
Proof.
  apply comma_separated_rejected.
  - apply sample_float_comma.
  - simpl. lia.
  - apply (bool_decide_unpack _). vm_compute. exact I.
Defined.

Lemma double_space_rejected_witness :
  Reader.read_tables Py.Py2 Reader.sample_float
    (String.list_ascii_of_string "1 0" ++ Reader.space :: Reader.space
     :: String.list_ascii_of_string "0 1000")
    (String.list_ascii_of_string "1")
  = inl Reader.ValueError ∧
  Reader.split Py.Py2 (String.list_ascii_of_string "1 0" ++ Reader.space :: Reader.space
                       :: String.list_ascii_of_string "0 1000")
  = Reader.split Py.Py2 (String.list_ascii_of_string "1 0" ++ Reader.space
                         :: String.list_ascii_of_string "0 1000").
Proof. apply double_space_rejected. reflexivity. Defined.

(** X18: reading the two files fails with [ValueError] or not at all.
    The last line looked at by [x[-1]] always exists - an empty file
    gives one empty line, which is then dropped - so [IndexError] is
    never raised, and an empty [grad.b] is read as a table of no rows,
    left to the check of the number of rows. *)
Theorem reading_raises_value_error_only py float (grad_b bvecs : list Ascii.ascii) :
  Reader.read_tables py float grad_b bvecs ≠ inl Reader.IndexError ∧
  match Reader.read_tables py float [] bvecs with
  | inr tables => tables.1 = []
  | inl e => e = Reader.ValueError
  end.
Proof.
  split.
  - unfold Reader.read_tables.
    destruct (read_lines_total grad_b) as [ls ->], (read_lines_total bvecs) as [ls' ->].
    destruct (Reader.matrix float _ ls) as [e|T] eqn:HT.
    { by rewrite (matrix_failure _ _ _ _ HT). }
    destruct (Reader.matrix float _ ls') as [e|F] eqn:HF; [|done].
    by rewrite (matrix_failure _ _ _ _ HF).
  - unfold Reader.read_tables. cbn.
    destruct (read_lines_total bvecs) as [ls' ->].
    destruct (Reader.matrix float _ ls') as [e|F] eqn:HF; [|done].
    by eapply matrix_failure.
Qed.

(** ** The ranking and the order of evaluation *)

Lemma rank_py2_unique (l l' r r' : list result) :
  NoDup l → no_nan l → l ≡ₚ l' →
  rank Py.Py2 l = Some r → rank Py.Py2 l' = Some r' → r = r'.
Proof.
  intros Hnd Hnum Hperm Hr Hr'.
  destruct (rank_py2 l Hnd Hnum) as (s & Hs & Hps & Hsorted).
  destruct (rank_py2 l') as (s' & Hs' & Hps' & Hsorted');
    [by rewrite <- Hperm|unfold no_nan; by rewrite <- Hperm|].
  simplify_eq. eapply StronglySorted_unique_strong; [|done..|by rewrite Hps, Hps'].
  intros x y _ _ Hyx Hxy. apply result_lt_asym in Hyx. congruence.
Qed.

(** X19: the ranking depends on the results only, not on the order in
    which they were appended to [lengths]: provided no mean length is
    NaN, sorting any rearrangement of a list of distinct entries gives
    the same ranking, and under Python 3 raises for the one exactly when
    it raises for the other.  (A list with a NaN mean is left aside:
    there the comparisons are not those of an order and the result of
    the sort depends on the order of the appends.) *)
Theorem ranking_ignores_evaluation_order py (l l' : list result) :
  NoDup l → no_nan l → l ≡ₚ l' → rank py l' = rank py l.
Proof.
  intros Hnd Hnum Hperm.
  assert (Hdefined : ∀ l1 l2 r, no_nan l1 → l1 ≡ₚ l2 → rank Py.Py3 l1 = Some r →
                                is_Some (rank Py.Py3 l2)).
  { intros l1 l2 r Hnum1 H12 Hr. apply rank_defined. right. intros a b Ha Hb Hmixed.
    rewrite <- H12 in Ha, Hb. by rewrite (rank_py3_mixed_tie l1 a b) in Hr. }
  assert (Hnum' : no_nan l') by (unfold no_nan; by rewrite <- Hperm).
  destruct (rank py l) as [r|] eqn:Hr, (rank py l') as [r'|] eqn:Hr'; [|..|done].
  - f_equal. symmetry.
    eapply rank_py2_unique; [exact Hnd|exact Hnum|exact Hperm|by eapply rank_agrees..].
  - destruct py.
    + destruct (rank_py2_defined l') as (? & ? & _). congruence.
    + destruct (Hdefined l l' r Hnum Hperm Hr). congruence.
  - destruct py.
    + destruct (rank_py2_defined l) as (? & ? & _). congruence.
    + symmetry in Hperm. destruct (Hdefined l' l r' Hnum' Hperm Hr'). congruence.
Qed.

Lemma ranking_ignores_evaluation_order_witness :
  rank Py.Py3 (reverse (results (sample_env Py.Py3 distinct_means) candidates))
  = rank Py.Py3 (results (sample_env Py.Py3 distinct_means) candidates).
Proof.
  apply ranking_ignores_evaluation_order.
  - apply (bool_decide_unpack _). vm_compute. exact I.
  - apply measured_no_nan.
  - symmetry. apply reverse_Permutation.
Defined.
